(** * situation-monitor: the news ingestion pipeline

    A shallow embedding of the TypeScript pipeline of the repository
    (text enrichment, identity hashing, date parsing, filter, deduplication,
    sort and the orchestrator) together with the properties its
    specification states about it.

    Conventions of the embedding.
    - A JavaScript string is a [string]: a sequence of code units, each below
      256 (ASCII and Latin-1 text).  Code units above 255 are outside the
      model; a pattern of the source that mentions one can never match.
    - A JavaScript number that holds an integer (a length, a position, a
      time value, a hash) is a [Z]; the [maxLength] of a summary and its
      products with 0.5 and 0.7 are binary64 numbers ([PrimFloat]), as in the
      engine.  [NaN] of a time value is [None].
    - [undefined] and an absent property are [None].
    - What the host provides (the clock, the implementation-defined part of
      [Date.parse], the [URL] parser, the network, the order in which
      [Array.prototype.sort] leaves an array whose comparator is not
      consistent) is a parameter. *)

From Stdlib Require Import ZArith List String Ascii Bool Lia.
From Stdlib Require Import Floats Uint63.
From Stdlib Require Import Sorting.Sorted Sorting.Permutation.
From stdpp Require Import gmap strings.

Open Scope string_scope.
Open Scope Z_scope.

(* ================================================================== *)
(** * The JavaScript runtime the source relies on *)
(* ================================================================== *)

Module Js.

(** ** Numbers *)

(** [ToInt32]: the wrap-around of the bitwise operators. *)
Definition to_int32 (z : Z) : Z := (z + 2 ^ 31) mod 2 ^ 32 - 2 ^ 31.

(** [x << n] on 32-bit integers. *)
Definition shl32 (x n : Z) : Z := to_int32 (Z.shiftl (to_int32 x) n).

(** [x & y] on 32-bit integers. *)
Definition and32 (x y : Z) : Z := Z.land (to_int32 x) (to_int32 y).

(** An integer as a number (exact below 2^53 in magnitude). *)
Definition num (z : Z) : float :=
  if z <? 0 then PrimFloat.opp (PrimFloat.of_uint63 (Uint63.of_Z (- z)))
  else PrimFloat.of_uint63 (Uint63.of_Z z).

(** The number the literal [0.7] denotes, and [0.5]. *)
Definition lit_0_7 : float := 0x1.6666666666666p-1%float.
Definition lit_0_5 : float := 0x1p-1%float.

(** [ToIntegerOrInfinity]: [NaN] is 0, a finite number is truncated. *)
Inductive integer_or_inf : Type :=
| NegInf
| Int (z : Z)
| PosInf.

Definition toIntegerOrInfinity (x : float) : integer_or_inf :=
  match Prim2SF x with
  | S754_zero _ => Int 0
  | S754_nan => Int 0
  | S754_infinity neg => if neg then NegInf else PosInf
  | S754_finite neg mant e =>
      let magnitude := if 0 <=? e then Z.shiftl (Z.pos mant) e
                       else Z.shiftr (Z.pos mant) (- e) in
      Int (if neg then - magnitude else magnitude)
  end.

(** The digit of [Number.prototype.toString(radix)]. *)
Definition digit_of (d : Z) : ascii :=
  if d <? 10 then ascii_of_nat (Z.to_nat (48 + d))
  else ascii_of_nat (Z.to_nat (97 + (d - 10))).

Fixpoint toString_aux (fuel : nat) (radix n : Z) (acc : string) : string :=
  match fuel with
  | O => acc
  | S fuel' =>
      let acc' := String (digit_of (n mod radix)) acc in
      if n / radix =? 0 then acc' else toString_aux fuel' radix (n / radix) acc'
  end.

(** [n.toString(radix)] for an integer [n] (a minus sign for a negative one). *)
Definition toString (radix n : Z) : string :=
  if n <? 0 then String "-" (toString_aux (S (Z.to_nat (Z.log2 (- n)))) radix (- n) "")
  else toString_aux (S (Z.to_nat (Z.log2 n))) radix n "".

Definition toString36 : Z -> string := toString 36.
Definition toString10 : Z -> string := toString 10.

(** Decimal digits, for the fields of a date. *)
Definition digit10 (d : Z) : ascii := ascii_of_nat (Z.to_nat (48 + d mod 10)).

Fixpoint pad10 (width : nat) (n : Z) (acc : string) : string :=
  match width with
  | O => acc
  | S w => pad10 w (n / 10) (String (digit10 n) acc)
  end.

(** ** Code units *)

Definition code (c : ascii) : Z := Z.of_nat (nat_of_ascii c).
Definition unit_of (z : Z) : ascii := ascii_of_nat (Z.to_nat z).
Definition in_range (lo hi : Z) (c : ascii) : bool :=
  (lo <=? code c) && (code c <=? hi).

Definition is_upper (c : ascii) : bool := in_range 65 90 c.
Definition is_lower (c : ascii) : bool := in_range 97 122 c.
Definition is_digit (c : ascii) : bool := in_range 48 57 c.
Definition is_word (c : ascii) : bool :=
  is_upper c || is_lower c || is_digit c || (code c =? 95).

(** White space and line terminators below 256: TAB, LF, VT, FF, CR, SP, NBSP. *)
Definition is_space (c : ascii) : bool :=
  in_range 9 13 c || (code c =? 32) || (code c =? 160).

(** Latin-1 capitals with a lower-case partner: A-Z and U+00C0-U+00DE but U+00D7. *)
Definition lower_unit (c : ascii) : ascii :=
  if is_upper c then unit_of (code c + 32)
  else if in_range 192 222 c && negb (code c =? 215) then unit_of (code c + 32)
  else c.

(** The inverse on units whose capital stays below 256.  (The capitals of
    U+00B5, U+00DF and U+00FF leave the modelled range; the source upper-cases
    only what a letter class [A-Za-z] matched.) *)
Definition upper_unit (c : ascii) : ascii :=
  if is_lower c then unit_of (code c - 32)
  else if in_range 224 254 c && negb (code c =? 247) then unit_of (code c - 32)
  else c.

(** ** Strings *)

Fixpoint map_units (f : ascii -> ascii) (s : string) : string :=
  match s with
  | EmptyString => EmptyString
  | String c s' => String (f c) (map_units f s')
  end.

Definition toLowerCase : string -> string := map_units lower_unit.
Definition toUpperCase : string -> string := map_units upper_unit.

Definition len (s : string) : Z := Z.of_nat (String.length s).

(** [s.charCodeAt(i)] for each [i] below the length, in order. *)
Definition charCodes (s : string) : list Z := map code (list_ascii_of_string s).

Fixpoint take_units (n : nat) (s : string) : string :=
  match n, s with
  | S n', String c s' => String c (take_units n' s')
  | _, _ => EmptyString
  end.

Fixpoint drop_units (n : nat) (s : string) : string :=
  match n, s with
  | S n', String _ s' => drop_units n' s'
  | _, _ => s
  end.

(** [s.slice(0, e)]: a negative end counts from the back. *)
Definition slice0 (s : string) (e : integer_or_inf) : string :=
  let final :=
    match e with
    | NegInf => 0
    | Int e => if e <? 0 then Z.max (len s + e) 0 else Z.min e (len s)
    | PosInf => len s
    end in
  take_units (Z.to_nat final) s.

Fixpoint starts_with (p s : string) : bool :=
  match p, s with
  | EmptyString, _ => true
  | String a p', String b s' => Ascii.eqb a b && starts_with p' s'
  | String _ _, EmptyString => false
  end.

(** [s.includes(k)]. *)
Fixpoint includes (s k : string) : bool :=
  starts_with k s ||
  match s with
  | EmptyString => false
  | String _ s' => includes s' k
  end.

(** [s.lastIndexOf(c)] for a single unit [c]; [-1] when absent. *)
Fixpoint lastIndexOf_from (i : Z) (c : ascii) (s : string) (found : Z) : Z :=
  match s with
  | EmptyString => found
  | String d s' => lastIndexOf_from (i + 1) c s' (if Ascii.eqb c d then i else found)
  end.

Definition lastIndexOf (s : string) (c : ascii) : Z := lastIndexOf_from 0 c s (-1).

Fixpoint trimStart (s : string) : string :=
  match s with
  | String c s' => if is_space c then trimStart s' else s
  | EmptyString => EmptyString
  end.

Fixpoint rev_units (s acc : string) : string :=
  match s with
  | EmptyString => acc
  | String c s' => rev_units s' (String c acc)
  end.

Definition trimEnd (s : string) : string :=
  rev_units (trimStart (rev_units s "")) "".

Definition trim (s : string) : string := trimEnd (trimStart s).

(** A string as a condition: the empty string is falsy. *)
Definition truthy (s : string) : bool := negb (String.eqb s "").

(** [o || d] on an optional string. *)
Definition or_else (o : option string) (d : string) : string :=
  match o with
  | Some s => if truthy s then s else d
  | None => d
  end.

End Js.

(* ================================================================== *)
(** * Identity hashing (utils) *)
(* ================================================================== *)

(** One turn of the loop of [hashCode]:
    [hash = (hash << 5) - hash + char; hash = hash & hash]. *)
Definition hashCode_step (hash char : Z) : Z :=
  let hash := Js.shl32 hash 5 - hash + char in
  Js.and32 hash hash.

Definition hashCode_int (str : string) : Z :=
  fold_left hashCode_step (Js.charCodes str) 0.

Definition hashCode (str : string) : string :=
  Js.toString36 (Z.abs (hashCode_int str)).

Definition generateId (url source : string) : string :=
  let urlHash := hashCode url in
  let sourceHash := hashCode source in
  sourceHash +:+ "-" +:+ urlHash.

(* ================================================================== *)
(** * Regular expressions: the backtracking matcher of the engine *)
(* ================================================================== *)

Module Regex.

(** The syntax the patterns of the source use.  A class is a list of ranges
    of code units. *)
Inductive re : Type :=
| Eps
| Chr (c : ascii)
| Cls (ranges : list (Z * Z))
| NotCls (ranges : list (Z * Z))
| Seq (r1 r2 : re)
| Alt (r1 r2 : re)
| Star (r : re)
| Opt (r : re)
| Group (n : nat) (r : re)
| Bol
| Eol
| WordB
| Ahead (r : re).

Notation "r1 # r2" := (Seq r1 r2) (at level 60, right associativity).

Definition rng (a b : ascii) : Z * Z := (Js.code a, Js.code b).
Definition one (a : ascii) : Z * Z := rng a a.

Definition plus (r : re) : re := r # Star r.

Fixpoint times (n : nat) (r : re) : re :=
  match n with
  | O => Eps
  | S n' => r # times n' r
  end.

Fixpoint upto (n : nat) (r : re) : re :=
  match n with
  | O => Eps
  | S n' => Opt (r # upto n' r)
  end.

(** [r{lo,hi}], greedy. *)
Definition rep (lo hi : nat) (r : re) : re := times lo r # upto (hi - lo) r.

Fixpoint lit (s : string) : re :=
  match s with
  | EmptyString => Eps
  | String c s' => Chr c # lit s'
  end.

Fixpoint alts (rs : list re) : re :=
  match rs with
  | [] => Cls []
  | [r] => r
  | r :: rs' => Alt r (alts rs')
  end.

Definition digit : re := Cls [rng "0" "9"].                     (* \d *)
Definition space : re := Cls [(9, 13); (32, 32); (160, 160)].    (* \s *)
Definition AZ : re := Cls [rng "A" "Z"].                        (* [A-Z] *)
Definition Aza : re := Cls [rng "A" "Z"; rng "a" "z"].          (* [A-Za-z] *)

(** Where the matcher stands: the unit before, the text ahead, the captures. *)
Record st : Type := mkSt {
  prev : option ascii;
  rest : string;
  caps : list (nat * string)
}.

Definition consumed (s s' : st) : string :=
  Js.take_units (String.length (rest s) - String.length (rest s')) (rest s).

Definition progressed (s s' : st) : bool :=
  (String.length (rest s') <? String.length (rest s))%nat.

Definition in_ranges (rs : list (Z * Z)) (c : ascii) : bool :=
  existsb (fun r => Js.in_range (fst r) (snd r) c) rs.

Definition is_word_opt (o : option ascii) : bool :=
  match o with
  | Some c => Js.is_word c
  | None => false
  end.

Definition next (s : st) : option ascii :=
  match rest s with
  | String c _ => Some c
  | EmptyString => None
  end.

Section Matcher.

(** The [i] flag: units are compared after canonicalisation (upper-casing). *)
Variable icase : bool.

Definition unit_matches (c d : ascii) : bool :=
  if icase then Ascii.eqb (Js.upper_unit c) (Js.upper_unit d) else Ascii.eqb c d.

Definition class_matches (rs : list (Z * Z)) (d : ascii) : bool :=
  in_ranges rs d ||
  (icase && (in_ranges rs (Js.upper_unit d) || in_ranges rs (Js.lower_unit d))).

Definition step_if (ok : ascii -> bool) (s : st) (k : st -> option st) : option st :=
  match rest s with
  | String d t => if ok d then k (mkSt (Some d) t (caps s)) else None
  | EmptyString => None
  end.

(** [m r s k]: match [r] at [s], then the continuation [k]; alternatives are
    tried in the order of the engine (left before right, more before fewer). *)
Fixpoint m (r : re) (s : st) (k : st -> option st) {struct r} : option st :=
  match r with
  | Eps => k s
  | Chr c => step_if (unit_matches c) s k
  | Cls rs => step_if (class_matches rs) s k
  | NotCls rs => step_if (fun d => negb (class_matches rs d)) s k
  | Seq r1 r2 => m r1 s (fun s' => m r2 s' k)
  | Alt r1 r2 =>
      match m r1 s k with
      | Some e => Some e
      | None => m r2 s k
      end
  | Star r' =>
      (fix loop (fuel : nat) (s0 : st) {struct fuel} : option st :=
         match fuel with
         | O => k s0
         | S fuel' =>
             match m r' s0 (fun s' => if progressed s0 s' then loop fuel' s' else None) with
             | Some e => Some e
             | None => k s0
             end
         end) (String.length (rest s)) s
  | Opt r' =>
      match m r' s (fun s' => if progressed s s' then k s' else None) with
      | Some e => Some e
      | None => k s
      end
  | Group n r' =>
      m r' s (fun s' => k (mkSt (prev s') (rest s') ((n, consumed s s') :: caps s')))
  | Bol => match prev s with None => k s | Some _ => None end
  | Eol => match rest s with EmptyString => k s | String _ _ => None end
  | WordB =>
      if xorb (is_word_opt (prev s)) (is_word_opt (next s)) then k s else None
  | Ahead r' =>
      match m r' s Some with
      | Some e => k (mkSt (prev s) (rest s) (caps e))
      | None => None
      end
  end.

(** A match that starts exactly where [p] and [t] stand. *)
Definition match_at (r : re) (p : option ascii) (t : string) : option (string * st) :=
  let s := mkSt p t [] in
  match m r s Some with
  | Some e => Some (consumed s e, e)
  | None => None
  end.

(** The leftmost match at or after the position: the text skipped, the text
    matched and the state after it. *)
Fixpoint exec_from (r : re) (p : option ascii) (t : string) : option (string * string * st) :=
  match match_at r p t with
  | Some (mt, e) => Some ("", mt, e)
  | None =>
      match t with
      | EmptyString => None
      | String c t' =>
          match exec_from r (Some c) t' with
          | Some (sk, mt, e) => Some (String c sk, mt, e)
          | None => None
          end
      end
  end.

(** [re.test(s)] and [s.match(re)] without the [g] flag. *)
Definition exec (r : re) (s : string) : option (string * string * st) :=
  exec_from r None s.

Definition test (r : re) (s : string) : bool :=
  match exec r s with Some _ => true | None => false end.

(** [s.replace(re, by)] without the [g] flag: the first match only. *)
Definition replace_first (r : re) (by_ : string) (s : string) : string :=
  match exec r s with
  | Some (sk, _, e) => sk +:+ by_ +:+ rest e
  | None => s
  end.

(** [s.replace(re, by)] with the [g] flag; after an empty match the search
    resumes one unit further. *)
Fixpoint replace_from (fuel : nat) (r : re) (by_ : string) (p : option ascii) (t : string) : string :=
  match fuel with
  | O => t
  | S fuel' =>
      match exec_from r p t with
      | None => t
      | Some (sk, mt, e) =>
          if progressed (mkSt p (Js.drop_units (String.length sk) t) []) e
          then sk +:+ by_ +:+ replace_from fuel' r by_ (prev e) (rest e)
          else match rest e with
               | EmptyString => sk +:+ by_
               | String c t' => sk +:+ by_ +:+ String c (replace_from fuel' r by_ (Some c) t')
               end
      end
  end.

Definition replace_all (r : re) (by_ : string) (s : string) : string :=
  replace_from (S (String.length s)) r by_ None s.

(** The loop [while ((match = re.exec(text)) !== null)] over a [g] pattern:
    the captures of each match in turn.  ([lastIndex] moves to the end of the
    match; every pattern it is used with consumes at least one unit.) *)
Fixpoint exec_loop (fuel : nat) (r : re) (p : option ascii) (t : string) : list (list (nat * string)) :=
  match fuel with
  | O => []
  | S fuel' =>
      match exec_from r p t with
      | None => []
      | Some (_, _, e) => caps e :: exec_loop fuel' r (prev e) (rest e)
      end
  end.

Definition exec_all (r : re) (s : string) : list (list (nat * string)) :=
  exec_loop (S (String.length s)) r None s.

End Matcher.

(** [match[n]]: the last text group [n] captured. *)
Fixpoint capture (n : nat) (cs : list (nat * string)) : option string :=
  match cs with
  | [] => None
  | (i, t) :: cs' => if Nat.eqb i n then Some t else capture n cs'
  end.

End Regex.

(* ================================================================== *)
(** * Keyword tables and detectors (utils/config) *)
(* ================================================================== *)

Definition ALERT_KEYWORDS : list string :=
  [ "war"; "invasion"; "military"; "nuclear"; "sanctions"; "missile"; "attack";
    "troops"; "conflict"; "strike"; "bomb"; "casualties"; "ceasefire"; "treaty";
    "nato"; "coup"; "martial law"; "emergency"; "assassination"; "terrorist";
    "hostage"; "evacuation" ].

(** The entries of the table in the order [Object.entries] lists them. *)
Definition REGION_KEYWORDS : list (string * list string) :=
  [ ("EUROPE", ["nato"; "eu"; "european"; "ukraine"; "russia"; "germany"; "france"; "uk"; "britain"; "poland"]);
    ("MENA", ["iran"; "israel"; "saudi"; "syria"; "iraq"; "gaza"; "lebanon"; "yemen"; "houthi"; "middle east"]);
    ("APAC", ["china"; "taiwan"; "japan"; "korea"; "indo-pacific"; "south china sea"; "asean"; "philippines"]);
    ("AMERICAS", ["us"; "america"; "canada"; "mexico"; "brazil"; "venezuela"; "latin"]);
    ("AFRICA", ["africa"; "sahel"; "niger"; "sudan"; "ethiopia"; "somalia"]) ].

Definition TOPIC_KEYWORDS : list (string * list string) :=
  [ ("CYBER", ["cyber"; "hack"; "ransomware"; "malware"; "breach"; "apt"; "vulnerability"]);
    ("NUCLEAR", ["nuclear"; "icbm"; "warhead"; "nonproliferation"; "uranium"; "plutonium"]);
    ("CONFLICT", ["war"; "military"; "troops"; "invasion"; "strike"; "missile"; "combat"; "offensive"]);
    ("INTEL", ["intelligence"; "espionage"; "spy"; "cia"; "mossad"; "fsb"; "covert"]);
    ("DEFENSE", ["pentagon"; "dod"; "defense"; "military"; "army"; "navy"; "air force"]);
    ("DIPLO", ["diplomat"; "embassy"; "treaty"; "sanctions"; "talks"; "summit"; "bilateral"]);
    ("FINANCE", ["fed"; "interest rate"; "inflation"; "gdp"; "unemployment"; "recession"; "rally"; "crash"]);
    ("CRYPTO", ["bitcoin"; "ethereum"; "crypto"; "blockchain"; "defi"; "nft"; "stablecoin"]);
    ("TECH", ["ai"; "artificial intelligence"; "machine learning"; "startup"; "ipo"; "acquisition"; "layoff"]) ].

(** A pattern with its [i] flag. *)
Record RegExp : Type := mkRegExp {
  re_source : Regex.re;
  re_ignoreCase : bool
}.

Import Regex.

Definition business_words : re :=
  alts [lit "stock"; lit "shares"; lit "inc"; lit "corp"; lit "ltd"].

Definition crypto_symbols : re :=
  alts [lit "BTC"; lit "ETH"; lit "SOL"; lit "XRP"; lit "ADA"; lit "DOGE";
        lit "DOT"; lit "AVAX"; lit "MATIC"; lit "LINK"].

Definition TICKER_PATTERNS : list RegExp :=
  [ (* /\$([A-Z]{1,5})\b/g *)
    mkRegExp (Chr "$" # Group 1 (rep 1 5 AZ) # WordB) false;
    (* /\b([A-Z]{2,5})\b(?=\s+(?:stock|shares|inc|corp|ltd))/gi *)
    mkRegExp (WordB # Group 1 (rep 2 5 AZ) # WordB # Ahead (plus space # business_words)) true;
    (* /\b(BTC|ETH|SOL|XRP|ADA|DOGE|DOT|AVAX|MATIC|LINK)\b/gi *)
    mkRegExp (WordB # Group 1 crypto_symbols # WordB) true ].

(** The result of [containsAlertKeyword]: [{ is_alert, keyword? }]. *)
Module Alert.
Record t : Type := mk {
  is_alert : bool;
  keyword : option string
}.
End Alert.

Fixpoint first_keyword (lowerText : string) (keywords : list string) : Alert.t :=
  match keywords with
  | [] => Alert.mk false None
  | keyword :: more =>
      if Js.includes lowerText keyword then Alert.mk true (Some keyword)
      else first_keyword lowerText more
  end.

Definition containsAlertKeyword (text : string) : Alert.t :=
  let lowerText := Js.toLowerCase text in
  first_keyword lowerText ALERT_KEYWORDS.

Fixpoint first_region (lowerText : string) (entries : list (string * list string)) : option string :=
  match entries with
  | [] => None
  | (region, keywords) :: more =>
      if existsb (fun k => Js.includes lowerText k) keywords then Some region
      else first_region lowerText more
  end.

Definition detectRegion (text : string) : option string :=
  let lowerText := Js.toLowerCase text in
  first_region lowerText REGION_KEYWORDS.

Fixpoint push_topics (lowerText : string) (entries : list (string * list string))
    (detected : list string) : list string :=
  match entries with
  | [] => detected
  | (topic, keywords) :: more =>
      if existsb (fun k => Js.includes lowerText k) keywords
      then push_topics lowerText more (detected ++ [topic])
      else push_topics lowerText more detected
  end.

Definition detectTopics (text : string) : list string :=
  let lowerText := Js.toLowerCase text in
  push_topics lowerText TOPIC_KEYWORDS [].

(** [Set.prototype.add] on a set that remembers insertion order. *)
Definition set_add (tickers : list string) (t : string) : list string :=
  if existsb (String.eqb t) tickers then tickers else tickers ++ [t].

(** The matches of one pattern, each added as [match[1].toUpperCase()]. *)
Definition add_matches (text : string) (tickers : list string) (pattern : RegExp) : list string :=
  fold_left
    (fun tickers caps =>
       match capture 1 caps with
       | Some m1 => set_add tickers (Js.toUpperCase m1)
       | None => tickers
       end)
    (exec_all (re_ignoreCase pattern) (re_source pattern) text)
    tickers.

Definition extractTickers (text : string) : list string :=
  fold_left (add_matches text) TICKER_PATTERNS [].

(* ================================================================== *)
(** * Text cleaning and summaries (utils, parsers) *)
(* ================================================================== *)

Definition stripHtml (html : string) : string :=
  if negb (Js.truthy html) then "" else
  (* Remove HTML tags *)
  let text := replace_all false (Chr "<" # Star (NotCls [one ">"]) # Chr ">") " " html in
  (* Decode common HTML entities *)
  let text := replace_all false (lit "&amp;") "&" text in
  let text := replace_all false (lit "&lt;") "<" text in
  let text := replace_all false (lit "&gt;") ">" text in
  let text := replace_all false (lit "&quot;") (String (Js.unit_of 34) "") text in
  let text := replace_all false (lit "&#39;") "'" text in
  let text := replace_all false (lit "&nbsp;") " " text in
  (* Normalize whitespace *)
  Js.trim (replace_all false (plus space) " " text).

(** The first artifact pattern of [cleanText] is written in the source with
    the units U+00E2, U+20AC, U+00A6 between the brackets; U+20AC is above
    every unit of the model, hence the empty class. *)
Definition mojibake_ellipsis : re :=
  Chr "[" # Chr (Js.unit_of 226) # Cls [] # Chr (Js.unit_of 166) # Chr "]".

Definition cleanText (text : string) : string :=
  if negb (Js.truthy text) then "" else
  (* Strip HTML *)
  let clean := stripHtml text in
  (* Remove common RSS artifacts *)
  let clean := replace_all false mojibake_ellipsis "..." clean in
  let clean := replace_all false (lit "[...]") "..." clean in
  let clean := replace_first true (lit "Continue reading..." # Eol) "" clean in
  let clean := replace_first true (lit "Read more..." # Eol) "" clean in
  let clean := replace_all false (plus space) " " clean in
  Js.trim clean.

Definition mul := PrimFloat.mul.
Definition gt (x y : float) : bool := PrimFloat.ltb y x.
Definition le (x y : float) : bool := PrimFloat.leb x y.

Definition extractSummary (content : string) (maxLength : float) : string :=
  if negb (Js.truthy content) then "" else
  let clean := cleanText content in
  (* Try to break at sentence boundary *)
  if le (Js.num (Js.len clean)) maxLength then clean else
  (* Find last sentence boundary before maxLength *)
  let truncated := Js.slice0 clean (Js.toIntegerOrInfinity maxLength) in
  let lastPeriod := Js.lastIndexOf truncated "." in
  let lastQuestion := Js.lastIndexOf truncated "?" in
  let lastExclaim := Js.lastIndexOf truncated "!" in
  let boundary := Z.max (Z.max lastPeriod lastQuestion) lastExclaim in
  if gt (Js.num boundary) (mul maxLength Js.lit_0_5)
  then Js.slice0 clean (Js.Int (boundary + 1)) else
  (* Fall back to word boundary *)
  let lastSpace := Js.lastIndexOf truncated " " in
  if gt (Js.num lastSpace) (mul maxLength Js.lit_0_7)
  then Js.slice0 clean (Js.Int lastSpace) +:+ "..."
  else truncated +:+ "...".

(** The default of the parameter: [maxLength = 300]. *)
Definition extractSummary_default (content : string) : string :=
  extractSummary content (Js.num 300).

(* ================================================================== *)
(** * Time values and the date-time string format of the engine *)
(* ================================================================== *)

Module JsDate.

(** Days since 1970-01-01 of a day of the proleptic Gregorian calendar. *)
Definition days_from_civil (y m d : Z) : Z :=
  let y' := if m <=? 2 then y - 1 else y in
  let era := y' / 400 in
  let yoe := y' - era * 400 in
  let mp := (m + 9) mod 12 in
  let doy := (153 * mp + 2) / 5 + d - 1 in
  let doe := yoe * 365 + yoe / 4 - yoe / 100 + doy in
  era * 146097 + doe - 719468.

(** The year, month and day of a day number. *)
Definition civil_from_days (days : Z) : Z * Z * Z :=
  let z := days + 719468 in
  let era := z / 146097 in
  let doe := z - era * 146097 in
  let yoe := (doe - doe / 1460 + doe / 36524 - doe / 146096) / 365 in
  let doy := doe - (365 * yoe + yoe / 4 - yoe / 100) in
  let mp := (5 * doy + 2) / 153 in
  let d := doy - (153 * mp + 2) / 5 + 1 in
  let m := if mp <? 10 then mp + 3 else mp - 9 in
  let y := yoe + era * 400 in
  (if m <=? 2 then y + 1 else y, m, d).

Definition msPerDay : Z := 86400000.

Definition is_leap (y : Z) : bool :=
  ((y mod 4 =? 0) && negb (y mod 100 =? 0)) || (y mod 400 =? 0).

Definition days_in_month (y m : Z) : Z :=
  if m =? 2 then (if is_leap y then 29 else 28)
  else if (m =? 4) || (m =? 6) || (m =? 9) || (m =? 11) then 30
  else 31.

(** The time value of a UTC date and time whose fields are all in range. *)
Definition make_time (y mo d h mi s ms : Z) : option Z :=
  if (1 <=? mo) && (mo <=? 12) && (1 <=? d) && (d <=? days_in_month y mo)
     && (h <=? 23) && (mi <=? 59) && (s <=? 59)
  then Some ((((days_from_civil y mo d * 24 + h) * 60 + mi) * 60 + s) * 1000 + ms)
  else None.

Fixpoint digits_value (acc : Z) (s : string) : Z :=
  match s with
  | EmptyString => acc
  | String c s' => digits_value (acc * 10 + (Js.code c - 48)) s'
  end.

Import Regex.

Definition field (n : nat) (cs : list (nat * string)) : Z :=
  match capture n cs with
  | Some t => digits_value 0 t
  | None => 0
  end.

(** [YYYY-MM-DD], and [YYYY-MM-DDTHH:mm:ss] with optional [.sss], ending in [Z]. *)
Definition utc_format : re :=
  Bol # Group 1 (times 4 digit) # Chr "-" # Group 2 (times 2 digit) # Chr "-"
      # Group 3 (times 2 digit)
      # Opt (Chr "T" # Group 4 (times 2 digit) # Chr ":" # Group 5 (times 2 digit)
             # Chr ":" # Group 6 (times 2 digit)
             # Opt (Chr "." # Group 7 (times 3 digit)) # Chr "Z")
      # Eol.

(** The part of [Date.parse] every engine agrees on: a string in the UTC
    forms above with every field in range.  [None] leaves the string to the
    implementation-defined rest of [Date.parse]. *)
Definition parse_utc (s : string) : option Z :=
  match exec false utc_format s with
  | Some (_, _, e) =>
      let cs := caps e in
      make_time (field 1 cs) (field 2 cs) (field 3 cs)
                (field 4 cs) (field 5 cs) (field 6 cs) (field 7 cs)
  | None => None
  end.

(** The year of [toISOString]: four digits, or a sign and six. *)
Definition year_string (y : Z) : string :=
  if (0 <=? y) && (y <=? 9999) then Js.pad10 4 y ""
  else if y <? 0 then String "-" (Js.pad10 6 (- y) "")
  else String "+" (Js.pad10 6 y "").

(** [new Date(t).toISOString()] for a time value [t]. *)
Definition iso_string (t : Z) : string :=
  let days := t / msPerDay in
  let ms_of_day := t mod msPerDay in
  let '(y, mo, d) := civil_from_days days in
  year_string y +:+ "-" +:+ Js.pad10 2 mo "" +:+ "-" +:+ Js.pad10 2 d ""
    +:+ "T" +:+ Js.pad10 2 (ms_of_day / 3600000) ""
    +:+ ":" +:+ Js.pad10 2 (ms_of_day / 60000 mod 60) ""
    +:+ ":" +:+ Js.pad10 2 (ms_of_day / 1000 mod 60) ""
    +:+ "." +:+ Js.pad10 3 (ms_of_day mod 1000) "" +:+ "Z".

End JsDate.

(* ================================================================== *)
(** * The data model (types) *)
(* ================================================================== *)

Inductive NewsCategory : Type :=
| politics | tech | finance | gov | ai | intel | general.

Definition NewsCategory_eqb (a b : NewsCategory) : bool :=
  match a, b with
  | politics, politics | tech, tech | finance, finance | gov, gov
  | ai, ai | intel, intel | general, general => true
  | _, _ => false
  end.

Definition category_name (c : NewsCategory) : string :=
  match c with
  | politics => "politics" | tech => "tech" | finance => "finance"
  | gov => "gov" | ai => "ai" | intel => "intel" | general => "general"
  end.

(** [GdeltArticle]. *)
Module Gdelt.
Record Article : Type := mkArticle {
  title : string;
  url : string;
  seendate : string;
  domain : string;
  socialimage : option string;
  language : option string
}.
End Gdelt.

(** [NewsMetadata]: every property is optional; [others] holds the
    properties the interface does not name (the map is open). *)
Module Metadata.
Record t : Type := mk {
  category : option NewsCategory;
  is_alert : option bool;
  alert_keyword : option string;
  region : option string;
  domain : option string;
  image_url : option string;
  raw : option Gdelt.Article;
  others : list (string * string)
}.
Definition empty : t := mk None None None None None None None [].
End Metadata.

(** [NormalizedNewsItem]. *)
Module Item.
Record t : Type := mk {
  id : string;
  source : string;
  url : string;
  title : string;
  published_at : string;
  fetched_at : string;
  authors : list string;
  summary : string;
  content_text : string;
  tickers : list string;
  topics : list string;
  language : string;
  metadata : Metadata.t
}.
End Item.

(** [Partial<NormalizedNewsItem>]. *)
Module Partial.
Record t : Type := mk {
  id : option string;
  source : option string;
  url : option string;
  title : option string;
  published_at : option string;
  fetched_at : option string;
  authors : option (list string);
  summary : option string;
  content_text : option string;
  tickers : option (list string);
  topics : option (list string);
  language : option string;
  metadata : option Metadata.t
}.

(** A whole item read as a partial one. *)
Definition of_item (i : Item.t) : t :=
  mk (Some (Item.id i)) (Some (Item.source i)) (Some (Item.url i)) (Some (Item.title i))
     (Some (Item.published_at i)) (Some (Item.fetched_at i)) (Some (Item.authors i))
     (Some (Item.summary i)) (Some (Item.content_text i)) (Some (Item.tickers i))
     (Some (Item.topics i)) (Some (Item.language i)) (Some (Item.metadata i)).
End Partial.

(** [FilterConfig]. *)
Module Filter.
Record t : Type := mk {
  include_keywords : option (list string);
  exclude_keywords : option (list string);
  categories : option (list NewsCategory);
  regions : option (list string);
  topics : option (list string);
  max_age_ms : option Z
}.
Definition empty : t := mk None None None None None None.

(** [Object.keys(filter).length]. *)
Definition keys (c : t) : nat :=
  let count {A} (o : option A) : nat := match o with Some _ => 1%nat | None => 0%nat end in
  (count (include_keywords c) + count (exclude_keywords c) + count (categories c)
   + count (regions c) + count (topics c) + count (max_age_ms c))%nat.
End Filter.

Inductive Stage : Type :=
| stage_fetch | stage_parse | stage_filter | stage_dedup | stage_store.

(** [PipelineError]. *)
Record PipelineError : Type := mkPipelineError {
  stage : Stage;
  error_source : option string;
  message : string;
  timestamp : string
}.

Record Stats : Type := mkStats {
  fetched : Z;
  parsed : Z;
  filtered : Z;
  deduplicated : Z;
  duration_ms : Z
}.

(** [PipelineResult]. *)
Record PipelineResult : Type := mkPipelineResult {
  items : list Item.t;
  stats : Stats;
  errors : list PipelineError
}.

(* ================================================================== *)
(** * Effects: exceptions over the state of the host *)
(* ================================================================== *)

(** A thrown value.  Every [catch] of the source reads it as an [Error]
    ([(error as Error).message]). *)
Record Error : Type := mkError {
  error_name : string;
  error_message : string
}.

Inductive completion (A : Type) : Type :=
| Normal (a : A)
| Thrown (e : Error).
Arguments Normal {A} a.
Arguments Thrown {A} e.

(** [try { body } catch (e) { handler }] on a pure body. *)
Definition try_pure {A : Type} (body : completion A) (handler : Error -> A) : A :=
  match body with
  | Normal a => a
  | Thrown e => handler e
  end.

(** [new Date(x).toISOString()]: a [RangeError] on an invalid date. *)
Definition toISOString (time : option Z) : completion string :=
  match time with
  | Some t => Normal (JsDate.iso_string t)
  | None => Thrown (mkError "RangeError" "Invalid time value")
  end.

(** What a promise of the network settles to. *)
Inductive ArticlesField : Type :=
| ArticlesAbsent
| Articles (l : list Gdelt.Article).

Inductive Body : Type :=
| InvalidJson
| Json (articles : ArticlesField).

Record Response : Type := mkResponse {
  ok : bool;
  status : Z;
  statusText : string;
  content_type : option string;
  body : Body
}.

(** [GdeltConnectorOptions] after the defaults. *)
Record GdeltConnectorOptions : Type := mkGdeltOptions {
  maxRecords : Z;
  timespan : string;
  gdelt_language : string;
  corsProxy : string
}.

Definition GDELT_DEFAULT_OPTIONS : GdeltConnectorOptions :=
  mkGdeltOptions 20 "7d" "english" "".

Definition GDELT_QUERIES (c : NewsCategory) : string :=
  match c with
  | politics => "(politics OR government OR election OR congress)"
  | tech => "(technology OR software OR startup OR " +:+ String (Js.unit_of 34) "silicon valley"
              +:+ String (Js.unit_of 34) ")"
  | finance => "(finance OR " +:+ String (Js.unit_of 34) "stock market"
              +:+ String (Js.unit_of 34) " OR economy OR banking)"
  | gov => "(" +:+ String (Js.unit_of 34) "federal government" +:+ String (Js.unit_of 34) " OR "
              +:+ String (Js.unit_of 34) "white house" +:+ String (Js.unit_of 34)
              " OR congress OR regulation)"
  | ai => "(" +:+ String (Js.unit_of 34) "artificial intelligence" +:+ String (Js.unit_of 34) " OR "
              +:+ String (Js.unit_of 34) "machine learning" +:+ String (Js.unit_of 34)
              " OR AI OR ChatGPT)"
  | intel => "(intelligence OR security OR military OR defense)"
  | general => ""
  end.

(** The request [buildGdeltUrl] describes: the parameters of the query
    string, before their encoding. *)
Record GdeltRequest : Type := mkGdeltRequest {
  req_query : string;
  req_timespan : string;
  req_mode : string;
  req_maxrecords : Z;
  req_format : string;
  req_sort : string;
  req_proxy : string
}.

(* ================================================================== *)
(** * The pipeline over a host *)
(* ================================================================== *)

(** The state of everything outside the program, and what the program asks
    of it: the clock, the implementation-defined part of [Date.parse], the
    host name of a URL ([None] when [new URL] throws), timers, the network,
    the configured delay, the feed connector
    ([new RSSConnector({ corsProxies }).fetchAll(categories)] and
    [.fetchIntel()]: any computation that returns records or throws), and
    the sorting algorithm of [Array.prototype.sort].  That algorithm sees
    an array through [SortCompare] only: from the length and the comparison
    of any two positions it gives the positions in their final order.  The
    language leaves it to the engine where the comparator is not
    consistent, and only there is it consulted. *)
Class Host : Type := mkHost {
  World : Type;
  Date_now : World -> Z * World;
  hostDateParse : string -> option Z;
  URL_hostname : string -> option string;
  delay : Z -> World -> World;
  fetch : GdeltRequest -> World -> completion Response * World;
  delayBetweenRequests : Z;
  rss_fetchAll : list string -> list NewsCategory -> World -> completion (list Item.t) * World;
  rss_fetchIntel : list string -> World -> completion (list Item.t) * World;
  sort_order : nat -> (nat -> nat -> Z) -> list nat
}.

Section Pipeline.

Context {host : Host}.

(** ** Computations that may throw and change the host *)

Definition M (A : Type) : Type := World -> completion A * World.

Definition ret {A : Type} (a : A) : M A := fun w => (Normal a, w).

Definition throw {A : Type} (e : Error) : M A := fun w => (Thrown e, w).

Definition bind {A B : Type} (c : M A) (k : A -> M B) : M B :=
  fun w =>
    match c w with
    | (Normal a, w') => k a w'
    | (Thrown e, w') => (Thrown e, w')
    end.

Definition try_catch {A : Type} (body : M A) (handler : Error -> M A) : M A :=
  fun w =>
    match body w with
    | (Normal a, w') => (Normal a, w')
    | (Thrown e, w') => handler e w'
    end.

Definition lift {A : Type} (c : completion A) : M A := fun w => (c, w).

(** A computation that never throws. *)
Definition total {A : Type} (c : M A) : Prop :=
  forall w, exists a w', c w = (Normal a, w').

Notation "x <- c ;; k" := (bind c (fun x => k))
  (at level 100, c at next level, right associativity).
Notation "c ;;; k" := (bind c (fun _ => k))
  (at level 100, right associativity).

Fixpoint mapM {A B : Type} (f : A -> M B) (l : list A) : M (list B) :=
  match l with
  | [] => ret []
  | a :: l' => b <- f a ;; bs <- mapM f l' ;; ret (b :: bs)
  end.

Fixpoint filterM {A : Type} (f : A -> M bool) (l : list A) : M (list A) :=
  match l with
  | [] => ret []
  | a :: l' => keep <- f a ;; rest <- filterM f l' ;; ret (if keep then a :: rest else rest)
  end.

(** ** Dates (utils, parsers) *)

(** [Date.now()]. *)
Definition now : M Z := fun w => let (t, w') := Date_now w in (Normal t, w').

(** [new Date(s).getTime()]; [None] is [NaN]. *)
Definition Date_parse (s : string) : option Z :=
  match JsDate.parse_utc s with
  | Some t => Some t
  | None => hostDateParse s
  end.

(** [nowISO()], that is [new Date().toISOString()]. *)
Definition nowISO : M string := t <- now ;; ret (JsDate.iso_string t).

(** [match[n]] inside a template literal. *)
Definition group (n : nat) (cs : list (nat * string)) : string :=
  match capture n cs with
  | Some t => t
  | None => "undefined"
  end.

(** /^(\d{4})(\d{2})(\d{2})T(\d{2})(\d{2})(\d{2})Z$/ *)
Definition gdelt_date_format : re :=
  Bol # Group 1 (times 4 digit) # Group 2 (times 2 digit) # Group 3 (times 2 digit)
      # Chr "T" # Group 4 (times 2 digit) # Group 5 (times 2 digit)
      # Group 6 (times 2 digit) # Chr "Z" # Eol.

Definition iso_of_groups (cs : list (nat * string)) : string :=
  group 1 cs +:+ "-" +:+ group 2 cs +:+ "-" +:+ group 3 cs +:+ "T"
    +:+ group 4 cs +:+ ":" +:+ group 5 cs +:+ ":" +:+ group 6 cs +:+ "Z".

Definition parseGdeltDate (dateStr : string) : M string :=
  if negb (Js.truthy dateStr) then nowISO else
  match exec false gdelt_date_format dateStr with
  | Some (_, _, e) => ret (iso_of_groups (caps e))
  | None =>
      (* Try standard parsing *)
      try_catch (lift (toISOString (Date_parse dateStr))) (fun _ => nowISO)
  end.

Definition extractDomain (url : string) : string :=
  match URL_hostname url with
  | Some hostname => replace_first false (Bol # lit "www.") "" hostname
  | None => ""
  end.

(** The number of capture groups: [match.length] is one more. *)
Fixpoint group_count (r : re) : nat :=
  match r with
  | Seq r1 r2 | Alt r1 r2 => (group_count r1 + group_count r2)%nat
  | Star r' | Opt r' | Ahead r' => group_count r'
  | Group _ r' => S (group_count r')
  | _ => O
  end.

Definition date_formats : list re :=
  [ (* RFC 2822: /^[A-Za-z]{3},?\s+\d{1,2}\s+[A-Za-z]{3}\s+\d{4}\s+\d{2}:\d{2}:\d{2}/ *)
    Bol # times 3 Aza # Opt (Chr ",") # plus space # rep 1 2 digit # plus space
        # times 3 Aza # plus space # times 4 digit # plus space
        # times 2 digit # Chr ":" # times 2 digit # Chr ":" # times 2 digit;
    (* ISO: /^\d{4}-\d{2}-\d{2}T\d{2}:\d{2}:\d{2}/ *)
    Bol # times 4 digit # Chr "-" # times 2 digit # Chr "-" # times 2 digit # Chr "T"
        # times 2 digit # Chr ":" # times 2 digit # Chr ":" # times 2 digit;
    (* GDELT *)
    gdelt_date_format ].

(** The loop over the formats of [parseDate]: a [return] is [Some], falling
    out of the loop is [None]. *)
Fixpoint try_formats (dateStr : string) (formats : list re) : option string :=
  match formats with
  | [] => None
  | format :: more =>
      match exec false format dateStr with
      | Some (_, _, e) =>
          try_pure
            ((* GDELT format needs conversion *)
             if (S (group_count format) =? 7)%nat
             then match toISOString (Date_parse (iso_of_groups (caps e))) with
                  | Normal iso => Normal (Some iso)
                  | Thrown err => Thrown err
                  end
             else match toISOString (Date_parse dateStr) with
                  | Normal iso => Normal (Some iso)
                  | Thrown err => Thrown err
                  end)
            (fun _ => try_formats dateStr more)
      | None => try_formats dateStr more
      end
  end.

Definition parseDate (dateStr : option string) : M string :=
  match dateStr with
  | None => nowISO
  | Some dateStr =>
      if negb (Js.truthy dateStr) then nowISO else
      let first : option string :=
        try_pure
          (let date := Date_parse dateStr in
           match date with
           | Some _ => match toISOString date with
                       | Normal iso => Normal (Some iso)
                       | Thrown err => Thrown err
                       end
           | None => Normal None
           end)
          (fun _ => None) in
      match first with
      | Some iso => ret iso
      | None =>
          (* Try common formats *)
          match try_formats dateStr date_formats with
          | Some iso => ret iso
          | None => nowISO
          end
      end
  end.

(** ** normalizeItem (parsers) *)

Definition or_list {A : Type} (o : option (list A)) (d : list A) : list A :=
  match o with
  | Some ((_ :: _) as l) => l
  | _ => d
  end.

Definition or_now (o : option string) : M string :=
  match o with
  | Some s => if Js.truthy s then ret s else nowISO
  | None => nowISO
  end.

Definition clean_if_set (o : option string) : string :=
  match o with
  | Some s => if Js.truthy s then cleanText s else ""
  | None => ""
  end.

Definition normalizeItem (item : Partial.t) : M Item.t :=
  let title := cleanText (Js.or_else (Partial.title item) "") in
  let summary := clean_if_set (Partial.summary item) in
  let content := clean_if_set (Partial.content_text item) in
  (* Combine all text for analysis *)
  let fullText := title +:+ " " +:+ summary +:+ " " +:+ content in
  (* Extract/detect if not already set *)
  let topics := or_list (Partial.topics item) (detectTopics fullText) in
  let tickers := or_list (Partial.tickers item) (extractTickers fullText) in
  let md := match Partial.metadata item with Some md => md | None => Metadata.empty end in
  let region : option string :=
    match Metadata.region md with
    | Some r => if Js.truthy r then Some r else detectRegion fullText
    | None => detectRegion fullText
    end in
  let alert : Alert.t :=
    match Metadata.is_alert md with
    | Some b => Alert.mk b (Metadata.alert_keyword md)
    | None => containsAlertKeyword title
    end in
  let source :=
    match Partial.source item with
    | Some s => if Js.truthy s then s else extractDomain (Js.or_else (Partial.url item) "")
    | None => extractDomain (Js.or_else (Partial.url item) "")
    end in
  published_at <- or_now (Partial.published_at item) ;;
  fetched_at <- or_now (Partial.fetched_at item) ;;
  ret (Item.mk
         (Js.or_else (Partial.id item) "")
         source
         (Js.or_else (Partial.url item) "")
         title
         published_at
         fetched_at
         (match Partial.authors item with Some a => a | None => [] end)
         (if Js.truthy summary then summary else extractSummary_default content)
         content
         tickers
         topics
         (Js.or_else (Partial.language item) "en")
         (Metadata.mk (Metadata.category md) (Some (Alert.is_alert alert))
            (Alert.keyword alert) region (Metadata.domain md)
            (Metadata.image_url md) (Metadata.raw md) (Metadata.others md))).

(** [parseItems]. *)
Definition parseItems (items : list Partial.t) : M (list Item.t) :=
  mapM normalizeItem items.

(** ** The structured-API connector (connectors/gdelt) *)

Definition transformArticle (article : Gdelt.Article) (category : NewsCategory)
    (index : nat) : M Item.t :=
  let title := if Js.truthy (Gdelt.title article) then Gdelt.title article else "" in
  let alert := containsAlertKeyword title in
  let region := detectRegion title in
  let topics := detectTopics title in
  published_at <- parseGdeltDate (Gdelt.seendate article) ;;
  fetched_at <- nowISO ;;
  ret (Item.mk
         (generateId (Gdelt.url article) ("gdelt-" +:+ category_name category))
         (if Js.truthy (Gdelt.domain article) then Gdelt.domain article else "GDELT")
         (Gdelt.url article)
         title
         published_at
         fetched_at
         []
         ""
         ""
         []
         topics
         (Js.or_else (Gdelt.language article) "en")
         (Metadata.mk (Some category) (Some (Alert.is_alert alert)) (Alert.keyword alert)
            region (Some (Gdelt.domain article)) (Gdelt.socialimage article)
            (Some article) [])).

Definition buildGdeltUrl (category : NewsCategory) (options : GdeltConnectorOptions)
    : completion GdeltRequest :=
  let baseQuery := GDELT_QUERIES category in
  if negb (Js.truthy baseQuery)
  then Thrown (mkError "Error" ("Unknown category: " +:+ category_name category))
  else
    let fullQuery := baseQuery +:+ " sourcelang:" +:+ gdelt_language options in
    Normal (mkGdeltRequest fullQuery (timespan options) "artlist" (maxRecords options)
              "json" "date" (corsProxy options)).

Fixpoint transformAll (articles : list Gdelt.Article) (category : NewsCategory)
    (index : nat) : M (list Item.t) :=
  match articles with
  | [] => ret []
  | article :: more =>
      item <- transformArticle article category index ;;
      rest <- transformAll more category (S index) ;;
      ret (item :: rest)
  end.

Definition fetchGdeltCategory (category : NewsCategory) (opts : GdeltConnectorOptions)
    : M (list Item.t) :=
  url <- lift (buildGdeltUrl category opts) ;;
  try_catch
    (response <- fetch url ;;
     if negb (ok response)
     then throw (mkError "Error" ("HTTP " +:+ Js.toString10 (status response) +:+ ": "
                                   +:+ statusText response))
     else
       match content_type response with
       | Some contentType =>
           if Js.includes contentType "application/json" then
             match body response with
             | InvalidJson => ret []
             | Json ArticlesAbsent => ret []
             | Json (Articles articles) => transformAll articles category 0
             end
           else ret []
       | None => ret []
       end)
    (fun error => ret []).

Fixpoint fetchAllGdelt_from (i : nat) (categories : list NewsCategory)
    (options : GdeltConnectorOptions) (allItems : list Item.t) : M (list Item.t) :=
  match categories with
  | [] => ret allItems
  | category :: more =>
      (* Add delay between requests to avoid rate limiting *)
      (if (0 <? i)%nat then (fun w => (Normal tt, delay delayBetweenRequests w)) else ret tt) ;;;
      items <- fetchGdeltCategory category options ;;
      fetchAllGdelt_from (S i) more options (allItems ++ items)
  end.

Definition fetchAllGdelt (categories : list NewsCategory) (options : GdeltConnectorOptions)
    : M (list Item.t) :=
  fetchAllGdelt_from 0 categories options [].

(** ** Filter, deduplication, sort (pipeline) *)

(** [config.xs?.length]. *)
Definition has_length {A : Type} (o : option (list A)) : bool :=
  match o with
  | Some (_ :: _) => true
  | _ => false
  end.

Definition elements {A : Type} (o : option (list A)) : list A :=
  match o with
  | Some l => l
  | None => []
  end.

Definition contains_keyword (text : string) (keywords : list string) : bool :=
  existsb (fun k => Js.includes text (Js.toLowerCase k)) keywords.

(** The predicate [filterItems] hands to [Array.prototype.filter]. *)
Definition filter_predicate (config : Filter.t) (item : Item.t) : M bool :=
  (* Category filter *)
  if has_length (Filter.categories config)
     && match Metadata.category (Item.metadata item) with
        | Some c => negb (existsb (NewsCategory_eqb c) (elements (Filter.categories config)))
        | None => false
        end
  then ret false else
  (* Region filter *)
  if has_length (Filter.regions config)
     && match Metadata.region (Item.metadata item) with
        | Some r => Js.truthy r && negb (existsb (String.eqb r) (elements (Filter.regions config)))
        | None => false
        end
  then ret false else
  (* Topic filter *)
  if has_length (Filter.topics config)
     && negb (existsb (fun t => existsb (String.eqb t) (elements (Filter.topics config)))
                (Item.topics item))
  then ret false else
  let text := Js.toLowerCase (Item.title item +:+ " " +:+ Item.summary item) in
  (* Include keywords *)
  if has_length (Filter.include_keywords config)
     && negb (contains_keyword text (elements (Filter.include_keywords config)))
  then ret false else
  (* Exclude keywords *)
  if has_length (Filter.exclude_keywords config)
     && contains_keyword text (elements (Filter.exclude_keywords config))
  then ret false else
  (* Age filter *)
  match Filter.max_age_ms config with
  | Some max_age_ms =>
      if max_age_ms =? 0 then ret true else
      t <- now ;;
      match Date_parse (Item.published_at item) with
      | Some published => ret (negb (t - published >? max_age_ms))
      | None => ret true
      end
  | None => ret true
  end.

Definition filterItems (items : list Item.t) (config : Filter.t) : M (list Item.t) :=
  filterM (filter_predicate config) items.

(** The fingerprint of a title: [hashCode] of the lower-cased title without
    the units outside [a-z0-9]. *)
Definition normalizedTitle (title : string) : string :=
  replace_all false (NotCls [rng "a" "z"; rng "0" "9"]) "" (Js.toLowerCase title).

Definition titleHash (item : Item.t) : string := hashCode (normalizedTitle (Item.title item)).

(** [Map.prototype.has] and [set] on a map that remembers insertion order. *)
Definition map_has {V : Type} (m : list (string * V)) (k : string) : bool :=
  existsb (fun kv => String.eqb k (fst kv)) m.

Fixpoint map_set {V : Type} (m : list (string * V)) (k : string) (v : V) : list (string * V) :=
  match m with
  | [] => [(k, v)]
  | (k', v') :: m' => if String.eqb k k' then (k, v) :: m' else (k', v') :: map_set m' k v
  end.

Record DedupState : Type := mkDedup {
  seen : list (string * Item.t);
  titleHashes : gset string
}.

(** One turn of the loop of [deduplicateItems]. *)
Definition dedup_step (st : DedupState) (item : Item.t) : DedupState :=
  (* Skip if we've seen this exact ID *)
  if map_has (seen st) (Item.id item) then st else
  (* Check for similar titles *)
  if bool_decide (titleHash item ∈ titleHashes st) then st else
  mkDedup (map_set (seen st) (Item.id item) item) ({[ titleHash item ]} ∪ titleHashes st).

Definition deduplicateItems (items : list Item.t) : list Item.t :=
  map snd (seen (fold_left dedup_step items (mkDedup [] ∅))).

(** [new Date(item.published_at).getTime()]. *)
Definition getTime (item : Item.t) : option Z := Date_parse (Item.published_at item).

(** The comparator of [sortItems]: [dateB - dateA], [NaN] when either is. *)
Definition compare_dates (a b : Item.t) : option Z :=
  match getTime a, getTime b with
  | Some dateA, Some dateB => Some (dateB - dateA)
  | _, _ => None
  end.

(** What [Array.prototype.sort] makes of the comparator ([SortCompare]):
    [NaN] counts as +0.  The sort calls the comparator in no other way, so a
    comparator is judged by these values. *)
Definition sort_compare {A : Type} (comparefn : A -> A -> option Z) (x y : A) : Z :=
  match comparefn x y with
  | Some v => v
  | None => 0
  end.

(** The order the language fixes for a consistent comparator: sorted by the
    comparator, elements that compare equal in their input order.  Stable
    insertion computes it. *)
Fixpoint sort_insert {A : Type} (comparefn : A -> A -> option Z) (x : A) (sorted : list A) : list A :=
  match sorted with
  | [] => [x]
  | y :: more =>
      if sort_compare comparefn x y <=? 0 then x :: y :: more
      else y :: sort_insert comparefn x more
  end.

Fixpoint stable_sort {A : Type} (comparefn : A -> A -> option Z) (l : list A) : list A :=
  match l with
  | [] => []
  | x :: more => sort_insert comparefn x (stable_sort comparefn more)
  end.

(** A consistent comparator for the elements of [l], as the language defines
    it: [a = a]; [a = b] implies [b = a]; and each of [=], [<] and [>] is
    transitive. *)
Definition consistent_comparator {A : Type} (compare : A -> A -> Z) (l : list A) : bool :=
  forallb (fun a =>
    (compare a a =? 0)
    && forallb (fun b =>
         implb (compare a b =? 0) (compare b a =? 0)
         && forallb (fun c =>
              implb ((compare a b =? 0) && (compare b c =? 0)) (compare a c =? 0)
              && implb ((compare a b <? 0) && (compare b c <? 0)) (compare a c <? 0)
              && implb ((compare a b >? 0) && (compare b c >? 0)) (compare a c >? 0)) l) l) l.

(** The comparison of the elements at two positions. *)
Definition compare_positions {A : Type} (compare : A -> A -> Z) (l : list A) (i j : nat) : Z :=
  match nth_error l i, nth_error l j with
  | Some x, Some y => compare x y
  | _, _ => 0
  end.

(** The positions below [n] that [order] names, each at its first mention. *)
Fixpoint named_positions (n : nat) (order named : list nat) : list nat :=
  match order with
  | [] => []
  | i :: more =>
      if (i <? n)%nat && negb (existsb (Nat.eqb i) named)
      then i :: named_positions n more (i :: named)
      else named_positions n more named
  end.

(** The elements in the order of their positions in [order].  A sort moves
    elements and neither drops nor repeats one: a position [order] leaves
    out follows the named ones, in input order. *)
Definition reorder {A : Type} (order : list nat) (l : list A) : list A :=
  let named := named_positions (length l) order [] in
  let others := List.filter (fun i => negb (existsb (Nat.eqb i) named)) (seq 0 (length l)) in
  flat_map (fun i => match nth_error l i with Some x => [x] | None => [] end) (named ++ others).

(** [Array.prototype.sort].  With a consistent comparator the result is the
    order the language fixes.  Otherwise the sort order is
    implementation-defined: the elements are left as the sorting algorithm
    of the engine orders their positions. *)
Definition array_sort {A : Type} (comparefn : A -> A -> option Z) (l : list A) : list A :=
  if consistent_comparator (sort_compare comparefn) l then stable_sort comparefn l
  else reorder (sort_order (length l) (compare_positions (sort_compare comparefn) l)) l.

Definition sortItems (items : list Item.t) : list Item.t :=
  array_sort compare_dates items.

(** ** The orchestrator (pipeline) *)

(** [StorageAdapter]. *)
Record StorageAdapter : Type := mkStorage {
  save : list Item.t -> M unit;
  load : M (list Item.t);
  clear : M unit
}.

(** [PipelineOptions]: every property is optional; [None] is an absent
    property.  (A switch that is present with the value [undefined] replaces
    its default in the spread and is falsy: that call is [Some false].) *)
Record PipelineOptions : Type := mkOptions {
  opt_categories : option (list NewsCategory);
  opt_useGdelt : option bool;
  opt_useRss : option bool;
  opt_useIntel : option bool;
  opt_filter : option Filter.t;
  opt_storage : option StorageAdapter;
  opt_corsProxies : option (list string)
}.

(** [{ ...DEFAULT_OPTIONS, ...options }]. *)
Record ResolvedOptions : Type := mkResolved {
  categories : list NewsCategory;
  useGdelt : bool;
  useRss : bool;
  useIntel : bool;
  filter : Filter.t;
  storage : option StorageAdapter;
  corsProxies : list string
}.

Definition DEFAULT_OPTIONS : ResolvedOptions :=
  mkResolved [politics; tech; finance; gov; ai; intel] true true true Filter.empty None [].

Definition with_defaults (options : PipelineOptions) : ResolvedOptions :=
  let pick {A : Type} (o : option A) (d : A) : A :=
    match o with Some a => a | None => d end in
  mkResolved
    (pick (opt_categories options) (categories DEFAULT_OPTIONS))
    (pick (opt_useGdelt options) (useGdelt DEFAULT_OPTIONS))
    (pick (opt_useRss options) (useRss DEFAULT_OPTIONS))
    (pick (opt_useIntel options) (useIntel DEFAULT_OPTIONS))
    (pick (opt_filter options) (filter DEFAULT_OPTIONS))
    (opt_storage options)
    (pick (opt_corsProxies options) (corsProxies DEFAULT_OPTIONS)).

(** The object a [catch] of the orchestrator pushes. *)
Definition stage_error (stage : Stage) (source : option string) (error : Error) : M PipelineError :=
  timestamp <- nowISO ;;
  ret (mkPipelineError stage source (error_message error) timestamp).

(** One source family of the fetch stage:
    [if (enabled) { try { items = await fetchAll; allItems.push(...items) }
                    catch (error) { errors.push(...) } }]. *)
Definition fetch_family (enabled : bool) (source : string) (fetchAll : M (list Item.t))
    (acc : list Item.t * list PipelineError) : M (list Item.t * list PipelineError) :=
  if enabled then
    try_catch
      (items <- fetchAll ;; ret ((fst acc ++ items)%list, snd acc))
      (fun error =>
         e <- stage_error stage_fetch (Some source) error ;;
         ret (fst acc, (snd acc ++ [e])%list))
  else ret acc.

Definition gdelt_family (opts : ResolvedOptions) :=
  fetch_family (useGdelt opts) "GDELT" (fetchAllGdelt (categories opts) GDELT_DEFAULT_OPTIONS).

Definition rss_family (opts : ResolvedOptions) :=
  fetch_family (useRss opts) "RSS" (rss_fetchAll (corsProxies opts) (categories opts)).

Definition intel_family (opts : ResolvedOptions) :=
  fetch_family (useIntel opts) "Intel" (rss_fetchIntel (corsProxies opts)).

(** Stage 1: the three families in turn. *)
Definition fetch_stage (opts : ResolvedOptions) : M (list Item.t * list PipelineError) :=
  s <- gdelt_family opts ([], []) ;;
  s <- rss_family opts s ;;
  intel_family opts s.

(** Stage 2: [allItems.map(normalizeItem)]; the records, [stats.parsed] and
    the errors after it. *)
Definition parse_stage (allItems : list Item.t) (errors : list PipelineError)
    : M (list Item.t * Z * list PipelineError) :=
  try_catch
    (normalized <- mapM (fun item => normalizeItem (Partial.of_item item)) allItems ;;
     ret (normalized, Z.of_nat (length normalized), errors))
    (fun error =>
       e <- stage_error stage_parse None error ;;
       ret (allItems, 0, (errors ++ [e])%list)).

(** Stage 3: only for a filter with at least one key. *)
Definition filter_stage (opts : ResolvedOptions) (allItems : list Item.t)
    : M (list Item.t * Z) :=
  if (0 <? Filter.keys (filter opts))%nat then
    let beforeFilter := Z.of_nat (length allItems) in
    kept <- filterItems allItems (filter opts) ;;
    ret (kept, beforeFilter - Z.of_nat (length kept))
  else ret (allItems, 0).

(** Stage 5: only with a storage adapter. *)
Definition store_stage (opts : ResolvedOptions) (allItems : list Item.t)
    (errors : list PipelineError) : M (list PipelineError) :=
  match storage opts with
  | Some adapter =>
      try_catch
        (save adapter allItems ;;; ret errors)
        (fun error =>
           e <- stage_error stage_store None error ;;
           ret (errors ++ [e])%list)
  | None => ret errors
  end.

(** The run up to the store stage: the records, the counters and the errors
    so far ([duration_ms] is still 0). *)
Definition before_store (opts : ResolvedOptions)
    : M (list Item.t * Stats * list PipelineError) :=
  (* Stage 1: Fetch from sources *)
  s1 <- fetch_stage opts ;;
  let allItems := fst s1 in
  let errors := snd s1 in
  let fetched := Z.of_nat (length allItems) in
  (* Stage 2: Parse/normalize *)
  s2 <- parse_stage allItems errors ;;
  let allItems := fst (fst s2) in
  let parsed := snd (fst s2) in
  let errors := snd s2 in
  (* Stage 3: Filter *)
  s3 <- filter_stage opts allItems ;;
  let allItems := fst s3 in
  let filtered := snd s3 in
  (* Stage 4: Deduplicate *)
  let beforeDedup := Z.of_nat (length allItems) in
  let allItems := deduplicateItems allItems in
  let deduplicated := beforeDedup - Z.of_nat (length allItems) in
  (* Sort by date *)
  let allItems := sortItems allItems in
  ret (allItems, mkStats fetched parsed filtered deduplicated 0, errors).

Definition runPipeline (options : PipelineOptions) : M PipelineResult :=
  let opts := with_defaults options in
  startTime <- now ;;
  s <- before_store opts ;;
  let allItems := fst (fst s) in
  let stats := snd (fst s) in
  (* Stage 5: Store (if adapter provided) *)
  errors <- store_stage opts allItems (snd s) ;;
  endTime <- now ;;
  ret (mkPipelineResult allItems
         (mkStats (fetched stats) (parsed stats) (filtered stats) (deduplicated stats)
            (endTime - startTime))
         errors).

(** An error the run recorded for a stage: the message of what was thrown,
    with some timestamp. *)
Definition captured (stage : Stage) (source : option string) (e : Error)
    (result : PipelineResult) : Prop :=
  exists timestamp,
    In (mkPipelineError stage source (error_message e) timestamp) (errors result).

End Pipeline.

(* ================================================================== *)
(** * What the specification says, in its own words *)
(* ================================================================== *)

(** The position of the last unit of [s] that satisfies [p]; [-1] when none. *)
Fixpoint last_where_from (i : Z) (p : ascii -> bool) (s : string) (found : Z) : Z :=
  match s with
  | EmptyString => found
  | String c s' => last_where_from (i + 1) p s' (if p c then i else found)
  end.

Definition last_where (p : ascii -> bool) (s : string) : Z := last_where_from 0 p s (-1).

Definition is_terminator (c : ascii) : bool :=
  Ascii.eqb c "." || Ascii.eqb c "?" || Ascii.eqb c "!".

(** Summarize(text, maxLength) as section 4.3 words it. *)
Definition summarize_spec (text : string) (maxLength : float) : string :=
  let cleaned := cleanText text in
  if PrimFloat.leb (Js.num (Js.len cleaned)) maxLength then cleaned else
  let truncated := Js.slice0 cleaned (Js.toIntegerOrInfinity maxLength) in
  let terminator := last_where is_terminator truncated in
  if PrimFloat.ltb (PrimFloat.mul maxLength Js.lit_0_5) (Js.num terminator)
  then Js.slice0 cleaned (Js.Int (terminator + 1)) else
  let space := last_where (Ascii.eqb " ") truncated in
  if PrimFloat.ltb (PrimFloat.mul maxLength Js.lit_0_7) (Js.num space)
  then Js.slice0 cleaned (Js.Int space) +:+ "..."
  else truncated +:+ "...".

(** The title fingerprint as the specification words it: the title
    lower-cased, the characters that are not alphanumeric stripped, then
    hashed.  Alphanumeric is a letter A-Z or a-z or a digit. *)
Definition alphanumeric (c : ascii) : bool := Js.is_upper c || Js.is_lower c || Js.is_digit c.

Fixpoint strip_unless (keep : ascii -> bool) (s : string) : string :=
  match s with
  | EmptyString => EmptyString
  | String c s' => if keep c then String c (strip_unless keep s') else strip_unless keep s'
  end.

Definition normalized_title (title : string) : string :=
  strip_unless alphanumeric (Js.toLowerCase title).

Definition title_fingerprint (title : string) : string := hashCode (normalized_title title).

(** One record has the id or the title fingerprint of another. *)
Definition resembles (item other : Item.t) : Prop :=
  Item.id item = Item.id other
  \/ title_fingerprint (Item.title item) = title_fingerprint (Item.title other).

Definition resemblesb (item other : Item.t) : bool :=
  String.eqb (Item.id item) (Item.id other)
  || String.eqb (title_fingerprint (Item.title item)) (title_fingerprint (Item.title other)).

(** Deduplication under the reading that a record is dropped when its id or
    its fingerprint occurs anywhere earlier in the list, on a kept record or
    on a dropped one. *)
Fixpoint first_in_list (earlier items : list Item.t) : list Item.t :=
  match items with
  | [] => []
  | item :: more =>
      if existsb (resemblesb item) earlier then first_in_list (earlier ++ [item]) more
      else item :: first_in_list (earlier ++ [item]) more
  end.

(** A record duplicates a kept one: the same id or the same fingerprint. *)
Definition duplicates (item kept : Item.t) : bool :=
  String.eqb (Item.id item) (Item.id kept) || String.eqb (titleHash item) (titleHash kept).

(** Deduplication as section 4.5 words it: in input order, a record is
    dropped when its id or its fingerprint was seen, otherwise kept. *)
Fixpoint dedup_spec (kept : list Item.t) (items : list Item.t) : list Item.t :=
  match items with
  | [] => kept
  | item :: more =>
      if existsb (duplicates item) kept then dedup_spec kept more
      else dedup_spec (kept ++ [item]) more
  end.

(** The sort key section 4.6 asks for: the epoch for a date that does not parse. *)
Definition epoch_key {host : Host} (item : Item.t) : Z :=
  match getTime item with
  | Some t => t
  | None => 0
  end.

(** Newest first. *)
Definition newer_or_equal (key : Item.t -> Z) (a b : Item.t) : Prop := key b <= key a.

(** The polynomial of base 31 over the code units: the hash [hashCode]
    computes modulo 2^32. *)
Definition poly31 (codes : list Z) : Z := fold_left (fun h c => 31 * h + c) codes 0.

(** The category and region predicates of the filter, on their own. *)
Definition rejected_by_category (config : Filter.t) (item : Item.t) : bool :=
  match Filter.categories config, Metadata.category (Item.metadata item) with
  | Some (c0 :: cs), Some c => negb (existsb (NewsCategory_eqb c) (c0 :: cs))
  | _, _ => false
  end.

Definition rejected_by_region (config : Filter.t) (item : Item.t) : bool :=
  match Filter.regions config, Metadata.region (Item.metadata item) with
  | Some (r0 :: rs), Some r => Js.truthy r && negb (existsb (String.eqb r) (r0 :: rs))
  | _, _ => false
  end.

(* ================================================================== *)
(** * Hosts to run the pipeline on *)
(* ================================================================== *)

Module Sample.

(** The clock of the sample hosts: the state is the time, which advances a
    millisecond per reading from 2023-11-14T22:13:20Z. *)
Definition clock (w : Z) : Z * Z := (w, w + 1).
Definition start : Z := 1700000000000.

(** The sorting algorithm of the sample hosts, the one node's engine applies
    to an array shorter than 64 elements: the run the array starts with is
    found (and reversed when it descends strictly), then the other elements
    are inserted one by one at the place a binary search gives.  (A longer
    array the engine cuts into several runs that it merges; the sample
    hosts do not.) *)
Fixpoint run_length (compare : nat -> nat -> Z) (isDescending : bool) (previous : nat)
    (l : list nat) : nat :=
  match l with
  | [] => O
  | current :: more =>
      let order := compare current previous in
      if (if isDescending then order >=? 0 else order <? 0) then O
      else S (run_length compare isDescending current more)
  end.

Definition count_and_make_run (compare : nat -> nat -> Z) (l : list nat) : list nat * list nat :=
  match l with
  | elementHigh :: elementLow :: more =>
      let isDescending := compare elementLow elementHigh <? 0 in
      let runLength := S (S (run_length compare isDescending elementLow more)) in
      let run := firstn runLength l in
      (if isDescending then rev run else run, skipn runLength l)
  | _ => (l, [])
  end.

Fixpoint binary_search (fuel : nat) (compare : nat -> nat -> Z) (pivot : nat) (sorted : list nat)
    (left right : nat) : nat :=
  match fuel with
  | O => left
  | S fuel' =>
      if (left <? right)%nat then
        let mid := (left + (right - left) / 2)%nat in
        if compare pivot (nth mid sorted O) <? 0
        then binary_search fuel' compare pivot sorted left mid
        else binary_search fuel' compare pivot sorted (S mid) right
      else left
  end.

Definition binary_insert (compare : nat -> nat -> Z) (sorted : list nat) (pivot : nat) : list nat :=
  let left := binary_search (length sorted) compare pivot sorted O (length sorted) in
  (firstn left sorted ++ pivot :: skipn left sorted)%list.

Definition binary_insertion_sort (n : nat) (compare : nat -> nat -> Z) : list nat :=
  let (run, others) := count_and_make_run compare (seq 0 n) in
  fold_left (binary_insert compare) others run.

(** A host whose [Date.parse] knows the UTC forms only and whose network
    answers every request with [response]. *)
Definition host_answering (response : completion Response) : Host :=
  mkHost Z clock
    (fun _ => None)
    (fun _ => None)
    (fun _ w => w)
    (fun _ w => (response, w))
    500
    (fun _ _ w => (Normal [], w))
    (fun _ w => (Normal [], w))
    binary_insertion_sort.

Definition offline : Host :=
  host_answering (Thrown (mkError "TypeError" "fetch failed")).

(** A host like [offline] with another sorting algorithm: every element,
    from the last to the first, is put in front of the first element it
    does not sort after. *)
Definition offline_inserting : Host :=
  mkHost Z clock
    (fun _ => None)
    (fun _ => None)
    (fun _ w => w)
    (fun _ w => (Thrown (mkError "TypeError" "fetch failed"), w))
    500
    (fun _ _ w => (Normal [], w))
    (fun _ w => (Normal [], w))
    (fun n compare => stable_sort (fun i j => Some (compare i j)) (seq 0 n)).

Definition article (title url : string) : Gdelt.Article :=
  Gdelt.mkArticle title url "20240115T120000Z" "example.com" None None.

(** The response of the end-to-end example. *)
Definition two_articles : Response :=
  mkResponse true 200 "OK" (Some "application/json")
    (Json (Articles [ article "Cyber attack on military base" "https://example.com/a";
                      article "Routine earnings report" "https://example.com/b" ])).

Definition record (id title published_at : string) : Item.t :=
  Item.mk id "example.com" ("https://example.com/" +:+ id) title published_at
    "2024-01-15T12:00:00.000Z" [] "" "" [] [] "en" Metadata.empty.

(** An adapter whose [save] rejects. *)
Definition failing_storage {host : Host} : StorageAdapter :=
  mkStorage (fun _ => throw (mkError "Error" "disk full")) (ret []) (ret tt).

(** A host whose feed connector throws. *)
Definition feeds_down : Host :=
  mkHost Z clock
    (fun _ => None)
    (fun _ => None)
    (fun _ w => w)
    (fun _ w => (Normal two_articles, w))
    500
    (fun _ _ w => (Thrown (mkError "Error" "feed connector down"), w))
    (fun _ w => (Normal [], w))
    binary_insertion_sort.

End Sample.

(** The fetch and enrich stages of one category of the structured API:
    what [runPipeline] does to its records before the filter. *)
Definition fetch_and_enrich {host : Host} (category : NewsCategory) : M (list Item.t) :=
  bind (fetchGdeltCategory category GDELT_DEFAULT_OPTIONS)
       (fun items => mapM (fun item => normalizeItem (Partial.of_item item)) items).

(** The text the detectors of [normalizeItem] read. *)
Definition fullText_of (item : Partial.t) : string :=
  cleanText (Js.or_else (Partial.title item) "") +:+ " "
    +:+ clean_if_set (Partial.summary item) +:+ " "
    +:+ clean_if_set (Partial.content_text item).

Definition metadata_of (item : Partial.t) : Metadata.t :=
  match Partial.metadata item with
  | Some md => md
  | None => Metadata.empty
  end.

(** A filter configuration with one of its lists taken out. *)
Definition without_categories (config : Filter.t) : Filter.t :=
  Filter.mk (Filter.include_keywords config) (Filter.exclude_keywords config) None
    (Filter.regions config) (Filter.topics config) (Filter.max_age_ms config).

Definition without_regions (config : Filter.t) : Filter.t :=
  Filter.mk (Filter.include_keywords config) (Filter.exclude_keywords config)
    (Filter.categories config) None (Filter.topics config) (Filter.max_age_ms config).

(** The state of the loop stands for the list of the records kept so far. *)
Definition dedup_state_of (st : DedupState) (kept : list Item.t) : Prop :=
  seen st = map (fun item => (Item.id item, item)) kept
  /\ forall h, h ∈ titleHashes st <-> In h (map titleHash kept).

(** The comparator of a descending sort by [key]. *)
Definition descending {A : Type} (key : A -> Z) (a b : A) : option Z :=
  Some (key b - key a).


(* ================================================================== *)
(** * Vocabulary of the further properties *)
(* ================================================================== *)

(** Every unit of the string satisfies [p]. *)
Fixpoint all_units (p : ascii -> bool) (s : string) : bool :=
  match s with
  | EmptyString => true
  | String c s' => p c && all_units p s'
  end.

(** A digit of base 36. *)
Definition is_base36 (c : ascii) : bool := Js.is_digit c || Js.is_lower c.

(** A keyword of the list occurs in the text. *)
Definition occurs_in (lowerText : string) (keywords : list string) : bool :=
  existsb (fun k => Js.includes lowerText k) keywords.

(** ** The filter *)

(** The verdict of a configuration on a record, the age limit apart. *)
Definition passes (config : Filter.t) (item : Item.t) : bool :=
  let text := Js.toLowerCase (Item.title item +:+ " " +:+ Item.summary item) in
  negb (rejected_by_category config item)
  && negb (rejected_by_region config item)
  && negb (has_length (Filter.topics config)
           && negb (existsb (fun t => existsb (String.eqb t) (elements (Filter.topics config)))
                      (Item.topics item)))
  && negb (has_length (Filter.include_keywords config)
           && negb (contains_keyword text (elements (Filter.include_keywords config))))
  && negb (has_length (Filter.exclude_keywords config)
           && contains_keyword text (elements (Filter.exclude_keywords config))).

(** The age limit, the last test of the predicate. *)
Definition age_check {host : Host} (config : Filter.t) (item : Item.t) : M bool :=
  match Filter.max_age_ms config with
  | Some max_age_ms =>
      if max_age_ms =? 0 then ret true else
      bind now (fun t =>
        match Date_parse (Item.published_at item) with
        | Some published => ret (negb (t - published >? max_age_ms))
        | None => ret true
        end)
  | None => ret true
  end.

(** ** Records after enrichment *)

(** A record as enrichment leaves it: the alert flag is set and the
    language is not empty. *)
Definition enriched (r : Item.t) : Prop :=
  Metadata.is_alert (Item.metadata r) <> None /\ Item.language r <> "".

(* ================================================================== *)
(** * Truncation and feed dates (utils) *)
(* ================================================================== *)

(** [truncate(text, maxLength)] for an integer [maxLength]. *)
Definition truncate (text : string) (maxLength : Z) : string :=
  if negb (Js.truthy text) || (Js.len text <=? maxLength) then text
  else Js.slice0 text (Js.Int (maxLength - 3)) +:+ "...".

(** [parseRssDate]. *)
Definition parseRssDate {host : Host} (dateStr : string) : M string :=
  if negb (Js.truthy dateStr) then nowISO else
  try_catch (lift (toISOString (Date_parse dateStr))) (fun _ => nowISO).

(* ================================================================== *)
(** * The JSONL storage adapter (storage/jsonl) *)
(* ================================================================== *)

Module Jsonl.

Definition newline : ascii := Js.unit_of 10.

(** [lines.join(sep)]. *)
Fixpoint join (sep : string) (lines : list string) : string :=
  match lines with
  | [] => ""
  | [line] => line
  | line :: more => line +:+ sep +:+ join sep more
  end.

(** [s.split(sep)] for a separator of one unit. *)
Fixpoint split (sep : ascii) (s : string) : list string :=
  match s with
  | EmptyString => [""]
  | String c s' =>
      if Ascii.eqb c sep then "" :: split sep s'
      else match split sep s' with
           | piece :: more => String c piece :: more
           | [] => [String c ""]
           end
  end.

(** The file at [filePath]: [None] when it does not exist.  The calls of
    [fs] are taken to succeed. *)
Definition File : Type := option string.

(** [JsonlStorageOptions] after the defaults. *)
Record Options : Type := mkOptions {
  append : bool;
  pretty : bool
}.

Section Storage.

(** [JSON.stringify(item)], [JSON.stringify(item, null, 2)] and
    [JSON.parse(line)] ([None] when it throws) are the engine's; [Value] is
    whatever [JSON.parse] returns. *)
Variable Value : Type.
Variable stringify : Item.t -> string.
Variable stringify_pretty : Item.t -> string.
Variable parse : string -> option Value.

Definition save (options : Options) (items : list Item.t) (file : File) : File :=
  let lines := map (fun item => if pretty options then stringify_pretty item
                                else stringify item) items in
  let content := join (String newline "") lines +:+ String newline "" in
  if append options
  then Some (match file with Some old => old +:+ content | None => content end)
  else Some content.

(** The loop of [load]: a line [JSON.parse] rejects is skipped. *)
Fixpoint parse_lines (lines : list string) : list Value :=
  match lines with
  | [] => []
  | line :: more =>
      match parse line with
      | Some item => item :: parse_lines more
      | None => parse_lines more
      end
  end.

Definition load (file : File) : list Value :=
  match file with
  | None => []
  | Some content =>
      let lines := List.filter Js.truthy (split newline (Js.trim content)) in
      parse_lines lines
  end.

Definition clear (file : File) : File :=
  match file with
  | Some _ => None
  | None => None
  end.

End Storage.

(** The text of a file whose lines are [lines], each ended by a newline. *)
Fixpoint unlines (lines : list string) : string :=
  match lines with
  | [] => ""
  | line :: more => line +:+ String newline (unlines more)
  end.

Definition first_unit (s : string) : option ascii :=
  match s with
  | EmptyString => None
  | String c _ => Some c
  end.

Fixpoint last_unit (s : string) : option ascii :=
  match s with
  | EmptyString => None
  | String c EmptyString => Some c
  | String _ s' => last_unit s'
  end.

(** A line of text: no newline in it, no white space at either end, not
    empty (as the text of a JSON object is). *)
Definition is_line (l : string) : bool :=
  all_units (fun c => negb (Ascii.eqb c newline)) l
  && match first_unit l, last_unit l with
     | Some a, Some b => negb (Js.is_space a) && negb (Js.is_space b)
     | _, _ => false
     end.

End Jsonl.

(** A line of a file is blank or a line of text. *)
Definition blank_or_line (l : string) : Prop := l = "" \/ Jsonl.is_line l = true.

(** The lines from the first one that is not blank. *)
Fixpoint drop_blank (lines : list string) : list string :=
  match lines with
  | [] => []
  | l :: more => if Js.truthy l then lines else drop_blank more
  end.

(** Without the blank lines at the end. *)
Definition strip_end (lines : list string) : list string := rev (drop_blank (rev lines)).

(** ** White space *)

Definition starts_with_space (s : string) : bool :=
  match s with
  | String c _ => Js.is_space c
  | EmptyString => false
  end.

Definition ends_with_space (s : string) : bool :=
  match Jsonl.last_unit s with
  | Some c => Js.is_space c
  | None => false
  end.

(** Every white-space unit is a space with no white space after it. *)
Fixpoint single_spaced (s : string) : bool :=
  match s with
  | EmptyString => true
  | String c s' =>
      (if Js.is_space c then Ascii.eqb c " " && negb (starts_with_space s') else true)
      && single_spaced s'
  end.

(** Text with its white space normalised: single spaces between the words,
    none at either end. *)
Definition normalised (s : string) : bool :=
  single_spaced s && negb (starts_with_space s) && negb (ends_with_space s).

(** The loop of the greedy [\s*] with nothing after it. *)
Fixpoint space_loop (fuel : nat) (s0 : st) : option st :=
  match fuel with
  | O => Some s0
  | S fuel' =>
      match m false space s0 (fun s' => if progressed s0 s' then space_loop fuel' s' else None) with
      | Some e => Some e
      | None => Some s0
      end
  end.

(* ================================================================== *)
(** * Authors (parsers) *)
(* ================================================================== *)

(** [s.split(re)] for a pattern without capture groups: a match is tried at
    each position in turn; an empty match at the start of a piece is passed
    over. *)
Fixpoint split_loop (fuel : nat) (icase : bool) (r : re) (p : option ascii)
    (piece t : string) : list string :=
  match fuel with
  | O => [piece +:+ t]
  | S fuel' =>
      match t with
      | EmptyString => [piece]
      | String c t' =>
          match match_at icase r p t with
          | Some (_, e) =>
              if progressed (mkSt p t []) e
              then piece :: split_loop fuel' icase r (prev e) "" (rest e)
              else if Js.truthy piece
                   then piece :: split_loop fuel' icase r (Some c) (String c "") t'
                   else split_loop fuel' icase r (Some c) (String c "") t'
          | None => split_loop fuel' icase r (Some c) (piece +:+ String c "") t'
          end
      end
  end.

Definition regex_split (icase : bool) (r : re) (s : string) : list string :=
  match s with
  | EmptyString =>
      match match_at icase r None "" with
      | Some _ => []
      | None => [""]
      end
  | _ => split_loop (S (String.length s)) icase r None "" s
  end.

(** [string | string[]]. *)
Inductive AuthorField : Type :=
| AuthorString (s : string)
| AuthorArray (a : list string).

Definition parseAuthors (authorField : option AuthorField) : list string :=
  match authorField with
  | None => []
  | Some (AuthorArray a) => List.filter Js.truthy (map (fun a => cleanText a) a)
  | Some (AuthorString s) =>
      if negb (Js.truthy s) then [] else
      (* Handle common formats: "By John Doe", "John Doe and Jane Smith", etc. *)
      let text := cleanText s in
      (* Remove "By " prefix *)
      let text := replace_first true (Bol # lit "By" # plus space) "" text in
      (* Split on " and " or ", " *)
      let authors :=
        List.filter Js.truthy
          (map (fun a => Js.trim a)
             (regex_split true
                (Alt (plus space # lit "and" # plus space) (Chr "," # Star space)) text)) in
      authors
  end.

(* ================================================================== *)
(** * Fetching a feed through the proxies (connectors/rss) *)
(* ================================================================== *)

(** What [fetch] settles to for a feed: [response.ok], and what
    [response.text()] settles to. *)
Record FeedResponse : Type := mkFeedResponse {
  feed_ok : bool;
  feed_status : Z;
  feed_text : completion string
}.

(** The network of the feeds.  The request goes to [url] for the empty
    proxy, and to [proxy + encodeURIComponent(url)] otherwise. *)
Class FeedNetwork (host : Host) : Type := mkFeedNetwork {
  feed_fetch : string -> string -> World -> completion FeedResponse * World
}.

Section Feeds.

Context {host : Host} {network : FeedNetwork host}.

(** One turn of the loop of [fetchWithProxy]: the text, or [None] when the
    loop goes on with the next proxy. *)
Definition try_proxy (url proxy : string) : M (option string) :=
  try_catch
    (bind (feed_fetch proxy url) (fun response =>
       if negb (feed_ok response) then ret None else
       bind (lift (feed_text response)) (fun text =>
         (* Validate it's XML *)
         if negb (Js.includes text "<") || Js.includes text "<!DOCTYPE html>"
         then ret None
         else ret (Some text))))
    (fun error => ret None).

Fixpoint try_proxies (url : string) (proxies : list string) : M (option string) :=
  match proxies with
  | [] => ret None
  | proxy :: more =>
      bind (try_proxy url proxy) (fun found =>
        match found with
        | Some text => ret (Some text)
        | None => try_proxies url more
        end)
  end.

Definition fetchWithProxy (url : string) (corsProxies : list string) : M (option string) :=
  let proxies := if (0 <? length corsProxies)%nat then corsProxies else [""] in
  try_proxies url proxies.

(** A response the loop of [fetchWithProxy] returns the text of. *)
Definition usable (response : FeedResponse) (text : string) : Prop :=
  feed_ok response = true /\ feed_text response = Normal text
  /\ Js.includes text "<" = true /\ Js.includes text "<!DOCTYPE html>" = false.

End Feeds.

(** ** Timestamps *)

(** The first instant after the year 9999. *)
Definition year_10000 : Z := 253402300800000.

(** ** A codec and a network to run the adapters on *)

Module SampleStore.

(** A codec that writes a record as its id between braces, and reads back
    every text that opens with a brace. *)
Definition stringify (item : Item.t) : string := "{" +:+ Item.id item +:+ "}".

Definition parse (line : string) : option string :=
  if Js.starts_with "{" line then Some line else None.

(** A network on which the first proxy is down and every other request is
    answered with a feed. *)
Definition feed : string := "<rss><channel></channel></rss>".

Definition network : FeedNetwork Sample.offline :=
  mkFeedNetwork Sample.offline
    (fun proxy _ w =>
       if String.eqb proxy "https://down.example/?"
       then (Thrown (mkError "TypeError" "fetch failed"), w)
       else (Normal (mkFeedResponse true 200 (Normal feed)), w)).

End SampleStore.

(* ================================================================== *)
(** * Properties *)
(* ================================================================== *)

(** ** Concatenation *)

Lemma append_nil (s : string) : "" +:+ s = s.
Proof. reflexivity. Qed.

Lemma append_cons (c : ascii) (a b : string) : String c a +:+ b = String c (a +:+ b).
Proof. reflexivity. Qed.

Lemma append_length (a b : string) :
  String.length (a +:+ b) = (String.length a + String.length b)%nat.
Proof.
  induction a as [|c a IH]; [reflexivity|]. rewrite append_cons. cbn. now rewrite IH.
Qed.

Lemma append_nil_r (s : string) : s +:+ "" = s.
Proof. induction s as [|c s IH]; [reflexivity|]. rewrite append_cons. now rewrite IH. Qed.

Lemma drop_units_append (a b : string) : Js.drop_units (String.length a) (a +:+ b) = b.
Proof. induction a as [|c a IH]; [now destruct b | exact IH]. Qed.

(** ** 32-bit arithmetic and the identity hash *)

Lemma to_int32_spec (a : Z) : exists k, Js.to_int32 a = a + k * 2 ^ 32.
Proof.
  exists (- ((a + 2 ^ 31) / 2 ^ 32)).
  unfold Js.to_int32.
  rewrite Z.mod_eq by lia. lia.
Qed.

Lemma to_int32_add_mul (a k : Z) : Js.to_int32 (a + k * 2 ^ 32) = Js.to_int32 a.
Proof.
  unfold Js.to_int32.
  replace (a + k * 2 ^ 32 + 2 ^ 31) with (a + 2 ^ 31 + k * 2 ^ 32) by lia.
  now rewrite Z_mod_plus_full.
Qed.

Lemma to_int32_range (a : Z) : - 2 ^ 31 <= Js.to_int32 a < 2 ^ 31.
Proof.
  unfold Js.to_int32.
  pose proof (Z.mod_pos_bound (a + 2 ^ 31) (2 ^ 32) ltac:(lia)). lia.
Qed.

Lemma to_int32_idem (a : Z) : Js.to_int32 (Js.to_int32 a) = Js.to_int32 a.
Proof.
  destruct (to_int32_spec a) as [k Hk].
  transitivity (Js.to_int32 (a + k * 2 ^ 32)); [now rewrite Hk | apply to_int32_add_mul].
Qed.

Lemma hashCode_step_poly (h c : Z) :
  hashCode_step (Js.to_int32 h) c = Js.to_int32 (31 * h + c).
Proof.
  unfold hashCode_step, Js.and32, Js.shl32.
  rewrite Z.land_diag, to_int32_idem, Z.shiftl_mul_pow2 by lia.
  destruct (to_int32_spec h) as [k Hk].
  destruct (to_int32_spec (Js.to_int32 h * 2 ^ 5)) as [k' Hk'].
  rewrite Hk', Hk.
  replace ((h + k * 2 ^ 32) * 2 ^ 5 + k' * 2 ^ 32 - (h + k * 2 ^ 32) + c)
    with (31 * h + c + (31 * k + k') * 2 ^ 32) by lia.
  apply to_int32_add_mul.
Qed.

Lemma fold_left_step {A B : Type} (f : A -> B -> A) (b : B) (l : list B) (a : A) :
  fold_left f (b :: l) a = fold_left f l (f a b).
Proof. reflexivity. Qed.

Lemma fold_hashCode_step (codes : list Z) (h : Z) :
  fold_left hashCode_step codes (Js.to_int32 h)
  = Js.to_int32 (fold_left (fun h c => 31 * h + c) codes h).
Proof.
  revert h. induction codes as [|c codes IH]; intros h.
  - reflexivity.
  - rewrite !fold_left_step, hashCode_step_poly. apply IH.
Qed.

(** The loop computes the base-31 polynomial of the code units, wrapped to
    32 bits: the hash any implementation of the same scheme computes. *)
Lemma hashCode_int_poly (str : string) :
  hashCode_int str = Js.to_int32 (poly31 (Js.charCodes str)).
Proof.
  unfold hashCode_int, poly31.
  change 0 with (Js.to_int32 0) at 1.
  apply fold_hashCode_step.
Qed.

Lemma hashCode_int_range (str : string) : - 2 ^ 31 <= hashCode_int str < 2 ^ 31.
Proof. rewrite hashCode_int_poly. apply to_int32_range. Qed.

(** C4.  The identifier is a function of the pair alone: two evaluations of
    [generateId] on equal URLs and equal sources return the same string,
    which is the base-36 hash of the source, a dash, and the base-36 hash of
    the URL, each hash being the 32-bit wrap of the base-31 polynomial of the
    code units (no clock, no host and no earlier call enters it). *)
Theorem generateId_deterministic (url1 source1 url2 source2 : string) :
  url1 = url2 -> source1 = source2 ->
  generateId url1 source1 = generateId url2 source2
  /\ generateId url1 source1
     = Js.toString36 (Z.abs (Js.to_int32 (poly31 (Js.charCodes source2))))
       +:+ "-" +:+ Js.toString36 (Z.abs (Js.to_int32 (poly31 (Js.charCodes url2)))).
Proof.
  intros -> ->. split; [reflexivity|].
  unfold generateId, hashCode. now rewrite !hashCode_int_poly.
Qed.

(** ** Computations over the host *)

Section HostFacts.

Context {host : Host}.


Lemma bind_run {A B : Type} (c : M A) (k : A -> M B) (w w' : World) (a : A) :
  c w = (Normal a, w') -> bind c k w = k a w'.
Proof. unfold bind. now intros ->. Qed.

Lemma bind_thrown {A B : Type} (c : M A) (k : A -> M B) (w w' : World) (e : Error) :
  c w = (Thrown e, w') -> bind c k w = (Thrown e, w').
Proof. unfold bind. now intros ->. Qed.

Lemma total_ret {A : Type} (a : A) : total (ret a).
Proof. intros w. now exists a, w. Qed.

Lemma total_bind {A B : Type} (c : M A) (k : A -> M B) :
  total c -> (forall a, total (k a)) -> total (bind c k).
Proof.
  intros Hc Hk w. destruct (Hc w) as (a & w' & Ha).
  rewrite (bind_run _ _ _ _ _ Ha). apply Hk.
Qed.

Lemma total_try_catch {A : Type} (body : M A) (handler : Error -> M A) :
  (forall e, total (handler e)) -> total (try_catch body handler).
Proof.
  intros Hh w. unfold try_catch.
  destruct (body w) as [[a|e] w'].
  - now exists a, w'.
  - apply Hh.
Qed.

Lemma total_now : total now.
Proof.
  intros w. unfold now. destruct (Date_now w) as [t w']. now exists t, w'.
Qed.

Lemma total_nowISO : total nowISO.
Proof. apply total_bind; [apply total_now | intros; apply total_ret]. Qed.

Lemma total_mapM {A B : Type} (f : A -> M B) (l : list A) :
  (forall a, total (f a)) -> total (mapM f l).
Proof.
  intros Hf. induction l as [|a l IH]; simpl.
  - apply total_ret.
  - apply total_bind; [apply Hf|]. intros b.
    apply total_bind; [apply IH|]. intros bs. apply total_ret.
Qed.

Lemma total_filterM {A : Type} (f : A -> M bool) (l : list A) :
  (forall a, total (f a)) -> total (filterM f l).
Proof.
  intros Hf. induction l as [|a l IH]; simpl.
  - apply total_ret.
  - apply total_bind; [apply Hf|]. intros b.
    apply total_bind; [apply IH|]. intros bs. apply total_ret.
Qed.

End HostFacts.

Create HintDb totality.
#[global] Hint Resolve total_ret total_now total_nowISO : totality.
#[global] Hint Extern 2 (total (bind _ _)) => apply total_bind; [|intros] : totality.
#[global] Hint Extern 2 (total (try_catch _ _)) => apply total_try_catch; intros : totality.

Lemma total_parseGdeltDate {host : Host} (dateStr : string) : total (parseGdeltDate dateStr).
Proof.
  unfold parseGdeltDate.
  destruct (negb (Js.truthy dateStr)); [auto with totality|].
  destruct (exec false gdelt_date_format dateStr) as [[[sk mt] e]|]; auto with totality.
Qed.

(** ** Summaries *)

Lemma lastIndexOf_from_where (c : ascii) (s : string) (i found : Z) :
  Js.lastIndexOf_from i c s found = last_where_from i (Ascii.eqb c) s found.
Proof.
  revert i found. induction s as [|d s IH]; intros i found; simpl.
  - reflexivity.
  - apply IH.
Qed.

(** The greatest of the last period, question mark and exclamation mark is
    the last sentence terminator. *)
Lemma max_last_terminator (s : string) (i f1 f2 f3 : Z) :
  f1 < i -> f2 < i -> f3 < i ->
  Z.max (Z.max (Js.lastIndexOf_from i "." s f1) (Js.lastIndexOf_from i "?" s f2))
        (Js.lastIndexOf_from i "!" s f3)
  = last_where_from i is_terminator s (Z.max (Z.max f1 f2) f3).
Proof.
  revert i f1 f2 f3. induction s as [|c s IH]; intros i f1 f2 f3 H1 H2 H3;
    cbn [Js.lastIndexOf_from last_where_from].
  - reflexivity.
  - rewrite IH.
    + f_equal. unfold is_terminator.
      rewrite (Ascii.eqb_sym c "."), (Ascii.eqb_sym c "?"), (Ascii.eqb_sym c "!").
      destruct (Ascii.eqb "." c) eqn:E1, (Ascii.eqb "?" c) eqn:E2,
               (Ascii.eqb "!" c) eqn:E3; cbn [orb]; try lia;
        try (apply Ascii.eqb_eq in E1; subst c; discriminate);
        try (apply Ascii.eqb_eq in E2; subst c; discriminate).
    + destruct (Ascii.eqb "." c); lia.
    + destruct (Ascii.eqb "?" c); lia.
    + destruct (Ascii.eqb "!" c); lia.
Qed.

Lemma boundary_is_last_terminator (s : string) :
  Z.max (Z.max (Js.lastIndexOf s ".") (Js.lastIndexOf s "?")) (Js.lastIndexOf s "!")
  = last_where is_terminator s.
Proof.
  unfold Js.lastIndexOf, last_where. now rewrite max_last_terminator by lia.
Qed.

(** C6.  For every text and [maxLength] (a length: only the empty text with a
    negative or NaN [maxLength] is left out), the summary is what section 4.3
    describes: the cleaned text itself when it is no longer than
    [maxLength]; otherwise the cleaned text cut after the last sentence
    terminator of its first [maxLength] units when that position exceeds
    [maxLength * 0.5], else cut at the last space of them, with an ellipsis,
    when that position exceeds [maxLength * 0.7], else those first
    [maxLength] units with an ellipsis.  The example of section 8 evaluates
    to its first two sentences. *)
Theorem extractSummary_summarize (text : string) (maxLength : float) :
  text <> "" \/ PrimFloat.leb 0%float maxLength = true ->
  extractSummary text maxLength = summarize_spec text maxLength
  /\ extractSummary "First sentence. Second sentence. Third sentence is very long..."
       (Js.num 50)
     = "First sentence. Second sentence.".
Proof.
  intros Hdomain. split; [|vm_compute; reflexivity].
  unfold extractSummary, summarize_spec, le, gt, mul.
  destruct (Js.truthy text) eqn:Htext; simpl.
  - rewrite boundary_is_last_terminator.
    unfold Js.lastIndexOf, last_where. now rewrite lastIndexOf_from_where.
  - unfold Js.truthy in Htext. apply negb_false_iff, String.eqb_eq in Htext. subst text.
    destruct Hdomain as [Hne | Hpos]; [contradiction|].
    change (cleanText "") with "". change (Js.num (Js.len "")) with 0%float.
    now rewrite Hpos.
Qed.

(** The product [maxLength * 0.7] is the binary64 one: at 90 it is below 63,
    so a last space at position 63 is far enough. *)
Example extractSummary_rounding :
  PrimFloat.ltb (PrimFloat.mul (Js.num 90) Js.lit_0_7) (Js.num 63) = true.
Proof. vm_compute. reflexivity. Qed.

(** ** Tickers *)

(** C7.  The second pattern carries the [i] flag, so its class [A-Z] also
    matches lower-case letters: the bare-token family reports words that
    are not upper-case in the input, "Apple" before "Inc" in the sentence of
    the connector test, "apple" and "the" before "stock" and "shares". *)
Theorem extractTickers_lowercase_token :
  extractTickers "Apple Inc (AAPL stock) and Google lead gains. Bitcoin BTC also up."
  = ["APPLE"; "AAPL"; "BTC"]
  /\ extractTickers "apple stock rises as the shares of $MSFT fall"
     = ["MSFT"; "APPLE"; "THE"].
Proof. vm_compute. split; reflexivity. Qed.

Example extractTickers_families :
  extractTickers "Buy $AAPL, AAPL shares and MSFT Corp; btc and BTC rally"
  = ["AAPL"; "MSFT"; "BTC"].
Proof. vm_compute. reflexivity. Qed.

(** ** Enrichment *)

Section Enrichment.

Context {host : Host}.

Lemma total_or_now (o : option string) : total (or_now o).
Proof.
  destruct o as [s|]; simpl; [|auto with totality].
  destruct (Js.truthy s); auto with totality.
Qed.

(** [normalizeItem] never throws, and these are the fields it derives. *)
Lemma normalizeItem_fields (item : Partial.t) (w : World) :
  exists out w',
    normalizeItem item w = (Normal out, w')
    /\ Item.title out = cleanText (Js.or_else (Partial.title item) "")
    /\ Item.topics out = or_list (Partial.topics item) (detectTopics (fullText_of item))
    /\ Item.tickers out = or_list (Partial.tickers item) (extractTickers (fullText_of item))
    /\ Metadata.region (Item.metadata out)
       = match Metadata.region (metadata_of item) with
         | Some r => if Js.truthy r then Some r else detectRegion (fullText_of item)
         | None => detectRegion (fullText_of item)
         end
    /\ Metadata.is_alert (Item.metadata out)
       = Some (match Metadata.is_alert (metadata_of item) with
               | Some b => b
               | None => Alert.is_alert (containsAlertKeyword (Item.title out))
               end)
    /\ Metadata.alert_keyword (Item.metadata out)
       = match Metadata.is_alert (metadata_of item) with
         | Some _ => Metadata.alert_keyword (metadata_of item)
         | None => Alert.keyword (containsAlertKeyword (Item.title out))
         end.
Proof.
  unfold normalizeItem.
  destruct (total_or_now (Partial.published_at item) w) as (p & w1 & Hp).
  destruct (total_or_now (Partial.fetched_at item) w1) as (f & w2 & Hf).
  rewrite (bind_run _ _ _ _ _ Hp), (bind_run _ _ _ _ _ Hf).
  eexists _, w2. split; [reflexivity|].
  cbn [Item.title Item.topics Item.tickers Item.metadata Metadata.region
       Metadata.is_alert Metadata.alert_keyword].
  fold (metadata_of item). fold (fullText_of item).
  repeat split; destruct (Metadata.is_alert (metadata_of item)); reflexivity.
Qed.

Lemma total_normalizeItem (item : Partial.t) : total (normalizeItem item).
Proof.
  intros w. destruct (normalizeItem_fields item w) as (out & w' & H & _).
  now exists out, w'.
Qed.

(** What [transformArticle] derives from the title. *)
Lemma transformArticle_fields (article : Gdelt.Article) (category : NewsCategory)
    (index : nat) (w : World) :
  exists out w',
    transformArticle article category index w = (Normal out, w')
    /\ Item.id out = generateId (Gdelt.url article) ("gdelt-" +:+ category_name category)
    /\ Item.title out = (if Js.truthy (Gdelt.title article) then Gdelt.title article else "")
    /\ Item.summary out = ""
    /\ Item.content_text out = ""
    /\ Item.tickers out = []
    /\ Item.topics out = detectTopics (Item.title out)
    /\ Metadata.is_alert (Item.metadata out)
       = Some (Alert.is_alert (containsAlertKeyword (Item.title out)))
    /\ Metadata.alert_keyword (Item.metadata out)
       = Alert.keyword (containsAlertKeyword (Item.title out))
    /\ Metadata.region (Item.metadata out) = detectRegion (Item.title out).
Proof.
  unfold transformArticle.
  destruct (total_parseGdeltDate (Gdelt.seendate article) w) as (p & w1 & Hp).
  destruct (total_nowISO w1) as (f & w2 & Hf).
  rewrite (bind_run _ _ _ _ _ Hp), (bind_run _ _ _ _ _ Hf).
  eexists _, w2. split; [reflexivity|]. repeat split.
Qed.

End Enrichment.

Section EndToEnd.

Context {host : Host}.

Lemma transformAll_two (a1 a2 : Gdelt.Article) (category : NewsCategory) (w : World) :
  exists r1 r2 w1 w2,
    transformArticle a1 category 0 w = (Normal r1, w1)
    /\ transformArticle a2 category 1 w1 = (Normal r2, w2)
    /\ transformAll [a1; a2] category 0 w = (Normal [r1; r2], w2).
Proof.
  destruct (transformArticle_fields a1 category 0 w) as (r1 & w1 & H1 & _).
  destruct (transformArticle_fields a2 category 1 w1) as (r2 & w2 & H2 & _).
  exists r1, r2, w1, w2. repeat split; try assumption.
  cbn [transformAll]. rewrite (bind_run _ _ _ _ _ H1).
  unfold bind, ret. now rewrite H2.
Qed.

(** C1, as the code has it.  For a response of the structured API with the
    two articles "Cyber attack on military base" and "Routine earnings
    report", after enrichment the topics of the first record are CYBER,
    CONFLICT and DEFENSE (so they include CYBER and DEFENSE), and its
    [metadata.is_alert] is true with the keyword "military" (the title holds
    the alert keywords "military" and "attack"); the second record has no
    topic and is no alert. *)
Theorem gdelt_enrichment_example (category : NewsCategory) (a1 a2 : Gdelt.Article)
    (request : GdeltRequest) (response : Response) (contentType : string)
    (w w1 : World) :
  buildGdeltUrl category GDELT_DEFAULT_OPTIONS = Normal request ->
  fetch request w = (Normal response, w1) ->
  ok response = true ->
  content_type response = Some contentType ->
  Js.includes contentType "application/json" = true ->
  body response = Json (Articles [a1; a2]) ->
  Gdelt.title a1 = "Cyber attack on military base" ->
  Gdelt.title a2 = "Routine earnings report" ->
  exists r1 r2 w',
    fetch_and_enrich category w = (Normal [r1; r2], w')
    /\ Item.topics r1 = ["CYBER"; "CONFLICT"; "DEFENSE"]
    /\ Metadata.is_alert (Item.metadata r1) = Some true
    /\ Metadata.alert_keyword (Item.metadata r1) = Some "military"
    /\ Item.topics r2 = []
    /\ Metadata.is_alert (Item.metadata r2) = Some false.
Proof.
  intros Hurl Hfetch Hok Hct Hjson Hbody Ht1 Ht2.
  destruct (transformArticle_fields a1 category 0 w1)
    as (t1 & w2 & H1 & _ & Htitle1 & Hsum1 & Hcon1 & _ & Htop1 & Hal1 & Hkw1 & _).
  destruct (transformArticle_fields a2 category 1 w2)
    as (t2 & w3 & H2 & _ & Htitle2 & Hsum2 & Hcon2 & _ & Htop2 & Hal2 & Hkw2 & _).
  rewrite Ht1 in Htitle1. rewrite Ht2 in Htitle2. cbn in Htitle1, Htitle2.
  rewrite Htitle1 in Htop1, Hal1, Hkw1. rewrite Htitle2 in Htop2, Hal2, Hkw2.
  destruct (normalizeItem_fields (Partial.of_item t1) w3)
    as (r1 & w4 & Hn1 & _ & Hrtop1 & _ & _ & Hral1 & Hrkw1).
  destruct (normalizeItem_fields (Partial.of_item t2) w4)
    as (r2 & w5 & Hn2 & _ & Hrtop2 & _ & _ & Hral2 & _).
  exists r1, r2, w5. split.
  - unfold fetch_and_enrich, fetchGdeltCategory.
    rewrite Hurl.
    assert (Hfetched :
      try_catch
        (bind (fetch request) (fun response0 =>
           if negb (ok response0)
           then throw (mkError "Error" ("HTTP " +:+ Js.toString10 (status response0) +:+ ": "
                                          +:+ statusText response0))
           else match content_type response0 with
                | Some contentType0 =>
                    if Js.includes contentType0 "application/json" then
                      match body response0 with
                      | InvalidJson => ret []
                      | Json ArticlesAbsent => ret []
                      | Json (Articles articles) => transformAll articles category 0
                      end
                    else ret []
                | None => ret []
                end))
        (fun _ => ret []) w = (Normal [t1; t2], w3)).
    { unfold try_catch. rewrite (bind_run _ _ _ _ _ Hfetch).
      rewrite Hok, Hct, Hjson, Hbody. cbn [negb].
      destruct (transformAll_two a1 a2 category w1) as (t1' & t2' & w2' & w3' & H1' & H2' & Hall).
      rewrite H1 in H1'. injection H1' as <- <-.
      rewrite H2 in H2'. injection H2' as <- <-.
      now rewrite Hall. }
    unfold bind at 1. unfold bind at 1. unfold lift.
    rewrite Hfetched. cbn [mapM].
    rewrite (bind_run _ _ _ _ _ Hn1). unfold bind, ret. now rewrite Hn2.
  - unfold metadata_of in *. cbn [Partial.of_item Partial.topics Partial.metadata] in *.
    rewrite Htop1 in Hrtop1. rewrite Hal1 in Hral1. rewrite Hal1, Hkw1 in Hrkw1.
    rewrite Hal2 in Hral2.
    unfold fullText_of in Hrtop2.
    cbn [Partial.of_item Partial.title Partial.summary Partial.content_text] in Hrtop2.
    rewrite Htop2, Htitle2, Hsum2, Hcon2 in Hrtop2.
    repeat split.
    + rewrite Hrtop1. vm_compute. reflexivity.
    + rewrite Hral1. vm_compute. reflexivity.
    + rewrite Hrkw1. vm_compute. reflexivity.
    + rewrite Hrtop2. vm_compute. reflexivity.
    + rewrite Hral2. vm_compute. reflexivity.
Qed.

End EndToEnd.

(** ** Dates *)

Section Dates.

Context {host : Host}.




End Dates.

(** ** Normalisation keeps what a connector computed *)

Section Normalisation.

Context {host : Host}.

(** C8.  [normalizeItem] returns a record, and it leaves alone the fields a
    connector has populated: a non-empty [topics] list and a non-empty
    [tickers] list are returned as they are (nothing is derived again), a
    set (non-empty) [metadata.region] is kept, and a set [metadata.is_alert]
    is kept together with its [alert_keyword]. *)
Theorem normalizeItem_keeps_populated (item : Partial.t) (w : World) :
  exists out w',
    normalizeItem item w = (Normal out, w')
    /\ (forall ts, Partial.topics item = Some ts -> ts <> [] -> Item.topics out = ts)
    /\ (forall ts, Partial.tickers item = Some ts -> ts <> [] -> Item.tickers out = ts)
    /\ (forall md r, Partial.metadata item = Some md -> Metadata.region md = Some r ->
          r <> "" -> Metadata.region (Item.metadata out) = Some r)
    /\ (forall md b, Partial.metadata item = Some md -> Metadata.is_alert md = Some b ->
          Metadata.is_alert (Item.metadata out) = Some b
          /\ Metadata.alert_keyword (Item.metadata out) = Metadata.alert_keyword md).
Proof.
  destruct (normalizeItem_fields item w)
    as (out & w' & Hrun & _ & Htopics & Htickers & Hregion & Halert & Hkeyword).
  exists out, w'. split; [exact Hrun|]. repeat split.
  - intros ts Hts Hne. rewrite Htopics, Hts. destruct ts; [contradiction|reflexivity].
  - intros ts Hts Hne. rewrite Htickers, Hts. destruct ts; [contradiction|reflexivity].
  - intros md r Hmd Hr Hne. rewrite Hregion. unfold metadata_of. rewrite Hmd, Hr.
    unfold Js.truthy. destruct (String.eqb_spec r ""); [contradiction|reflexivity].
  - rewrite Halert. unfold metadata_of. now rewrite H, H0.
  - rewrite Hkeyword. unfold metadata_of. now rewrite H, H0.
Qed.

(** A second pass over a normalised record with topics returns the same topics. *)
Lemma normalizeItem_twice_topics (item : Partial.t) (w : World) :
  exists out w1 out2 w2,
    normalizeItem item w = (Normal out, w1)
    /\ normalizeItem (Partial.of_item out) w1 = (Normal out2, w2)
    /\ (Item.topics out <> [] -> Item.topics out2 = Item.topics out).
Proof.
  destruct (normalizeItem_fields item w) as (out & w1 & H1 & _).
  destruct (normalizeItem_fields (Partial.of_item out) w1)
    as (out2 & w2 & H2 & _ & Htopics & _).
  exists out, w1, out2, w2. repeat split; try assumption.
  intros Hne. rewrite Htopics. cbn [Partial.of_item Partial.topics or_list].
  destruct (Item.topics out); [contradiction|reflexivity].
Qed.

End Normalisation.

(** ** The category and region predicates of the filter *)

Section FilterFacts.

Context {host : Host}.

Lemma total_filter_predicate (config : Filter.t) (item : Item.t) :
  total (filter_predicate config item).
Proof.
  unfold filter_predicate.
  repeat match goal with
         | |- total (if ?b then _ else _) => destruct b; [apply total_ret|]
         end.
  destruct (Filter.max_age_ms config) as [m|]; [|auto with totality].
  destruct (m =? 0); [auto with totality|].
  apply total_bind; [auto with totality|]. intros t.
  destruct (Date_parse (Item.published_at item)); auto with totality.
Qed.

Lemma filter_predicate_only_category_region (cats : option (list NewsCategory))
    (regs : option (list string)) (item : Item.t) (w : World) :
  let config := Filter.mk None None cats regs None None in
  filter_predicate config item w
  = (Normal (negb (rejected_by_category config item) && negb (rejected_by_region config item)), w).
Proof.
  unfold filter_predicate, rejected_by_category, rejected_by_region, has_length, elements.
  cbn [Filter.categories Filter.regions Filter.topics Filter.include_keywords
       Filter.exclude_keywords Filter.max_age_ms].
  destruct cats as [[|c0 cs]|], regs as [[|r0 rs]|];
    destruct (Metadata.category (Item.metadata item)) as [c|],
             (Metadata.region (Item.metadata item)) as [r|]; cbn [andb negb];
    repeat match goal with
           | |- context [if ?b then _ else _] => destruct b; cbn [andb negb]
           end; reflexivity.
Qed.

(** C10.  With a non-empty list of allowed categories, a record without
    [metadata.category] is judged as if no category list were configured;
    likewise for regions and a record without [metadata.region] (absent or
    empty).  Under a filter that sets categories and regions only, such a
    record passes, and a record is rejected exactly when its category is
    present and not allowed, or its region is present and not allowed. *)
Theorem filterItems_absent_category_region (config : Filter.t) (items : list Item.t)
    (item : Item.t) (w : World) :
  (Metadata.category (Item.metadata item) = None ->
     filter_predicate config item w = filter_predicate (without_categories config) item w)
  /\ (Metadata.region (Item.metadata item) = None \/ Metadata.region (Item.metadata item) = Some "" ->
     filter_predicate config item w = filter_predicate (without_regions config) item w)
  /\ (forall cats regs,
        filterItems items (Filter.mk None None cats regs None None) w
        = (Normal (List.filter
                     (fun i => negb (rejected_by_category (Filter.mk None None cats regs None None) i)
                               && negb (rejected_by_region (Filter.mk None None cats regs None None) i))
                     items), w))
  /\ (forall cats regs,
        Metadata.category (Item.metadata item) = None ->
        (Metadata.region (Item.metadata item) = None \/ Metadata.region (Item.metadata item) = Some "") ->
        filter_predicate (Filter.mk None None cats regs None None) item w = (Normal true, w))
  /\ (rejected_by_category config item = true <->
        exists cats c, Filter.categories config = Some cats /\ cats <> []
                       /\ Metadata.category (Item.metadata item) = Some c
                       /\ existsb (NewsCategory_eqb c) cats = false)
  /\ (rejected_by_region config item = true <->
        exists regs r, Filter.regions config = Some regs /\ regs <> []
                       /\ Metadata.region (Item.metadata item) = Some r /\ r <> ""
                       /\ existsb (String.eqb r) regs = false).
Proof.
  repeat split.
  - intros Hcat. unfold filter_predicate, without_categories.
    cbn [Filter.categories Filter.regions Filter.topics Filter.include_keywords
         Filter.exclude_keywords Filter.max_age_ms].
    rewrite Hcat. now rewrite andb_false_r.
  - intros Hreg. unfold filter_predicate, without_regions.
    cbn [Filter.categories Filter.regions Filter.topics Filter.include_keywords
         Filter.exclude_keywords Filter.max_age_ms].
    destruct Hreg as [-> | ->]; cbn [Js.truthy String.eqb negb andb];
      now rewrite !andb_false_r.
  - intros cats regs. unfold filterItems.
    induction items as [|i more IH] in w |- *; cbn [filterM List.filter]; [reflexivity|].
    unfold bind at 1. rewrite (filter_predicate_only_category_region cats regs i w).
    cbv zeta. unfold bind at 1. rewrite IH. reflexivity.
  - intros cats regs Hcat Hreg.
    rewrite (filter_predicate_only_category_region cats regs item w). cbv zeta.
    unfold rejected_by_category, rejected_by_region.
    cbn [Filter.categories Filter.regions]. rewrite Hcat.
    destruct Hreg as [Hr | Hr]; rewrite Hr;
      destruct cats as [[|c0 cs]|], regs as [[|r0 rs]|]; reflexivity.
  - unfold rejected_by_category.
    destruct (Filter.categories config) as [[|c0 cs]|]; try discriminate.
    destruct (Metadata.category (Item.metadata item)) as [c|]; try discriminate.
    intros Hrej. exists (c0 :: cs), c. repeat split; try discriminate.
    now apply negb_true_iff.
  - intros (cats & c & Hcats & Hne & Hc & Hnotin).
    unfold rejected_by_category. rewrite Hcats, Hc.
    destruct cats as [|c0 cs]; [contradiction|]. now rewrite Hnotin.
  - unfold rejected_by_region.
    destruct (Filter.regions config) as [[|r0 rs]|]; try discriminate.
    destruct (Metadata.region (Item.metadata item)) as [r|]; try discriminate.
    intros Hrej. apply andb_true_iff in Hrej as [Htruthy Hnotin].
    exists (r0 :: rs), r. repeat split; try discriminate.
    + intros ->. discriminate.
    + now apply negb_true_iff.
  - intros (regs & r & Hregs & Hne & Hr & Hnonempty & Hnotin).
    unfold rejected_by_region. rewrite Hregs, Hr.
    destruct regs as [|r0 rs]; [contradiction|]. rewrite Hnotin.
    unfold Js.truthy. destruct (String.eqb_spec r ""); [contradiction|reflexivity].
Qed.

End FilterFacts.

(** ** Deduplication *)

Lemma map_has_kept (kept : list Item.t) (k : string) :
  map_has (map (fun item => (Item.id item, item)) kept) k
  = existsb (fun item => String.eqb k (Item.id item)) kept.
Proof.
  unfold map_has. induction kept as [|x kept IH]; cbn; [reflexivity|].
  now rewrite IH.
Qed.

Lemma map_set_fresh {V : Type} (m : list (string * V)) (k : string) (v : V) :
  map_has m k = false -> map_set m k v = (m ++ [(k, v)])%list.
Proof.
  unfold map_has. induction m as [|[k' v'] m IH]; cbn; [reflexivity|].
  intros H. apply orb_false_iff in H as [Hk Hm]. rewrite Hk. now rewrite IH.
Qed.

Lemma existsb_duplicates (item : Item.t) (kept : list Item.t) :
  existsb (duplicates item) kept
  = existsb (fun k => String.eqb (Item.id item) (Item.id k)) kept
    || existsb (fun k => String.eqb (titleHash item) (titleHash k)) kept.
Proof.
  induction kept as [|k kept IH]; cbn; [reflexivity|].
  rewrite IH. unfold duplicates.
  destruct (String.eqb (Item.id item) (Item.id k)),
           (String.eqb (titleHash item) (titleHash k)),
           (existsb (fun k0 => String.eqb (Item.id item) (Item.id k0)) kept); reflexivity.
Qed.

Lemma hash_seen_kept (h : string) (kept : list Item.t) :
  In h (map titleHash kept) <-> existsb (fun k => String.eqb h (titleHash k)) kept = true.
Proof.
  rewrite existsb_exists, in_map_iff. split.
  - intros (k & <- & Hin). exists k. split; [exact Hin | apply String.eqb_refl].
  - intros (k & Hin & Heq). apply String.eqb_eq in Heq. now exists k.
Qed.

Lemma dedup_step_spec (st : DedupState) (kept : list Item.t) (item : Item.t) :
  dedup_state_of st kept ->
  dedup_state_of (dedup_step st item)
    (if existsb (duplicates item) kept then kept else (kept ++ [item])%list).
Proof.
  intros [Hseen Hhashes]. unfold dedup_step.
  rewrite existsb_duplicates, Hseen, map_has_kept.
  destruct (existsb (fun k => String.eqb (Item.id item) (Item.id k)) kept) eqn:Hid;
    cbn [orb]; [now split|].
  destruct (existsb (fun k => String.eqb (titleHash item) (titleHash k)) kept) eqn:Hh.
  - rewrite bool_decide_eq_true_2; [now split|].
    apply Hhashes, hash_seen_kept, Hh.
  - rewrite bool_decide_eq_false_2.
    + split; cbn [seen titleHashes].
      * rewrite map_set_fresh by now rewrite map_has_kept.
        now rewrite map_app.
      * intros h. rewrite elem_of_union, elem_of_singleton, Hhashes, map_app, in_app_iff.
        cbn. intuition congruence.
    + intros Hin. apply Hhashes, hash_seen_kept in Hin. congruence.
Qed.

Lemma dedup_fold_spec (items : list Item.t) (st : DedupState) (kept : list Item.t) :
  dedup_state_of st kept ->
  dedup_state_of (fold_left dedup_step items st) (dedup_spec kept items).
Proof.
  revert st kept. induction items as [|item more IH]; intros st kept Hst; cbn.
  - exact Hst.
  - destruct (existsb (duplicates item) kept) eqn:Hdup.
    + apply IH. pose proof (dedup_step_spec st kept item Hst) as H. now rewrite Hdup in H.
    + apply IH. pose proof (dedup_step_spec st kept item Hst) as H. now rewrite Hdup in H.
Qed.

Lemma dedup_spec_app (kept items more : list Item.t) :
  dedup_spec kept (items ++ more) = dedup_spec (dedup_spec kept items) more.
Proof.
  revert kept. induction items as [|item items IH]; intros kept; cbn; [reflexivity|].
  destruct (existsb (duplicates item) kept); apply IH.
Qed.

Lemma deduplicateItems_spec (items : list Item.t) :
  deduplicateItems items = dedup_spec [] items.
Proof.
  unfold deduplicateItems.
  destruct (dedup_fold_spec items (mkDedup [] ∅) []) as [Hseen _].
  - split; [reflexivity|]. intros h. cbn. rewrite elem_of_empty. tauto.
  - rewrite Hseen, map_map. cbn. apply map_id.
Qed.

Lemma deduplicateItems_step (items : list Item.t) (item : Item.t) :
  deduplicateItems (items ++ [item])
  = (if existsb (duplicates item) (deduplicateItems items)
     then deduplicateItems items
     else deduplicateItems items ++ [item])%list.
Proof.
  rewrite !deduplicateItems_spec, dedup_spec_app. cbn.
  now destruct (existsb (duplicates item) (dedup_spec [] items)).
Qed.

Lemma not_duplicates (item : Item.t) (kept : list Item.t) :
  existsb (duplicates item) kept = false ->
  ~ In (Item.id item) (map Item.id kept) /\ ~ In (titleHash item) (map titleHash kept).
Proof.
  rewrite existsb_duplicates. intros H. apply orb_false_iff in H as [Hid Hh].
  split; intros Hin; apply in_map_iff in Hin as (k & Heq & Hk).
  - assert (existsb (fun k0 => String.eqb (Item.id item) (Item.id k0)) kept = true) as Ht.
    { apply existsb_exists. exists k. split; [exact Hk|]. rewrite Heq. apply String.eqb_refl. }
    congruence.
  - assert (existsb (fun k0 => String.eqb (titleHash item) (titleHash k0)) kept = true) as Ht.
    { apply existsb_exists. exists k. split; [exact Hk|]. rewrite Heq. apply String.eqb_refl. }
    congruence.
Qed.

Lemma NoDup_snoc {A : Type} (l : list A) (x : A) :
  NoDup l -> ~ In x l -> NoDup (l ++ [x]).
Proof.
  intros Hl Hx. apply NoDup_app. repeat split.
  - exact Hl.
  - intros y Hy Hin. apply list_elem_of_In in Hy. apply list_elem_of_In in Hin.
    destruct Hin as [<- | []]. contradiction.
  - apply NoDup_singleton.
Qed.

(** No two kept records share an id or a fingerprint. *)
Lemma dedup_spec_distinct (kept items : list Item.t) :
  NoDup (map Item.id kept) -> NoDup (map titleHash kept) ->
  NoDup (map Item.id (dedup_spec kept items))
  /\ NoDup (map titleHash (dedup_spec kept items)).
Proof.
  revert kept. induction items as [|item more IH]; intros kept Hids Hhashes; cbn.
  - now split.
  - destruct (existsb (duplicates item) kept) eqn:Hdup; [now apply IH|].
    destruct (not_duplicates item kept Hdup) as [Hid Hh].
    apply IH; rewrite map_app; cbn; now apply NoDup_snoc.
Qed.

(** The kept records are records of the input, in the order of the input. *)
Lemma dedup_spec_sublist (kept items : list Item.t) :
  exists more, dedup_spec kept items = (kept ++ more)%list /\ sublist more items.
Proof.
  revert kept. induction items as [|item items IH]; intros kept; cbn.
  - exists []. split; [now rewrite app_nil_r | constructor].
  - destruct (existsb (duplicates item) kept).
    + destruct (IH kept) as (more & -> & Hsub). exists more. split; [reflexivity|].
      now constructor.
    + destruct (IH (kept ++ [item])%list) as (more & -> & Hsub). exists (item :: more).
      split; [now rewrite <- app_assoc | now constructor].
Qed.

(** Every record that no earlier record of the input resembles is kept. *)
Lemma dedup_spec_subset (kept items : list Item.t) (x : Item.t) :
  In x (dedup_spec kept items) -> In x kept \/ In x items.
Proof.
  revert kept. induction items as [|item more IH]; intros kept; cbn; [tauto|].
  destruct (existsb (duplicates item) kept); intros H; apply IH in H.
  - tauto.
  - rewrite in_app_iff in H. cbn in H. tauto.
Qed.

Lemma deduplicateItems_keeps_new (items : list Item.t) (item : Item.t) :
  (forall x, In x items -> duplicates item x = false) ->
  deduplicateItems (items ++ [item]) = (deduplicateItems items ++ [item])%list.
Proof.
  intros Hnew.
  rewrite deduplicateItems_step.
  destruct (existsb (duplicates item) (deduplicateItems items)) eqn:Hdup; [|reflexivity].
  apply existsb_exists in Hdup as (x & Hin & Hx).
  rewrite deduplicateItems_spec in Hin. apply dedup_spec_subset in Hin as [[]|Hin].
  rewrite (Hnew x Hin) in Hx. discriminate.
Qed.

(** *** The fingerprint of a title *)

(** A pattern of one negated class matches the first unit outside the class. *)
Lemma match_at_outside (rs : list (Z * Z)) (p : option ascii) (d : ascii) (t : string) :
  match_at false (NotCls rs) p (String d t)
  = if in_ranges rs d then None else Some (String d "", mkSt (Some d) t []).
Proof.
  unfold match_at. cbn [m step_if rest caps].
  unfold class_matches. cbn [andb]. rewrite orb_false_r.
  destruct (in_ranges rs d); [reflexivity|]. cbn [negb].
  unfold consumed. cbn [rest String.length].
  replace (S (String.length t) - String.length t)%nat with 1%nat by lia.
  reflexivity.
Qed.

Lemma exec_from_outside (rs : list (Z * Z)) (t : string) (p : option ascii) :
  (exec_from false (NotCls rs) p t = None /\ all_units (in_ranges rs) t = true)
  \/ (exists sk d t',
        exec_from false (NotCls rs) p t = Some (sk, String d "", mkSt (Some d) t' [])
        /\ t = sk +:+ String d t'
        /\ all_units (in_ranges rs) sk = true
        /\ in_ranges rs d = false).
Proof.
  revert p. induction t as [|c t IH]; intros p.
  - left. now split.
  - cbn [exec_from]. rewrite match_at_outside. destruct (in_ranges rs c) eqn:Hc.
    + destruct (IH (Some c)) as [[-> Hall] | (sk & d & t' & -> & -> & Hsk & Hd)].
      * left. split; [reflexivity|]. cbn [all_units]. now rewrite Hc, Hall.
      * right. exists (String c sk), d, t'. rewrite append_cons.
        repeat split; [|exact Hd]. cbn [all_units]. now rewrite Hc, Hsk.
    + right. exists "", c, t. repeat split. exact Hc.
Qed.

Lemma strip_unless_kept (keep : ascii -> bool) (sk rest : string) :
  all_units keep sk = true ->
  strip_unless keep (sk +:+ rest) = sk +:+ strip_unless keep rest.
Proof.
  induction sk as [|c sk IH]; [reflexivity|]. cbn [all_units]. intros H.
  apply andb_true_iff in H as [Hc Hsk]. rewrite !append_cons. cbn [strip_unless].
  now rewrite Hc, IH.
Qed.

(** Replacing every unit outside a class by nothing leaves the units of the
    class, in order. *)
Lemma replace_outside (rs : list (Z * Z)) (fuel : nat) (p : option ascii) (t : string) :
  (String.length t < fuel)%nat ->
  replace_from false fuel (NotCls rs) "" p t = strip_unless (in_ranges rs) t.
Proof.
  revert p t. induction fuel as [|fuel IH]; intros p t Hfuel; [lia|].
  cbn [replace_from].
  destruct (exec_from_outside rs t p) as [[-> Hall] | (sk & d & t' & -> & -> & Hsk & Hd)].
  - rewrite <- (append_nil_r t) at 2. rewrite strip_unless_kept by exact Hall.
    cbn [strip_unless]. now rewrite append_nil_r.
  - rewrite drop_units_append. unfold progressed. cbn [rest String.length prev].
    replace (String.length t' <? S (String.length t'))%nat with true
      by (symmetry; apply Nat.ltb_lt; lia).
    rewrite append_length in Hfuel. cbn [String.length] in Hfuel.
    rewrite IH by lia. rewrite strip_unless_kept by exact Hsk.
    cbn [strip_unless]. rewrite Hd. now rewrite append_nil.
Qed.

Lemma lower_unit_alphanumeric (c : ascii) :
  in_ranges [rng "a" "z"; rng "0" "9"] (Js.lower_unit c) = alphanumeric (Js.lower_unit c).
Proof.
  destruct c as [[] [] [] [] [] [] [] []]; vm_compute; reflexivity.
Qed.

Lemma strip_unless_lower (keep keep' : ascii -> bool) (s : string) :
  (forall c, keep (Js.lower_unit c) = keep' (Js.lower_unit c)) ->
  strip_unless keep (Js.toLowerCase s) = strip_unless keep' (Js.toLowerCase s).
Proof.
  intros Hext. induction s as [|c s IH]; [reflexivity|].
  change (Js.toLowerCase (String c s)) with (String (Js.lower_unit c) (Js.toLowerCase s)).
  cbn [strip_unless]. now rewrite Hext, IH.
Qed.

(** The pattern of the source leaves what the specification describes. *)
Lemma normalizedTitle_alphanumeric (title : string) :
  normalizedTitle title = normalized_title title.
Proof.
  unfold normalizedTitle, normalized_title, replace_all.
  rewrite replace_outside by lia.
  apply strip_unless_lower, lower_unit_alphanumeric.
Qed.

Lemma titleHash_fingerprint (item : Item.t) :
  titleHash item = title_fingerprint (Item.title item).
Proof. unfold titleHash, title_fingerprint. now rewrite normalizedTitle_alphanumeric. Qed.

Lemma duplicates_resembles (item other : Item.t) :
  duplicates item other = true <-> resembles item other.
Proof.
  unfold duplicates, resembles. rewrite !titleHash_fingerprint, orb_true_iff, !String.eqb_eq.
  reflexivity.
Qed.

Lemma existsb_duplicates_resembles (item : Item.t) (kept : list Item.t) :
  existsb (duplicates item) kept = true <-> exists k, In k kept /\ resembles item k.
Proof.
  rewrite existsb_exists. split; intros (k & Hin & Hk); exists k; (split; [exact Hin|]);
    now apply duplicates_resembles.
Qed.

(** C3, as the code has it.  Records are taken in input order and the first
    seen wins.  The title fingerprint is the hash of the title lower-cased
    with the characters that are not alphanumeric stripped.  A record is
    kept exactly when no record kept before it has its id or its title
    fingerprint, and is dropped exactly when one has; the ids and
    fingerprints of dropped records are not remembered.  A record whose id
    and fingerprint occur on no earlier record of the list at all is always
    kept.  The survivors are records of the input in input order, and no
    two of them share an id or a fingerprint.  Of two records with the same
    id only the first survives, and of two records with different ids and
    the same normalised title only the first survives. *)
Theorem deduplicateItems_first_seen (items : list Item.t) (item a b : Item.t) :
  normalizedTitle (Item.title item) = normalized_title (Item.title item)
  /\ titleHash item = title_fingerprint (Item.title item)
  /\ (deduplicateItems (items ++ [item]) = (deduplicateItems items ++ [item])%list
      <-> forall k, In k (deduplicateItems items) -> ~ resembles item k)
  /\ (deduplicateItems (items ++ [item]) = deduplicateItems items
      <-> exists k, In k (deduplicateItems items) /\ resembles item k)
  /\ ((forall e, In e items -> ~ resembles item e) ->
      deduplicateItems (items ++ [item]) = (deduplicateItems items ++ [item])%list)
  /\ sublist (deduplicateItems items) items
  /\ NoDup (map Item.id (deduplicateItems items))
  /\ NoDup (map (fun k => title_fingerprint (Item.title k)) (deduplicateItems items))
  /\ (Item.id a = Item.id b -> deduplicateItems [a; b] = [a])
  /\ (Item.id a <> Item.id b ->
      normalized_title (Item.title a) = normalized_title (Item.title b) ->
      deduplicateItems [a; b] = [a]).
Proof.
  assert (Hgrow : deduplicateItems items <> (deduplicateItems items ++ [item])%list).
  { intros Heq. apply (f_equal (@length _)) in Heq. rewrite length_app in Heq. cbn in Heq. lia. }
  split; [apply normalizedTitle_alphanumeric|]. split; [apply titleHash_fingerprint|].
  split; [|split; [|split; [|split; [|split; [|split; [|split]]]]]].
  - rewrite deduplicateItems_step.
    destruct (existsb (duplicates item) (deduplicateItems items)) eqn:Hdup.
    + apply existsb_duplicates_resembles in Hdup as (k & Hin & Hk). split.
      * intros Heq. now apply Hgrow in Heq.
      * intros Hnone. now apply (Hnone k) in Hk.
    + split; [|reflexivity]. intros _ k Hin Hk.
      assert (existsb (duplicates item) (deduplicateItems items) = true) as Ht
        by (apply existsb_duplicates_resembles; eauto).
      congruence.
  - rewrite deduplicateItems_step.
    destruct (existsb (duplicates item) (deduplicateItems items)) eqn:Hdup.
    + split; [|reflexivity]. intros _. now apply existsb_duplicates_resembles.
    + split.
      * intros Heq. symmetry in Heq. now apply Hgrow in Heq.
      * intros Hex. apply existsb_duplicates_resembles in Hex. congruence.
  - intros Hnew. apply deduplicateItems_keeps_new. intros x Hx.
    destruct (duplicates item x) eqn:Hd; [|reflexivity].
    apply duplicates_resembles in Hd. now apply (Hnew x) in Hd.
  - rewrite deduplicateItems_spec.
    destruct (dedup_spec_sublist [] items) as (more & -> & Hsub). exact Hsub.
  - rewrite deduplicateItems_spec. apply dedup_spec_distinct; constructor.
  - rewrite <- (map_ext titleHash) by apply titleHash_fingerprint.
    rewrite deduplicateItems_spec. apply dedup_spec_distinct; constructor.
  - intros Hid. rewrite deduplicateItems_spec. cbn. unfold duplicates.
    now rewrite Hid, String.eqb_refl.
  - intros _ Htitle. rewrite deduplicateItems_spec. cbn.
    assert (duplicates b a = true) as ->; [|reflexivity].
    apply duplicates_resembles. right. unfold title_fingerprint. now rewrite Htitle.
Qed.

(** ** Sorting *)

Lemma sort_insert_perm {A : Type} (cmp : A -> A -> option Z) (x : A) (l : list A) :
  Permutation (x :: l) (sort_insert cmp x l).
Proof.
  induction l as [|y l IH]; cbn; [reflexivity|].
  destruct (sort_compare cmp x y <=? 0); [reflexivity|].
  rewrite perm_swap. now apply perm_skip.
Qed.

Lemma stable_sort_perm {A : Type} (cmp : A -> A -> option Z) (l : list A) :
  Permutation l (stable_sort cmp l).
Proof.
  induction l as [|x l IH]; cbn; [reflexivity|].
  rewrite <- sort_insert_perm. now apply perm_skip.
Qed.

Lemma sort_insert_ext {A : Type} (cmp1 cmp2 : A -> A -> option Z) (x : A) (l : list A) :
  (forall y, In y l -> sort_compare cmp1 x y = sort_compare cmp2 x y) ->
  sort_insert cmp1 x l = sort_insert cmp2 x l.
Proof.
  induction l as [|y l IH]; intros Hext; cbn; [reflexivity|].
  rewrite (Hext y) by now left.
  rewrite IH; [reflexivity|]. intros z Hz. apply Hext. now right.
Qed.

Lemma stable_sort_ext {A : Type} (cmp1 cmp2 : A -> A -> option Z) (l : list A) :
  (forall x y, In x l -> In y l -> sort_compare cmp1 x y = sort_compare cmp2 x y) ->
  stable_sort cmp1 l = stable_sort cmp2 l.
Proof.
  induction l as [|x l IH]; intros Hext; cbn; [reflexivity|].
  rewrite IH by (intros; apply Hext; now right).
  apply sort_insert_ext. intros y Hy. apply Hext; [now left|right].
  eapply Permutation_in; [symmetry; apply stable_sort_perm | exact Hy].
Qed.

Lemma sort_insert_front {A : Type} (cmp : A -> A -> option Z) (x : A) (l : list A) :
  match l with
  | [] => True
  | y :: _ => sort_compare cmp x y <= 0
  end ->
  sort_insert cmp x l = x :: l.
Proof.
  destruct l as [|y l]; cbn [sort_insert]; [reflexivity|].
  intros H. apply Z.leb_le in H. now rewrite H.
Qed.

(** A list that is in order already is left as it is. *)
Lemma stable_sort_fixed {A : Type} (cmp : A -> A -> option Z) (l : list A) :
  StronglySorted (fun a b => sort_compare cmp a b <= 0) l -> stable_sort cmp l = l.
Proof.
  induction 1 as [|x l Hsorted IH Hall]; cbn [stable_sort]; [reflexivity|].
  rewrite IH. apply sort_insert_front. destruct l as [|y l]; [exact I|].
  now inversion Hall.
Qed.

(** *** Whatever order the engine answers, the result is a permutation *)

Lemma named_positions_spec (n : nat) (order named : list nat) :
  NoDup (named_positions n order named)
  /\ forall i, In i (named_positions n order named) -> (i < n)%nat /\ ~ In i named.
Proof.
  revert named. induction order as [|i more IH]; intros named; cbn [named_positions].
  - split; [constructor | intros i []].
  - destruct ((i <? n)%nat && negb (existsb (Nat.eqb i) named)) eqn:Hi.
    + apply andb_true_iff in Hi as [Hlt Hnew]. apply Nat.ltb_lt in Hlt.
      apply negb_true_iff in Hnew.
      destruct (IH (i :: named)) as [Hnd Hin]. split.
      * apply NoDup_cons. split; [|exact Hnd]. intros Hi. apply list_elem_of_In in Hi.
        apply Hin in Hi as [_ Hi]. apply Hi. now left.
      * intros j [<- | Hj].
        -- split; [exact Hlt|]. intros Hi.
           assert (existsb (Nat.eqb i) named = true) as Ht; [|congruence].
           apply existsb_exists. exists i. split; [exact Hi | apply Nat.eqb_refl].
        -- apply Hin in Hj as [Hlt' Hj]. split; [exact Hlt'|]. intros Hn. apply Hj. now right.
    + apply IH.
Qed.

Lemma existsb_eqb_In (i : nat) (l : list nat) : existsb (Nat.eqb i) l = true <-> In i l.
Proof.
  rewrite existsb_exists. split.
  - intros (j & Hj & Heq). apply Nat.eqb_eq in Heq. now subst.
  - intros Hi. exists i. split; [exact Hi | apply Nat.eqb_refl].
Qed.

Lemma positions_complete (n : nat) (order : list nat) :
  Permutation (seq 0 n)
    (named_positions n order []
     ++ List.filter (fun i => negb (existsb (Nat.eqb i) (named_positions n order [])))
          (seq 0 n)).
Proof.
  destruct (named_positions_spec n order []) as [Hnd Hin].
  apply NoDup_Permutation.
  - apply NoDup_seq.
  - apply NoDup_app. split; [exact Hnd|]. split.
    + intros i Hi Hf. apply list_elem_of_In in Hi. apply list_elem_of_In in Hf.
      apply List.filter_In in Hf as [_ Hf].
      apply negb_true_iff in Hf. apply existsb_eqb_In in Hi. congruence.
    + apply NoDup_ListNoDup, List.NoDup_filter, NoDup_ListNoDup, NoDup_seq.
  - intros i. rewrite !list_elem_of_In, in_app_iff, List.filter_In, negb_true_iff. split.
    + intros Hi. destruct (existsb (Nat.eqb i) (named_positions n order [])) eqn:He.
      * left. now apply existsb_eqb_In.
      * right. now split.
    + intros [Hi | [Hi _]]; [|exact Hi]. apply Hin in Hi as [Hlt _].
      apply List.in_seq. lia.
Qed.

Lemma elements_at_positions {A : Type} (before l : list A) :
  flat_map (fun i => match nth_error (before ++ l) i with Some x => [x] | None => [] end)
    (seq (length before) (length l))
  = l.
Proof.
  revert before. induction l as [|x l IH]; intros before; [reflexivity|].
  cbn [length seq flat_map].
  rewrite nth_error_app2 by lia. rewrite Nat.sub_diag. cbn [nth_error app].
  f_equal. specialize (IH (before ++ [x])%list).
  rewrite <- app_assoc, length_app in IH. cbn [length app] in IH.
  rewrite Nat.add_1_r in IH. exact IH.
Qed.

Lemma reorder_perm {A : Type} (order : list nat) (l : list A) :
  Permutation l (reorder order l).
Proof.
  unfold reorder.
  rewrite <- (Permutation_flat_map _ (positions_complete (length l) order)).
  pose proof (elements_at_positions [] l) as H. cbn [app length] in H. now rewrite H.
Qed.

(** *** Consistent comparators *)

Lemma consistent_comparator_spec {A : Type} (compare : A -> A -> Z) (l : list A) :
  consistent_comparator compare l = true <->
  forall a, In a l ->
    compare a a = 0
    /\ forall b, In b l ->
         (compare a b = 0 -> compare b a = 0)
         /\ forall c, In c l ->
              (compare a b = 0 -> compare b c = 0 -> compare a c = 0)
              /\ (compare a b < 0 -> compare b c < 0 -> compare a c < 0)
              /\ (compare a b > 0 -> compare b c > 0 -> compare a c > 0).
Proof.
  unfold consistent_comparator. rewrite List.forallb_forall. split.
  - intros H a Ha. specialize (H a Ha). apply andb_true_iff in H as [Hrefl H].
    split; [now apply Z.eqb_eq|]. intros b Hb.
    rewrite List.forallb_forall in H. specialize (H b Hb).
    apply andb_true_iff in H as [Hsym H]. rewrite Bool.implb_true_iff, !Z.eqb_eq in Hsym.
    split; [exact Hsym|]. intros c Hc.
    rewrite List.forallb_forall in H. specialize (H c Hc).
    apply andb_true_iff in H as [H Hgt]. apply andb_true_iff in H as [Heq Hlt].
    rewrite Bool.implb_true_iff, andb_true_iff in Heq, Hlt, Hgt.
    rewrite !Z.eqb_eq in Heq. rewrite !Z.ltb_lt in Hlt. rewrite !Z.gtb_gt in Hgt.
    repeat split; intros; [apply Heq | apply Hlt | apply Hgt]; now split.
  - intros H a Ha. destruct (H a Ha) as [Hrefl Hb].
    apply andb_true_iff. split; [now apply Z.eqb_eq|].
    apply List.forallb_forall. intros b Hb'. destruct (Hb b Hb') as [Hsym Hc].
    apply andb_true_iff. split; [now rewrite Bool.implb_true_iff, !Z.eqb_eq|].
    apply List.forallb_forall. intros c Hc'. destruct (Hc c Hc') as (Heq & Hlt & Hgt).
    rewrite !andb_true_iff, !Bool.implb_true_iff, !andb_true_iff, !Z.eqb_eq, !Z.ltb_lt, !Z.gtb_gt.
    repeat split; intros []; auto.
Qed.

(** A comparator that is the difference of a key is consistent. *)
Lemma consistent_by_key {A : Type} (compare : A -> A -> Z) (key : A -> Z) (l : list A) :
  (forall a b, In a l -> In b l -> compare a b = key b - key a) ->
  consistent_comparator compare l = true.
Proof.
  intros Hkey. apply consistent_comparator_spec. intros a Ha.
  split; [rewrite Hkey by assumption; lia|]. intros b Hb.
  split; [rewrite !Hkey by assumption; lia|]. intros c Hc.
  rewrite !(Hkey a b), !(Hkey b c), !(Hkey a c) by assumption. lia.
Qed.

(** Ties that are not transitive make a comparator inconsistent. *)
Lemma inconsistent_ties {A : Type} (compare : A -> A -> Z) (l : list A) (a u b : A) :
  In a l -> In u l -> In b l ->
  compare a u = 0 -> compare u b = 0 -> compare a b <> 0 ->
  consistent_comparator compare l = false.
Proof.
  intros Ha Hu Hb Hau Hub Hab.
  destruct (consistent_comparator compare l) eqn:Hc; [|reflexivity].
  rewrite consistent_comparator_spec in Hc.
  destruct (Hc a Ha) as [_ H]. destruct (H u Hu) as [_ H']. destruct (H' b Hb) as [Heq _].
  now apply Heq in Hau.
Qed.

Section SortEngine.

Context {host : Host}.

Lemma array_sort_consistent {A : Type} (cmp : A -> A -> option Z) (l : list A) :
  consistent_comparator (sort_compare cmp) l = true ->
  array_sort cmp l = stable_sort cmp l.
Proof. unfold array_sort. now intros ->. Qed.

Lemma array_sort_inconsistent {A : Type} (cmp : A -> A -> option Z) (l : list A) :
  consistent_comparator (sort_compare cmp) l = false ->
  array_sort cmp l
  = reorder (sort_order (length l) (compare_positions (sort_compare cmp) l)) l.
Proof. unfold array_sort. now intros ->. Qed.

Lemma array_sort_perm {A : Type} (cmp : A -> A -> option Z) (l : list A) :
  Permutation l (array_sort cmp l).
Proof.
  unfold array_sort. destruct (consistent_comparator (sort_compare cmp) l).
  - apply stable_sort_perm.
  - apply reorder_perm.
Qed.

End SortEngine.

Section SortByKey.

Variable A : Type.
Variable key : A -> Z.

Lemma sort_insert_sorted (x : A) (l : list A) :
  StronglySorted (fun a b => key b <= key a) l ->
  StronglySorted (fun a b => key b <= key a) (sort_insert (descending key) x l).
Proof.
  induction l as [|y l IH]; intros Hsorted; cbn.
  - constructor; constructor.
  - inversion Hsorted as [|? ? Hl Hy]; subst.
    destruct (Z.leb_spec (key y - key x) 0) as [Hle|Hgt].
    + constructor; [exact Hsorted|]. constructor; [lia|].
      eapply Forall_impl; [exact Hy|]. cbn. intros z Hz. lia.
    + constructor; [now apply IH|].
      apply (Permutation_Forall (sort_insert_perm (descending key) x l)).
      constructor; [lia | exact Hy].
Qed.

Lemma stable_sort_sorted (l : list A) :
  StronglySorted (fun a b => key b <= key a) (stable_sort (descending key) l).
Proof.
  induction l as [|x l IH]; cbn; [constructor|]. now apply sort_insert_sorted.
Qed.

Lemma sort_insert_stable (t : Z) (x : A) (l : list A) :
  List.filter (fun a => key a =? t) (sort_insert (descending key) x l)
  = List.filter (fun a => key a =? t) (x :: l).
Proof.
  induction l as [|y l IH]; cbn [sort_insert]; [reflexivity|].
  unfold sort_compare. change (descending key x y) with (Some (key y - key x)).
  cbv beta iota.
  destruct (Z.leb_spec (key y - key x) 0) as [Hle|Hgt]; [reflexivity|].
  cbn [List.filter] in *. rewrite IH.
  destruct (Z.eqb_spec (key x) t), (Z.eqb_spec (key y) t); try reflexivity. lia.
Qed.

Lemma stable_sort_stable (t : Z) (l : list A) :
  List.filter (fun a => key a =? t) (stable_sort (descending key) l)
  = List.filter (fun a => key a =? t) l.
Proof.
  induction l as [|x l IH]; cbn [stable_sort]; [reflexivity|].
  rewrite sort_insert_stable. cbn [List.filter]. now rewrite IH.
Qed.

End SortByKey.

Section SortFacts.

Context {host : Host}.

Lemma compare_dates_valid (a b : Item.t) :
  getTime a <> None -> getTime b <> None ->
  compare_dates a b = descending epoch_key a b.
Proof.
  unfold compare_dates, descending, epoch_key.
  destruct (getTime a), (getTime b); intros Ha Hb; try contradiction. reflexivity.
Qed.

(** The comparator against a record without a date: a tie. *)
Lemma compare_dates_undated (a b : Item.t) :
  getTime a = None \/ getTime b = None -> sort_compare compare_dates a b = 0.
Proof.
  intros Hnan. unfold sort_compare, compare_dates.
  destruct Hnan as [-> | ->]; [reflexivity|]. now destruct (getTime a).
Qed.

(** With every date valid the comparator is consistent, and the sort is the
    stable sort by the time value, newest first. *)
Lemma sortItems_dated (items : list Item.t) :
  (forall item, In item items -> getTime item <> None) ->
  sortItems items = stable_sort (descending epoch_key) items.
Proof.
  intros Hvalid. unfold sortItems.
  assert (Hcmp : forall x y, In x items -> In y items ->
            sort_compare compare_dates x y = sort_compare (descending epoch_key) x y).
  { intros x y Hx Hy. unfold sort_compare. rewrite compare_dates_valid; auto. }
  rewrite array_sort_consistent.
  - now apply stable_sort_ext.
  - apply (consistent_by_key _ epoch_key). intros a b Ha Hb. now rewrite Hcmp.
Qed.

(** When no two dated records differ in time, every comparison is a tie and
    the list is left as it is. *)
Lemma sortItems_ties (items : list Item.t) :
  (forall a b ta tb, In a items -> In b items ->
     getTime a = Some ta -> getTime b = Some tb -> ta = tb) ->
  sortItems items = items.
Proof.
  intros Hsame.
  assert (Htie : forall a b, In a items -> In b items -> sort_compare compare_dates a b = 0).
  { intros a b Ha Hb. unfold sort_compare, compare_dates.
    destruct (getTime a) as [ta|] eqn:Hta; [|reflexivity].
    destruct (getTime b) as [tb|] eqn:Htb; [|reflexivity].
    rewrite (Hsame a b ta tb Ha Hb Hta Htb). lia. }
  unfold sortItems. rewrite array_sort_consistent.
  - apply stable_sort_fixed.
    assert (Hall : forall l, (forall x, In x l -> In x items) ->
              StronglySorted (fun a b => sort_compare compare_dates a b <= 0) l).
    { induction l as [|x l IH]; intros Hl; constructor.
      - apply IH. intros y Hy. apply Hl. now right.
      - apply List.Forall_forall. intros y Hy. rewrite Htie; [lia | |].
        + apply Hl. now left.
        + apply Hl. now right. }
    now apply Hall.
  - apply (consistent_by_key _ (fun _ => 0)). intros a b Ha Hb. now rewrite Htie.
Qed.

(** An undated record among dated records of different times: the ties are
    not transitive, and the order is the engine's. *)
Lemma sortItems_mixed (items : list Item.t) (u a b : Item.t) (ta tb : Z) :
  In u items -> In a items -> In b items ->
  getTime u = None -> getTime a = Some ta -> getTime b = Some tb -> ta <> tb ->
  sortItems items
  = reorder (sort_order (length items)
               (compare_positions (sort_compare compare_dates) items)) items.
Proof.
  intros Hu Ha Hb Hnone Hta Htb Hdiff. unfold sortItems.
  apply array_sort_inconsistent.
  apply (inconsistent_ties _ items a u b Ha Hu Hb).
  - apply compare_dates_undated. now right.
  - apply compare_dates_undated. now left.
  - unfold sort_compare, compare_dates. rewrite Hta, Htb. lia.
Qed.

(** C2, as the code has it.  The sort stage returns a permutation of its
    input.  When every [published_at] parses, the result is ordered by
    [published_at] descending and the sort is stable (records with the same
    timestamp keep their input order), so the output is determined; the
    dates 2024-01-03, 2024-01-01, 2024-01-02 come out as 03, 02, 01.  A
    record whose [published_at] does not parse is not given the epoch: the
    comparator yields NaN against it, which the sort reads as a tie.  So a
    list whose dated records all have the same time value comes back as it
    is, an undated record staying where it stood; and for a list with an
    undated record and dated records of different time values the
    comparator is not consistent, and the result is the order the sorting
    algorithm of the engine gives. *)
Theorem sortItems_valid_dates (items : list Item.t) :
  Permutation items (sortItems items)
  /\ ((forall item, In item items -> getTime item <> None) ->
      StronglySorted (newer_or_equal epoch_key) (sortItems items)
      /\ forall t, List.filter (fun i => epoch_key i =? t) (sortItems items)
                   = List.filter (fun i => epoch_key i =? t) items)
  /\ (forall a b, getTime a = None \/ getTime b = None ->
        sort_compare compare_dates a b = 0)
  /\ ((forall a b ta tb, In a items -> In b items ->
         getTime a = Some ta -> getTime b = Some tb -> ta = tb) ->
      sortItems items = items)
  /\ ((exists u a b ta tb,
         In u items /\ In a items /\ In b items
         /\ getTime u = None /\ getTime a = Some ta /\ getTime b = Some tb /\ ta <> tb) ->
      sortItems items
      = reorder (sort_order (length items)
                   (compare_positions (sort_compare compare_dates) items)) items)
  /\ map Item.published_at
       (sortItems [ Sample.record "x" "first" "2024-01-03";
                    Sample.record "y" "second" "2024-01-01";
                    Sample.record "z" "third" "2024-01-02" ])
     = ["2024-01-03"; "2024-01-02"; "2024-01-01"].
Proof.
  split; [apply array_sort_perm|]. split; [|split; [|split; [|split]]].
  - intros Hvalid. rewrite sortItems_dated by exact Hvalid.
    split; [apply stable_sort_sorted | intros t; apply stable_sort_stable].
  - apply compare_dates_undated.
  - apply sortItems_ties.
  - intros (u & a & b & ta & tb & Hu & Ha & Hb & Hnone & Hta & Htb & Hdiff).
    now apply (sortItems_mixed items u a b ta tb).
  - vm_compute. reflexivity.
Qed.

End SortFacts.

(** ** The orchestrator is fail-soft *)

Section Orchestrator.

Context {host : Host}.

Ltac run_with H := rewrite (bind_run _ _ _ _ _ H); cbv beta.

Lemma stage_error_run (stage : Stage) (source : option string) (e : Error) (w : World) :
  exists timestamp w',
    stage_error stage source e w
    = (Normal (mkPipelineError stage source (error_message e) timestamp), w').
Proof.
  unfold stage_error. destruct (total_nowISO w) as (ts & w' & Hts).
  exists ts, w'. now run_with Hts.
Qed.

Lemma fetch_family_thrown (source : string) (fetchAll : M (list Item.t))
    (acc : list Item.t * list PipelineError) (w w1 : World) (e : Error) :
  fetchAll w = (Thrown e, w1) ->
  exists timestamp w2,
    fetch_family true source fetchAll acc w
    = (Normal (fst acc, (snd acc ++ [mkPipelineError stage_fetch (Some source)
                                       (error_message e) timestamp])%list), w2).
Proof.
  intros Hthrown. unfold fetch_family, try_catch.
  rewrite (bind_thrown _ _ _ _ _ Hthrown).
  destruct (stage_error_run stage_fetch (Some source) e w1) as (ts & w2 & Hts).
  exists ts, w2. now run_with Hts.
Qed.

Lemma fetch_family_returned (source : string) (fetchAll : M (list Item.t))
    (acc : list Item.t * list PipelineError) (w w1 : World) (fetchedItems : list Item.t) :
  fetchAll w = (Normal fetchedItems, w1) ->
  fetch_family true source fetchAll acc w = (Normal ((fst acc ++ fetchedItems)%list, snd acc), w1).
Proof.
  intros Hret. unfold fetch_family, try_catch. now run_with Hret.
Qed.

(** A family never throws, and only adds to the errors. *)
Lemma fetch_family_run (enabled : bool) (source : string) (fetchAll : M (list Item.t))
    (acc : list Item.t * list PipelineError) (w : World) :
  exists acc' w' more,
    fetch_family enabled source fetchAll acc w = (Normal acc', w')
    /\ snd acc' = (snd acc ++ more)%list.
Proof.
  destruct enabled.
  - destruct (fetchAll w) as [[fetchedItems|e] w1] eqn:Hf.
    + rewrite (fetch_family_returned _ _ _ _ _ _ Hf).
      eexists _, _, []. split; [reflexivity|]. cbn. now rewrite app_nil_r.
    + destruct (fetch_family_thrown source _ acc _ _ _ Hf) as (ts & w2 & ->).
      eexists _, _, _. split; reflexivity.
  - exists acc, w, []. split; [reflexivity|]. now rewrite app_nil_r.
Qed.

Lemma parse_stage_run (allItems : list Item.t) (errors0 : list PipelineError) (w : World) :
  exists normalized w',
    parse_stage allItems errors0 w
    = (Normal (normalized, Z.of_nat (length normalized), errors0), w').
Proof.
  unfold parse_stage, try_catch.
  destruct (total_mapM (fun item => normalizeItem (Partial.of_item item)) allItems
              (fun item => total_normalizeItem (Partial.of_item item)) w)
    as (normalized & w' & Hn).
  exists normalized, w'. now run_with Hn.
Qed.

Lemma total_filter_stage (opts : ResolvedOptions) (allItems : list Item.t) :
  total (filter_stage opts allItems).
Proof.
  unfold filter_stage. destruct (0 <? Filter.keys (filter opts))%nat; [|apply total_ret].
  apply total_bind; [|intros; apply total_ret].
  apply total_filterM. intros item. apply total_filter_predicate.
Qed.

Lemma store_stage_run (opts : ResolvedOptions) (allItems : list Item.t)
    (errors0 : list PipelineError) (w : World) :
  exists errors1 w' more,
    store_stage opts allItems errors0 w = (Normal errors1, w')
    /\ errors1 = (errors0 ++ more)%list
    /\ forall adapter e w1,
         storage opts = Some adapter -> save adapter allItems w = (Thrown e, w1) ->
         exists timestamp,
           more = [mkPipelineError stage_store None (error_message e) timestamp].
Proof.
  unfold store_stage. destruct (storage opts) as [adapter|].
  - unfold try_catch. destruct (save adapter allItems w) as [[[]|e] w1] eqn:Hsave.
    + run_with Hsave. eexists _, _, []. split; [reflexivity|].
      split; [now rewrite app_nil_r|]. intros a e w2 [= <-]. rewrite Hsave. discriminate.
    + rewrite (bind_thrown _ _ _ _ _ Hsave).
      destruct (stage_error_run stage_store None e w1) as (ts & w2 & Hts).
      run_with Hts. eexists _, _, _. split; [reflexivity|]. split; [reflexivity|].
      intros a e' w3 [= <-]. rewrite Hsave. intros [= <- _]. now exists ts.
  - exists errors0, w, []. split; [reflexivity|]. split; [now rewrite app_nil_r|].
    discriminate.
Qed.

(** The run up to the store stage never throws; its errors are those of the
    fetch stage, and its records are sorted and deduplicated. *)
Lemma before_store_run (opts : ResolvedOptions) (w : World) :
  exists s1 w1 allItems stats0 w4,
    fetch_stage opts w = (Normal s1, w1)
    /\ before_store opts w = (Normal (allItems, stats0, snd s1), w4)
    /\ exists records, allItems = sortItems (deduplicateItems records).
Proof.
  unfold before_store, fetch_stage.
  destruct (fetch_family_run (useGdelt opts) "GDELT"
              (fetchAllGdelt (categories opts) GDELT_DEFAULT_OPTIONS) ([], []) w)
    as (accG & wG & moreG & HG & _).
  destruct (fetch_family_run (useRss opts) "RSS"
              (rss_fetchAll (corsProxies opts) (categories opts)) accG wG)
    as (accR & wR & moreR & HR & _).
  destruct (fetch_family_run (useIntel opts) "Intel"
              (rss_fetchIntel (corsProxies opts)) accR wR)
    as (accI & wI & moreI & HI & _).
  fold (gdelt_family opts) in HG. fold (rss_family opts) in HR. fold (intel_family opts) in HI.
  assert (Hfetch : bind (gdelt_family opts ([], []))
                     (fun s => bind (rss_family opts s) (fun s0 => intel_family opts s0)) w
                   = (Normal accI, wI)).
  { run_with HG. now run_with HR. }
  destruct (parse_stage_run (fst accI) (snd accI) wI) as (normalized & w2 & Hparse).
  destruct (total_filter_stage opts normalized w2) as (s3 & w3 & Hfilter).
  exists accI, wI. eexists _, _, w3. split; [exact Hfetch|].
  run_with Hfetch. run_with Hparse. cbn [fst snd]. run_with Hfilter.
  split; [reflexivity|]. now eexists.
Qed.

(** C9.  [runPipeline] always returns a result.  Whatever a source family
    throws is recorded as an error of stage "fetch" with the name of the
    family, whatever the [save] of the storage adapter throws is recorded as
    an error of stage "store", and the records of the result are the whole
    in-memory set that was handed to [save] (sorted and deduplicated), so a
    store failure loses none. *)
Theorem runPipeline_fail_soft (options : PipelineOptions) (w : World) :
  exists result w',
    runPipeline options w = (Normal result, w')
    /\ (forall accG wG accR wR,
          gdelt_family (with_defaults options) ([], []) (snd (Date_now w)) = (Normal accG, wG) ->
          rss_family (with_defaults options) accG wG = (Normal accR, wR) ->
          (forall e wx, useGdelt (with_defaults options) = true ->
             fetchAllGdelt (categories (with_defaults options)) GDELT_DEFAULT_OPTIONS
               (snd (Date_now w)) = (Thrown e, wx) ->
             captured stage_fetch (Some "GDELT") e result)
          /\ (forall e wx, useRss (with_defaults options) = true ->
             rss_fetchAll (corsProxies (with_defaults options))
               (categories (with_defaults options)) wG = (Thrown e, wx) ->
             captured stage_fetch (Some "RSS") e result)
          /\ (forall e wx, useIntel (with_defaults options) = true ->
             rss_fetchIntel (corsProxies (with_defaults options)) wR = (Thrown e, wx) ->
             captured stage_fetch (Some "Intel") e result))
    /\ (forall allItems stats0 errors0 w4,
          before_store (with_defaults options) (snd (Date_now w))
          = (Normal (allItems, stats0, errors0), w4) ->
          items result = allItems
          /\ (exists records, allItems = sortItems (deduplicateItems records))
          /\ (forall adapter e w5, storage (with_defaults options) = Some adapter ->
                save adapter allItems w4 = (Thrown e, w5) ->
                captured stage_store None e result)).
Proof.
  set (opts := with_defaults options).
  destruct (Date_now w) as [startTime w0] eqn:Hnow. cbn [snd].
  destruct (before_store_run opts w0)
    as (s1 & w1 & allItems & stats0 & w4 & Hfetch & Hbefore & Hsorted).
  destruct (store_stage_run opts allItems (snd s1) w4)
    as (errors1 & w5 & more & Hstore & Herrors & Hthrown).
  destruct (Date_now w5) as [endTime w6] eqn:Hend.
  eexists _, w6. split; [|split].
  - unfold runPipeline. fold opts. unfold bind at 1. unfold now at 1. rewrite Hnow.
    run_with Hbefore. cbn [fst snd]. run_with Hstore.
    unfold bind, now, ret. rewrite Hend. reflexivity.
  - intros accG wG accR wR HG HR.
    destruct (fetch_family_run (useIntel opts) "Intel"
                (rss_fetchIntel (corsProxies opts)) accR wR)
      as (accI & wI & moreI & HI & HgrowI).
    fold (intel_family opts) in HI.
    assert (Hs1 : s1 = accI).
    { unfold fetch_stage in Hfetch. rewrite (bind_run _ _ _ _ _ HG) in Hfetch.
      rewrite (bind_run _ _ _ _ _ HR) in Hfetch. rewrite HI in Hfetch. congruence. }
    destruct (fetch_family_run (useRss opts) "RSS"
                (rss_fetchAll (corsProxies opts) (categories opts)) accG wG)
      as (accR' & wR' & moreR & HR' & HgrowR).
    fold (rss_family opts) in HR'. rewrite HR in HR'. injection HR' as <- <-.
    unfold captured. cbn [errors]. subst errors1 s1.
    repeat split.
    + intros e wx Hon Hthrow. unfold gdelt_family in HG. rewrite Hon in HG.
      destruct (fetch_family_thrown "GDELT" _ ([], []) _ _ _ Hthrow) as (ts & w2 & Hrun).
      rewrite Hrun in HG. injection HG as <- <-. exists ts.
      rewrite HgrowI, HgrowR. cbn [fst snd]. rewrite !in_app_iff. cbn. tauto.
    + intros e wx Hon Hthrow. unfold rss_family in HR. rewrite Hon in HR.
      destruct (fetch_family_thrown "RSS" _ accG _ _ _ Hthrow) as (ts & w2 & Hrun).
      rewrite Hrun in HR. injection HR as <- <-. exists ts.
      rewrite HgrowI. cbn [fst snd]. rewrite !in_app_iff. cbn. tauto.
    + intros e wx Hon Hthrow. unfold intel_family in HI. rewrite Hon in HI.
      destruct (fetch_family_thrown "Intel" _ accR _ _ _ Hthrow) as (ts & w2 & Hrun).
      rewrite Hrun in HI. injection HI as <- <-. exists ts.
      cbn [fst snd]. rewrite !in_app_iff. cbn. tauto.
  - intros allItems' stats' errors' w4' Hbefore'.
    rewrite Hbefore in Hbefore'. injection Hbefore' as <- <- <- <-.
    split; [reflexivity|]. split; [exact Hsorted|].
    intros adapter e w7 Hadapter Hsave.
    destruct (Hthrown adapter e w7 Hadapter Hsave) as (ts & ->).
    exists ts. cbn [errors]. subst errors1. rewrite in_app_iff. cbn. tauto.
Qed.

End Orchestrator.

(* ================================================================== *)
(** * The properties at concrete inputs *)
(* ================================================================== *)

Lemma generateId_deterministic_witness :
  generateId "https://example.com/a" "gdelt-intel" = generateId "https://example.com/a" "gdelt-intel"
  /\ generateId "https://example.com/a" "gdelt-intel" = "3xwjnr-se6lk0".
Proof.
  destruct (generateId_deterministic "https://example.com/a" "gdelt-intel"
              "https://example.com/a" "gdelt-intel" eq_refl eq_refl) as [H1 H2].
  split; [exact H1|]. rewrite H2. vm_compute. reflexivity.
Defined.

Lemma extractSummary_summarize_witness :
  extractSummary "One. Two words and no more sentences" (Js.num 90)
  = summarize_spec "One. Two words and no more sentences" (Js.num 90)
  /\ extractSummary "First sentence. Second sentence. Third sentence is very long..."
       (Js.num 50)
     = "First sentence. Second sentence.".
Proof.
  apply (extractSummary_summarize "One. Two words and no more sentences" (Js.num 90)).
  left. discriminate.
Defined.

Lemma gdelt_enrichment_example_witness :
  exists r1 r2 w',
    @fetch_and_enrich (Sample.host_answering (Normal Sample.two_articles)) intel Sample.start
    = (Normal [r1; r2], w')
    /\ Item.topics r1 = ["CYBER"; "CONFLICT"; "DEFENSE"]
    /\ Metadata.is_alert (Item.metadata r1) = Some true
    /\ Metadata.alert_keyword (Item.metadata r1) = Some "military"
    /\ Item.topics r2 = []
    /\ Metadata.is_alert (Item.metadata r2) = Some false.
Proof.
  apply (@gdelt_enrichment_example (Sample.host_answering (Normal Sample.two_articles))
           intel
           (Sample.article "Cyber attack on military base" "https://example.com/a")
           (Sample.article "Routine earnings report" "https://example.com/b")
           (mkGdeltRequest
              "(intelligence OR security OR military OR defense) sourcelang:english"
              "7d" "artlist" 20 "json" "date" "")
           Sample.two_articles "application/json" Sample.start Sample.start); reflexivity.
Defined.

(** The first record of the example is an alert: its [is_alert] is not false. *)
Lemma gdelt_enrichment_alert_counterexample :
  exists r1 r2 w',
    @fetch_and_enrich (Sample.host_answering (Normal Sample.two_articles)) intel Sample.start
    = (Normal [r1; r2], w')
    /\ Item.title r1 = "Cyber attack on military base"
    /\ Metadata.is_alert (Item.metadata r1) = Some true
    /\ Metadata.is_alert (Item.metadata r1) <> Some false.
Proof.
  eexists _, _, _. split; [vm_compute; reflexivity|].
  split; [reflexivity|]. split; [reflexivity|discriminate].
Qed.

Lemma sortItems_valid_dates_witness :
  StronglySorted (newer_or_equal (@epoch_key Sample.offline))
    (@sortItems Sample.offline
       [ Sample.record "x" "first" "2024-01-03"; Sample.record "y" "second" "2024-01-01";
         Sample.record "z" "third" "2024-01-03T00:00:00Z" ])
  /\ @sort_compare Item.t (@compare_dates Sample.offline)
       (Sample.record "x" "first" "2024-01-03") (Sample.record "bad" "second" "not a date") = 0
  /\ @sortItems Sample.offline
       [ Sample.record "bad" "first" "not a date"; Sample.record "x" "second" "2024-01-03";
         Sample.record "worse" "third" ""; Sample.record "z" "fourth" "2024-01-03T00:00:00Z" ]
     = [ Sample.record "bad" "first" "not a date"; Sample.record "x" "second" "2024-01-03";
         Sample.record "worse" "third" ""; Sample.record "z" "fourth" "2024-01-03T00:00:00Z" ]
  /\ map Item.id
       (@sortItems Sample.offline
          [ Sample.record "a" "first" "2024-01-01"; Sample.record "b" "second" "2024-01-02";
            Sample.record "inv" "third" "not a date"; Sample.record "c" "fourth" "2024-01-03" ])
     = ["c"; "b"; "a"; "inv"].
Proof.
  split; [|split; [|split]].
  - apply (proj1 (proj2 (@sortItems_valid_dates Sample.offline
              [ Sample.record "x" "first" "2024-01-03"; Sample.record "y" "second" "2024-01-01";
                Sample.record "z" "third" "2024-01-03T00:00:00Z" ]))).
    intros item [<- | [<- | [<- | []]]]; vm_compute; discriminate.
  - apply (proj1 (proj2 (proj2 (@sortItems_valid_dates Sample.offline [])))).
    right. vm_compute. reflexivity.
  - apply (proj1 (proj2 (proj2 (proj2 (@sortItems_valid_dates Sample.offline
              [ Sample.record "bad" "first" "not a date"; Sample.record "x" "second" "2024-01-03";
                Sample.record "worse" "third" "";
                Sample.record "z" "fourth" "2024-01-03T00:00:00Z" ]))))).
    intros a b ta tb Ha Hb Hta Htb.
    destruct Ha as [<- | [<- | [<- | [<- | []]]]]; vm_compute in Hta; try discriminate;
      destruct Hb as [<- | [<- | [<- | [<- | []]]]]; vm_compute in Htb; try discriminate;
      congruence.
  - rewrite (proj1 (proj2 (proj2 (proj2 (proj2 (@sortItems_valid_dates Sample.offline
              [ Sample.record "a" "first" "2024-01-01"; Sample.record "b" "second" "2024-01-02";
                Sample.record "inv" "third" "not a date";
                Sample.record "c" "fourth" "2024-01-03" ])))))).
    + vm_compute. reflexivity.
    + exists (Sample.record "inv" "third" "not a date"),
             (Sample.record "a" "first" "2024-01-01"),
             (Sample.record "b" "second" "2024-01-02"), 1704067200000, 1704153600000.
      split; [cbn; auto|]. split; [cbn; auto|]. split; [cbn; auto|].
      split; [vm_compute; reflexivity|]. split; [vm_compute; reflexivity|].
      split; [vm_compute; reflexivity|]. discriminate.
Defined.

(** A record whose date does not parse stays ahead of a dated one: it is not
    sorted as the oldest. *)
Lemma sortItems_invalid_date_counterexample :
  @sortItems Sample.offline
    [ Sample.record "bad" "first" "not a date"; Sample.record "good" "second" "2024-01-01" ]
  = [ Sample.record "bad" "first" "not a date"; Sample.record "good" "second" "2024-01-01" ]
  /\ @getTime Sample.offline (Sample.record "bad" "first" "not a date") = None
  /\ @sort_compare Item.t (@compare_dates Sample.offline)
       (Sample.record "bad" "first" "not a date") (Sample.record "good" "second" "2024-01-01") = 0
  /\ @sort_compare Item.t (@compare_dates Sample.offline)
       (Sample.record "good" "second" "2024-01-01") (Sample.record "bad" "first" "not a date") = 0
  /\ ~ StronglySorted (newer_or_equal (@epoch_key Sample.offline))
         (@sortItems Sample.offline
            [ Sample.record "bad" "first" "not a date";
              Sample.record "good" "second" "2024-01-01" ]).
Proof.
  split; [vm_compute; reflexivity|]. split; [vm_compute; reflexivity|].
  split; [vm_compute; reflexivity|]. split; [vm_compute; reflexivity|].
  intros Hsorted.
  change (@sortItems Sample.offline
            [ Sample.record "bad" "first" "not a date";
              Sample.record "good" "second" "2024-01-01" ])
    with [ Sample.record "bad" "first" "not a date";
           Sample.record "good" "second" "2024-01-01" ] in Hsorted.
  inversion Hsorted as [|? ? _ Hall]; subst.
  inversion Hall as [|? ? Hle _]; subst.
  vm_compute in Hle. now apply Hle.
Qed.

(** With an undated record among dated ones the order depends on the sorting
    algorithm: binary insertion (node) leaves the undated record last,
    insertion from the back leaves it before the newest record. *)
Example sortItems_order_of_the_engine :
  map Item.id
    (@sortItems Sample.offline
       [ Sample.record "a" "first" "2024-01-01"; Sample.record "b" "second" "2024-01-02";
         Sample.record "inv" "third" "not a date"; Sample.record "c" "fourth" "2024-01-03" ])
  = ["c"; "b"; "a"; "inv"]
  /\ map Item.id
       (@sortItems Sample.offline_inserting
          [ Sample.record "a" "first" "2024-01-01"; Sample.record "b" "second" "2024-01-02";
            Sample.record "inv" "third" "not a date"; Sample.record "c" "fourth" "2024-01-03" ])
     = ["b"; "a"; "inv"; "c"].
Proof. split; vm_compute; reflexivity. Qed.

Lemma deduplicateItems_first_seen_witness :
  deduplicateItems [ Sample.record "a" "One title" "2024-01-01";
                     Sample.record "a" "Another title" "2024-01-02" ]
  = [ Sample.record "a" "One title" "2024-01-01" ]
  /\ deduplicateItems [ Sample.record "a" "Breaking: News!" "2024-01-01";
                        Sample.record "b" "breaking news" "2024-01-02" ]
     = [ Sample.record "a" "Breaking: News!" "2024-01-01" ]
  /\ deduplicateItems [ Sample.record "a" "Hello, World!" "2024-01-01";
                        Sample.record "b" "hello world" "2024-01-02";
                        Sample.record "b" "Other news" "2024-01-03" ]
     = [ Sample.record "a" "Hello, World!" "2024-01-01";
         Sample.record "b" "Other news" "2024-01-03" ].
Proof.
  split; [|split].
  - apply (proj1 (proj2 (proj2 (proj2 (proj2 (proj2 (proj2 (proj2 (proj2
             (deduplicateItems_first_seen [] (Sample.record "a" "One title" "2024-01-01")
                (Sample.record "a" "One title" "2024-01-01")
                (Sample.record "a" "Another title" "2024-01-02"))))))))))).
    reflexivity.
  - apply (proj2 (proj2 (proj2 (proj2 (proj2 (proj2 (proj2 (proj2 (proj2
             (deduplicateItems_first_seen [] (Sample.record "a" "Breaking: News!" "2024-01-01")
                (Sample.record "a" "Breaking: News!" "2024-01-01")
                (Sample.record "b" "breaking news" "2024-01-02"))))))))))).
    + discriminate.
    + vm_compute. reflexivity.
  - apply (proj2 (proj1 (proj2 (proj2
             (deduplicateItems_first_seen
                [ Sample.record "a" "Hello, World!" "2024-01-01";
                  Sample.record "b" "hello world" "2024-01-02" ]
                (Sample.record "b" "Other news" "2024-01-03")
                (Sample.record "a" "Hello, World!" "2024-01-01")
                (Sample.record "a" "Hello, World!" "2024-01-01")))))).
    intros k Hin. vm_compute in Hin. destruct Hin as [<- | []].
    intros [Hid | Hfp]; vm_compute in Hid || vm_compute in Hfp; discriminate.
Defined.

(** A record is kept although its id was seen earlier in the list: the
    second record, dropped for its title, does not record its id, and the
    third record, which has that id and a new title, is kept. *)
Lemma dedup_dropped_id_not_recorded :
  deduplicateItems [ Sample.record "a" "Hello, World!" "2024-01-01";
                     Sample.record "b" "hello world" "2024-01-02";
                     Sample.record "b" "Other news" "2024-01-03" ]
  = [ Sample.record "a" "Hello, World!" "2024-01-01";
      Sample.record "b" "Other news" "2024-01-03" ]
  /\ Item.id (Sample.record "b" "Other news" "2024-01-03")
     = Item.id (Sample.record "b" "hello world" "2024-01-02")
  /\ first_in_list []
       [ Sample.record "a" "Hello, World!" "2024-01-01";
         Sample.record "b" "hello world" "2024-01-02";
         Sample.record "b" "Other news" "2024-01-03" ]
     = [ Sample.record "a" "Hello, World!" "2024-01-01" ].
Proof. split; [|split]; vm_compute; reflexivity. Qed.


Lemma normalizeItem_keeps_populated_witness :
  exists out w',
    @normalizeItem Sample.offline
      (Partial.mk (Some "1") None (Some "https://example.com/1")
         (Some "Bitcoin rallies as $AAPL falls") None None None None None
         (Some ["TSLA"]) (Some ["POLICY"])
         None
         (Some (Metadata.mk None (Some false) None (Some "APAC") None None None [])))
      Sample.start = (Normal out, w')
    /\ Item.topics out = ["POLICY"]
    /\ Item.tickers out = ["TSLA"]
    /\ Metadata.region (Item.metadata out) = Some "APAC"
    /\ Metadata.is_alert (Item.metadata out) = Some false.
Proof.
  destruct (@normalizeItem_keeps_populated Sample.offline
              (Partial.mk (Some "1") None (Some "https://example.com/1")
                 (Some "Bitcoin rallies as $AAPL falls") None None None None None
                 (Some ["TSLA"]) (Some ["POLICY"])
                 None
                 (Some (Metadata.mk None (Some false) None (Some "APAC") None None None [])))
              Sample.start)
    as (out & w' & Hrun & Htopics & Htickers & Hregion & Halert).
  exists out, w'. split; [exact Hrun|]. repeat split.
  - apply Htopics; [reflexivity | discriminate].
  - apply Htickers; [reflexivity | discriminate].
  - apply (Hregion (Metadata.mk None (Some false) None (Some "APAC") None None None []) "APAC");
      [reflexivity | reflexivity | discriminate].
  - exact (proj1 (Halert (Metadata.mk None (Some false) None (Some "APAC") None None None [])
                    false eq_refl eq_refl)).
Defined.

Lemma filterItems_absent_category_region_witness :
  @filter_predicate Sample.offline
    (Filter.mk None None (Some [finance]) (Some ["EUROPE"]) None None)
    (Sample.record "1" "No category" "2024-01-01") Sample.start
  = (Normal true, Sample.start).
Proof.
  apply (proj1 (proj2 (proj2 (proj2
           (@filterItems_absent_category_region Sample.offline
              (Filter.mk None None (Some [finance]) (Some ["EUROPE"]) None None) []
              (Sample.record "1" "No category" "2024-01-01") Sample.start))))
           (Some [finance]) (Some ["EUROPE"])).
  - reflexivity.
  - left. reflexivity.
Defined.

Lemma runPipeline_fail_soft_witness :
  exists result w',
    @runPipeline Sample.feeds_down
      (mkOptions (Some [intel]) None None None None (Some Sample.failing_storage) None) Sample.start
    = (Normal result, w')
    /\ captured stage_fetch (Some "RSS") (mkError "Error" "feed connector down") result
    /\ captured stage_store None (mkError "Error" "disk full") result
    /\ length (items result) = 2%nat.
Proof.
  pose (options := @mkOptions Sample.feeds_down (Some [intel]) None None None None
                     (Some Sample.failing_storage) None).
  pose (opts := with_defaults options).
  pose (rG := gdelt_family opts ([], []) (Sample.start + 1)).
  pose (accG := match fst rG with Normal a => a | Thrown _ => ([], []) end).
  pose (rR := rss_family opts accG (snd rG)).
  pose (accR := match fst rR with Normal a => a | Thrown _ => ([], []) end).
  pose (rS := before_store opts (Sample.start + 1)).
  pose (allItems := match fst rS with Normal a => fst (fst a) | Thrown _ => [] end).
  pose (stats0 := match fst rS with Normal a => snd (fst a) | Thrown _ => mkStats 0 0 0 0 0 end).
  pose (errors0 := match fst rS with Normal a => snd a | Thrown _ => [] end).
  destruct (@runPipeline_fail_soft Sample.feeds_down options Sample.start)
    as (result & w' & Hrun & Hfetch & Hstore).
  exists result, w'. split; [exact Hrun|].
  destruct (Hfetch accG (snd rG) accR (snd rR)) as (_ & Hrss & _);
    [vm_compute; reflexivity | vm_compute; reflexivity |].
  destruct (Hstore allItems stats0 errors0 (snd rS)) as (Hitems & _ & Hsave);
    [vm_compute; reflexivity|].
  split; [|split].
  - apply (Hrss (mkError "Error" "feed connector down") (snd rG));
      vm_compute; reflexivity.
  - apply (Hsave Sample.failing_storage (mkError "Error" "disk full") (snd rS)).
    + reflexivity.
    + vm_compute. reflexivity.
  - rewrite Hitems. vm_compute. reflexivity.
Defined.

(* ================================================================== *)
(** * Further properties of the code *)
(* ================================================================== *)

(** ** More on the identity hash *)

Lemma code_unit_of (z : Z) : 0 <= z < 256 -> Js.code (Js.unit_of z) = z.
Proof.
  intros Hz. unfold Js.code, Js.unit_of.
  rewrite nat_ascii_embedding by lia. lia.
Qed.

Lemma digit_of_base36 (d : Z) : 0 <= d < 36 -> is_base36 (Js.digit_of d) = true.
Proof.
  intros Hd. unfold is_base36, Js.is_digit, Js.is_lower, Js.in_range, Js.digit_of.
  destruct (Z.ltb_spec d 10).
  - fold (Js.unit_of (48 + d)). rewrite code_unit_of by lia.
    apply orb_true_iff. left. apply andb_true_iff. split; apply Z.leb_le; lia.
  - fold (Js.unit_of (97 + (d - 10))). rewrite code_unit_of by lia.
    apply orb_true_iff. right. apply andb_true_iff. split; apply Z.leb_le; lia.
Qed.

Lemma toString_aux_base36 (fuel : nat) (n : Z) (acc : string) :
  all_units is_base36 acc = true ->
  all_units is_base36 (Js.toString_aux fuel 36 n acc) = true.
Proof.
  revert n acc. induction fuel as [|fuel IH]; intros n acc Hacc; cbn [Js.toString_aux].
  - exact Hacc.
  - assert (Hstep : all_units is_base36 (String (Js.digit_of (n mod 36)) acc) = true).
    { cbn [all_units]. rewrite digit_of_base36, Hacc; [reflexivity|].
      apply Z.mod_pos_bound. lia. }
    destruct (n / 36 =? 0); [exact Hstep | now apply IH].
Qed.

Lemma toString_aux_length (fuel : nat) (k : nat) (n : Z) (acc : string) :
  0 <= n < 36 ^ Z.of_nat (S k) ->
  (String.length (Js.toString_aux fuel 36 n acc) <= S k + String.length acc)%nat.
Proof.
  revert k n acc. induction fuel as [|fuel IH]; intros k n acc Hn; cbn [Js.toString_aux].
  - lia.
  - destruct (Z.eqb_spec (n / 36) 0) as [Hz|Hnz]; [cbn; lia|].
    destruct k as [|k].
    + exfalso. apply Hnz. apply Z.div_small. change (36 ^ Z.of_nat 1) with 36 in Hn. lia.
    + etransitivity; [apply (IH k)|cbn; lia].
      split; [apply Z.div_pos; lia|].
      apply Z.div_lt_upper_bound; [lia|].
      rewrite <- Z.pow_succ_r by lia. rewrite <- Nat2Z.inj_succ. lia.
Qed.

Lemma toString_aux_nonempty (fuel : nat) (n : Z) (acc : string) :
  Js.toString_aux (S fuel) 36 n acc <> "".
Proof.
  revert n acc. induction fuel as [|fuel IH]; intros n acc.
  - cbn. destruct (n / 36 =? 0); discriminate.
  - change (Js.toString_aux (S (S fuel)) 36 n acc)
      with (if n / 36 =? 0 then String (Js.digit_of (n mod 36)) acc
            else Js.toString_aux (S fuel) 36 (n / 36) (String (Js.digit_of (n mod 36)) acc)).
    destruct (n / 36 =? 0); [discriminate | apply IH].
Qed.

Lemma hashCode_digits (str : string) : all_units is_base36 (hashCode str) = true.
Proof.
  unfold hashCode, Js.toString36, Js.toString.
  destruct (Z.ltb_spec (Z.abs (hashCode_int str)) 0) as [Hneg|_]; [lia|].
  now apply toString_aux_base36.
Qed.

(** X1.  [hashCode] always returns between one and six digits of base 36
    (0-9, a-z): the absolute value is taken before the conversion, so no
    minus sign and no other unit ever appears. *)
Theorem hashCode_base36 (str : string) :
  hashCode str <> ""
  /\ all_units is_base36 (hashCode str) = true
  /\ (String.length (hashCode str) <= 6)%nat.
Proof.
  unfold hashCode, Js.toString36, Js.toString.
  pose proof (hashCode_int_range str) as Hr.
  destruct (Z.ltb_spec (Z.abs (hashCode_int str)) 0) as [Hneg|_]; [lia|].
  split; [apply toString_aux_nonempty|]. split; [now apply toString_aux_base36|].
  etransitivity; [apply (toString_aux_length _ 5)|cbn; lia].
  change (36 ^ Z.of_nat 6) with 2176782336. change (2 ^ 31) with 2147483648 in Hr. lia.
Qed.

Lemma all_units_no_dash (s : string) :
  all_units is_base36 s = true -> all_units (fun c => negb (Ascii.eqb c "-")) s = true.
Proof.
  induction s as [|c s IH]; cbn [all_units]; [reflexivity|].
  intros H. apply andb_true_iff in H as [Hc Hs]. rewrite IH by exact Hs.
  destruct (Ascii.eqb_spec c "-") as [->|]; [discriminate Hc | reflexivity].
Qed.

Lemma split_at_dash (a b c d : string) :
  all_units (fun c => negb (Ascii.eqb c "-")) a = true ->
  all_units (fun c => negb (Ascii.eqb c "-")) c = true ->
  a +:+ "-" +:+ b = c +:+ "-" +:+ d -> a = c /\ b = d.
Proof.
  revert c. induction a as [|x a IH]; intros [|y c] Ha Hc;
    rewrite ?append_cons, ?append_nil.
  - intros [= ->]. now split.
  - intros [= <- _]. cbn in Hc. discriminate.
  - intros [= -> _]. cbn in Ha. discriminate.
  - intros [= -> Heq]. cbn in Ha, Hc.
    apply andb_true_iff in Ha as [_ Ha]. apply andb_true_iff in Hc as [_ Hc].
    destruct (IH c Ha Hc Heq) as [-> ->]. now split.
Qed.

(** X2.  An identifier determines both of its hashes: the dash is the only
    unit of [generateId] outside the two base-36 hashes, so two equal
    identifiers have equal source hashes and equal URL hashes. *)
Theorem generateId_unambiguous (url1 source1 url2 source2 : string) :
  generateId url1 source1 = generateId url2 source2 ->
  hashCode source1 = hashCode source2 /\ hashCode url1 = hashCode url2.
Proof.
  unfold generateId. intros Heq.
  apply split_at_dash in Heq; [exact Heq| |];
    apply all_units_no_dash, hashCode_digits.
Qed.

Lemma charCodes_app (a b : string) :
  Js.charCodes (a +:+ b) = (Js.charCodes a ++ Js.charCodes b)%list.
Proof.
  unfold Js.charCodes. induction a as [|c a IH]; [reflexivity|].
  rewrite append_cons. cbn. now rewrite IH.
Qed.

(** X3.  The hash is not injective: replacing "Aa" by "BB" anywhere in a
    string leaves [hashCode] unchanged, so two URLs that differ that way
    get the same identifier under the same source. *)
Theorem hashCode_collision (before after source : string) :
  hashCode (before +:+ "Aa" +:+ after) = hashCode (before +:+ "BB" +:+ after)
  /\ generateId (before +:+ "Aa" +:+ after) source
     = generateId (before +:+ "BB" +:+ after) source.
Proof.
  assert (H : hashCode (before +:+ "Aa" +:+ after) = hashCode (before +:+ "BB" +:+ after)).
  { unfold hashCode. rewrite !hashCode_int_poly. do 2 f_equal. f_equal.
    unfold poly31. rewrite !charCodes_app, !fold_left_app. f_equal.
    generalize (fold_left (fun h c : Z => 31 * h + c) (Js.charCodes before) 0). intros h.
    change (Js.charCodes "Aa") with [65; 97]. change (Js.charCodes "BB") with [66; 66].
    cbn [fold_left]. lia. }
  split; [exact H|]. unfold generateId. now rewrite H.
Qed.

(** ** The detectors *)

Lemma push_topics_filter (lowerText : string) (entries : list (string * list string))
    (detected : list string) :
  push_topics lowerText entries detected
  = (detected ++ map fst (List.filter (fun e => occurs_in lowerText (snd e)) entries))%list.
Proof.
  revert detected. induction entries as [|[topic keywords] more IH]; intros detected;
    cbn [push_topics List.filter map snd].
  - now rewrite app_nil_r.
  - unfold occurs_in at 1. cbn [snd].
    destruct (existsb (fun k => Js.includes lowerText k) keywords); rewrite IH.
    + now rewrite <- app_assoc.
    + reflexivity.
Qed.

Lemma sublist_map_filter {A B : Type} (f : A -> B) (p : A -> bool) (l : list A) :
  sublist (map f (List.filter p l)) (map f l).
Proof.
  induction l as [|a l IH]; cbn; [constructor|].
  destruct (p a); cbn; now constructor.
Qed.

(** X4.  [detectTopics] returns topics of the table only, in the order of
    the table and each at most once; a topic is returned exactly when one
    of its keywords occurs in the lower-cased text. *)
Theorem detectTopics_table (text : string) :
  sublist (detectTopics text) (map fst TOPIC_KEYWORDS)
  /\ NoDup (detectTopics text)
  /\ forall topic,
       In topic (detectTopics text)
       <-> exists keywords keyword,
             In (topic, keywords) TOPIC_KEYWORDS /\ In keyword keywords
             /\ Js.includes (Js.toLowerCase text) keyword = true.
Proof.
  unfold detectTopics. rewrite push_topics_filter. cbn [app].
  split; [apply sublist_map_filter|]. split.
  - eapply sublist_NoDup; [|apply sublist_map_filter].
    apply (bool_decide_unpack _). vm_compute. reflexivity.
  - intros topic. rewrite in_map_iff. split.
    + intros ([t keywords] & <- & Hin). apply filter_In in Hin as [Hin Hocc].
      apply existsb_exists in Hocc as (k & Hk & Hinc). now exists keywords, k.
    + intros (keywords & k & Hin & Hk & Hinc). exists (topic, keywords).
      split; [reflexivity|]. apply filter_In. split; [exact Hin|].
      apply existsb_exists. now exists k.
Qed.

Lemma first_region_spec (lowerText : string) (entries : list (string * list string))
    (region : string) :
  first_region lowerText entries = Some region
  <-> exists before keywords after,
        entries = (before ++ (region, keywords) :: after)%list
        /\ occurs_in lowerText keywords = true
        /\ forall e, In e before -> occurs_in lowerText (snd e) = false.
Proof.
  induction entries as [|[r kws] more IH]; cbn [first_region].
  - split; [discriminate|]. intros (before & k & after & H & _). now destruct before.
  - fold (occurs_in lowerText kws). destruct (occurs_in lowerText kws) eqn:Hocc.
    + split.
      * intros [= <-]. exists [], kws, more. repeat split; [exact Hocc | intros e []].
      * intros ([|e before] & k & after & Heq & Hk & Hnone).
        -- now injection Heq as -> _ _.
        -- injection Heq as <- _. specialize (Hnone (r, kws) (or_introl eq_refl)).
           cbn [snd] in Hnone. congruence.
    + rewrite IH. split.
      * intros (before & k & after & -> & Hk & Hnone).
        exists ((r, kws) :: before), k, after. repeat split; [exact Hk|].
        intros e [<- | He]; [exact Hocc | now apply Hnone].
      * intros ([|e before] & k & after & Heq & Hk & Hnone).
        -- injection Heq as _ <- _. congruence.
        -- injection Heq as _ ->. exists before, k, after. repeat split; [exact Hk|].
           intros e' He'. apply Hnone. now right.
Qed.

Lemma first_region_none (lowerText : string) (entries : list (string * list string)) :
  first_region lowerText entries = None
  <-> forall e, In e entries -> occurs_in lowerText (snd e) = false.
Proof.
  induction entries as [|[r kws] more IH]; cbn [first_region].
  - split; [intros _ e [] | reflexivity].
  - fold (occurs_in lowerText kws). destruct (occurs_in lowerText kws) eqn:Hocc.
    + split; [discriminate|]. intros H. specialize (H (r, kws) (or_introl eq_refl)).
      cbn [snd] in H. congruence.
    + rewrite IH. split.
      * intros H e [<- | He]; [exact Hocc | now apply H].
      * intros H e He. apply H. now right.
Qed.

(** X5.  [detectRegion] returns the first region of the table one of whose
    keywords occurs in the lower-cased text (no keyword of an earlier region
    occurs), and nothing exactly when no keyword of any region occurs. *)
Theorem detectRegion_first_entry (text : string) :
  (forall region,
     detectRegion text = Some region
     <-> exists before keywords after,
           REGION_KEYWORDS = (before ++ (region, keywords) :: after)%list
           /\ occurs_in (Js.toLowerCase text) keywords = true
           /\ forall e, In e before -> occurs_in (Js.toLowerCase text) (snd e) = false)
  /\ (detectRegion text = None
      <-> forall e, In e REGION_KEYWORDS -> occurs_in (Js.toLowerCase text) (snd e) = false).
Proof.
  split; [intros region; apply first_region_spec | apply first_region_none].
Qed.

Lemma first_keyword_spec (lowerText : string) (keywords : list string) :
  match Alert.keyword (first_keyword lowerText keywords) with
  | Some keyword =>
      Alert.is_alert (first_keyword lowerText keywords) = true
      /\ exists before after,
           keywords = (before ++ keyword :: after)%list
           /\ Js.includes lowerText keyword = true
           /\ forall k, In k before -> Js.includes lowerText k = false
  | None =>
      Alert.is_alert (first_keyword lowerText keywords) = false
      /\ forall k, In k keywords -> Js.includes lowerText k = false
  end.
Proof.
  induction keywords as [|keyword more IH]; cbn [first_keyword].
  - cbn. split; [reflexivity | intros k []].
  - destruct (Js.includes lowerText keyword) eqn:Hinc; cbn [Alert.keyword Alert.is_alert].
    + split; [reflexivity|]. exists [], more. repeat split; [exact Hinc | intros k []].
    + destruct (Alert.keyword (first_keyword lowerText more)) as [found|].
      * destruct IH as (Halert & before & after & -> & Hfound & Hnone).
        split; [exact Halert|]. exists (keyword :: before), after.
        repeat split; [exact Hfound|]. intros k [<- | Hk]; [exact Hinc | now apply Hnone].
      * destruct IH as (Halert & Hnone). split; [exact Halert|].
        intros k [<- | Hk]; [exact Hinc | now apply Hnone].
Qed.

(** X6.  [containsAlertKeyword] reports a keyword exactly when it reports
    an alert; the keyword is the first one of the list that occurs in the
    lower-cased text; and no alert is reported exactly when no keyword of
    the list occurs. *)
Theorem containsAlertKeyword_first_keyword (text : string) :
  (Alert.is_alert (containsAlertKeyword text) = true
   <-> Alert.keyword (containsAlertKeyword text) <> None)
  /\ (forall keyword,
        Alert.keyword (containsAlertKeyword text) = Some keyword ->
        exists before after,
          ALERT_KEYWORDS = (before ++ keyword :: after)%list
          /\ Js.includes (Js.toLowerCase text) keyword = true
          /\ forall k, In k before -> Js.includes (Js.toLowerCase text) k = false)
  /\ (Alert.is_alert (containsAlertKeyword text) = false
      <-> forall k, In k ALERT_KEYWORDS -> Js.includes (Js.toLowerCase text) k = false).
Proof.
  unfold containsAlertKeyword.
  pose proof (first_keyword_spec (Js.toLowerCase text) ALERT_KEYWORDS) as H.
  destruct (Alert.keyword (first_keyword (Js.toLowerCase text) ALERT_KEYWORDS)) as [found|].
  - destruct H as (Halert & before & after & Heq & Hfound & Hnone). rewrite Halert.
    split; [split; [discriminate | reflexivity]|]. split.
    + intros keyword [= <-]. now exists before, after.
    + split; [discriminate|]. intros Hno. rewrite Hno in Hfound; [discriminate|].
      rewrite Heq, in_app_iff. right. now left.
  - destruct H as (Halert & Hnone). rewrite Halert.
    split; [split; [discriminate | contradiction]|]. split; [discriminate|].
    split; [intros _; exact Hnone | reflexivity].
Qed.

Lemma set_add_NoDup (tickers : list string) (t : string) :
  NoDup tickers -> NoDup (set_add tickers t).
Proof.
  intros Hnd. unfold set_add.
  destruct (existsb (String.eqb t) tickers) eqn:Hin; [exact Hnd|].
  apply NoDup_snoc; [exact Hnd|]. intros Ht.
  assert (existsb (String.eqb t) tickers = true) as Habs; [|congruence].
  apply existsb_exists. exists t. split; [exact Ht | apply String.eqb_refl].
Qed.

Lemma set_add_Forall (P : string -> Prop) (tickers : list string) (t : string) :
  Forall P tickers -> P t -> Forall P (set_add tickers t).
Proof.
  intros Hall Ht. unfold set_add. destruct (existsb (String.eqb t) tickers); [exact Hall|].
  apply Forall_app. split; [exact Hall | now constructor].
Qed.

Lemma upper_unit_not_lower (c : ascii) : Js.is_lower (Js.upper_unit c) = false.
Proof.
  unfold Js.upper_unit.
  destruct (Js.is_lower c) eqn:Hl.
  - unfold Js.is_lower, Js.in_range in *. apply andb_true_iff in Hl as [H1 H2].
    apply Z.leb_le in H1, H2. rewrite code_unit_of by lia.
    apply andb_false_iff. left. apply Z.leb_gt. lia.
  - destruct (Js.in_range 224 254 c && negb (Js.code c =? 247)) eqn:Hr; [|exact Hl].
    apply andb_true_iff in Hr as [Hr _]. unfold Js.is_lower, Js.in_range in *.
    apply andb_true_iff in Hr as [H1 H2]. apply Z.leb_le in H1, H2.
    rewrite code_unit_of by lia. apply andb_false_iff. right. apply Z.leb_gt. lia.
Qed.

Lemma toUpperCase_no_lower (s : string) :
  all_units (fun c => negb (Js.is_lower c)) (Js.toUpperCase s) = true.
Proof.
  unfold Js.toUpperCase. induction s as [|c s IH]; cbn [Js.map_units all_units]; [reflexivity|].
  now rewrite upper_unit_not_lower, IH.
Qed.

Lemma add_matches_invariant (P : list string -> Prop) (text : string) (pattern : RegExp)
    (tickers : list string) :
  (forall ts m1, P ts -> P (set_add ts (Js.toUpperCase m1))) ->
  P tickers -> P (add_matches text tickers pattern).
Proof.
  intros Hstep. unfold add_matches.
  generalize (exec_all (re_ignoreCase pattern) (re_source pattern) text). intros ms.
  revert tickers. induction ms as [|caps ms IH]; intros tickers Ht; cbn [fold_left].
  - exact Ht.
  - apply IH. destruct (capture 1 caps); [now apply Hstep | exact Ht].
Qed.

(** X7.  [extractTickers] never returns a ticker twice, and no ticker
    holds a lower-case letter a-z. *)
Theorem extractTickers_distinct_upper (text : string) :
  NoDup (extractTickers text)
  /\ Forall (fun t => all_units (fun c => negb (Js.is_lower c)) t = true) (extractTickers text).
Proof.
  unfold extractTickers.
  assert (H : forall patterns tickers,
            NoDup tickers
            /\ Forall (fun t => all_units (fun c => negb (Js.is_lower c)) t = true) tickers ->
            NoDup (fold_left (add_matches text) patterns tickers)
            /\ Forall (fun t => all_units (fun c => negb (Js.is_lower c)) t = true)
                 (fold_left (add_matches text) patterns tickers)).
  { induction patterns as [|pattern more IH]; intros tickers Ht; cbn [fold_left]; [exact Ht|].
    apply IH. apply add_matches_invariant; [|exact Ht].
    intros ts m1 [Hnd Hall]. split; [now apply set_add_NoDup|].
    apply set_add_Forall; [exact Hall | apply toUpperCase_no_lower]. }
  apply H. split; constructor.
Qed.

(** ** More on deduplication *)

Lemma dedup_spec_fixed (kept items : list Item.t) :
  NoDup (map Item.id (kept ++ items)) -> NoDup (map titleHash (kept ++ items)) ->
  dedup_spec kept items = (kept ++ items)%list.
Proof.
  revert kept. induction items as [|item more IH]; intros kept Hids Hhashes; cbn [dedup_spec].
  - now rewrite app_nil_r.
  - assert (Hnew : existsb (duplicates item) kept = false).
    { rewrite existsb_duplicates. apply orb_false_iff.
      rewrite map_app in Hids, Hhashes. cbn [map] in Hids, Hhashes.
      apply NoDup_app in Hids as (_ & Hid & _). apply NoDup_app in Hhashes as (_ & Hh & _).
      split; apply not_true_is_false; intros Hex; apply existsb_exists in Hex as (k & Hk & Heq);
        apply String.eqb_eq in Heq.
      - apply (Hid (Item.id k)); [apply list_elem_of_In; now apply in_map|].
        rewrite <- Heq. now left.
      - apply (Hh (titleHash k)); [apply list_elem_of_In; now apply in_map|].
        rewrite <- Heq. now left. }
    rewrite Hnew.
    replace (kept ++ item :: more)%list with ((kept ++ [item]) ++ more)%list
      in * by now rewrite <- app_assoc.
    now apply IH.
Qed.

(** X8.  Deduplicating twice is deduplicating once. *)
Theorem deduplicateItems_idempotent (items : list Item.t) :
  deduplicateItems (deduplicateItems items) = deduplicateItems items.
Proof.
  rewrite !deduplicateItems_spec.
  destruct (dedup_spec_distinct [] items) as [Hids Hhashes]; [constructor | constructor |].
  now apply (dedup_spec_fixed []).
Qed.

Lemma dedup_spec_covers (kept items : list Item.t) (x : Item.t) :
  In x items -> existsb (duplicates x) (dedup_spec kept items) = true.
Proof.
  revert kept. induction items as [|item more IH]; intros kept; cbn [dedup_spec]; [intros []|].
  assert (Hgrow : forall kept0 l, existsb (duplicates x) kept0 = true ->
                                  existsb (duplicates x) (dedup_spec kept0 l) = true).
  { intros kept0 l. destruct (dedup_spec_sublist kept0 l) as (more' & -> & _).
    rewrite existsb_app. now intros ->. }
  intros [<- | Hin].
  - destruct (existsb (duplicates item) kept) eqn:Hdup.
    + now apply Hgrow.
    + apply Hgrow. rewrite existsb_app. cbn. unfold duplicates at 2.
      rewrite String.eqb_refl. cbn. now rewrite orb_true_r.
  - destruct (existsb (duplicates item) kept); now apply IH.
Qed.

(** X9.  Every record of the input has its id or its title fingerprint
    among the records [deduplicateItems] keeps; the first record of the
    input is always kept, in first place; and the result is never longer
    than the input. *)
Theorem deduplicateItems_covers (items : list Item.t) :
  (forall x, In x items ->
     exists k, In k (deduplicateItems items)
               /\ (Item.id x = Item.id k \/ titleHash x = titleHash k))
  /\ (forall x more, items = x :: more ->
        exists rest, deduplicateItems items = x :: rest /\ sublist rest more)
  /\ (length (deduplicateItems items) <= length items)%nat.
Proof.
  rewrite deduplicateItems_spec. split; [|split].
  - intros x Hx. pose proof (dedup_spec_covers [] items x Hx) as Hc.
    apply existsb_exists in Hc as (k & Hk & Hdup). exists k. split; [exact Hk|].
    unfold duplicates in Hdup. apply orb_true_iff in Hdup as [H | H];
      apply String.eqb_eq in H; tauto.
  - intros x more ->. cbn [dedup_spec existsb app].
    destruct (dedup_spec_sublist [x] more) as (rest & -> & Hsub). now exists rest.
  - destruct (dedup_spec_sublist [] items) as (more & -> & Hsub). cbn [app].
    now apply sublist_length.
Qed.

(** ** More on the sort *)

Section SortMore.

Context {host : Host}.

(** X10.  [sortItems] returns its input unchanged when no [published_at]
    parses (every comparison is NaN), and when every one parses and the
    input is already newest first; when every [published_at] parses,
    sorting twice is sorting once. *)
Theorem sortItems_sorted_input (items : list Item.t) :
  ((forall item, In item items -> getTime item = None) -> sortItems items = items)
  /\ ((forall item, In item items -> getTime item <> None) ->
      StronglySorted (newer_or_equal epoch_key) items -> sortItems items = items)
  /\ ((forall item, In item items -> getTime item <> None) ->
      sortItems (sortItems items) = sortItems items).
Proof.
  assert (Hsorted_fixed : forall l, (forall item, In item l -> getTime item <> None) ->
            StronglySorted (newer_or_equal epoch_key) l -> sortItems l = l).
  { intros l Hvalid Hs. rewrite sortItems_dated by exact Hvalid. apply stable_sort_fixed.
    induction Hs as [|x l Hs IH Hall]; constructor.
    - apply IH. intros item Hin. apply Hvalid. now right.
    - apply List.Forall_forall. intros y Hy. rewrite List.Forall_forall in Hall.
      specialize (Hall y Hy). unfold newer_or_equal in Hall.
      unfold sort_compare, descending. lia. }
  split; [|split].
  - intros Hnone. apply sortItems_ties. intros a b ta tb Ha _ Hta _.
    rewrite (Hnone a Ha) in Hta. discriminate.
  - apply Hsorted_fixed.
  - intros Hvalid. apply Hsorted_fixed.
    + intros item Hin. apply Hvalid.
      eapply Permutation_in; [symmetry; apply array_sort_perm | exact Hin].
    + rewrite sortItems_dated by exact Hvalid. apply stable_sort_sorted.
Qed.

End SortMore.

(** ** More on the filter *)

Section FilterMore.

Context {host : Host}.

Lemma filterM_sublist {A : Type} (f : A -> M bool) (l out : list A) (w w' : World) :
  filterM f l w = (Normal out, w') -> sublist out l.
Proof.
  revert out w w'. induction l as [|a l IH]; intros out w w'; cbn [filterM].
  - intros [= <- _]. constructor.
  - unfold bind at 1. destruct (f a w) as [[keep|e] w1]; [|discriminate].
    unfold bind at 1. destruct (filterM f l w1) as [[rest|e] w2] eqn:Hrest; [|discriminate].
    intros [= <- _]. specialize (IH rest w1 w2 Hrest).
    destruct keep; now constructor.
Qed.

Lemma filterM_pure {A : Type} (f : A -> M bool) (p : A -> bool) (l : list A) (w : World) :
  (forall a, In a l -> f a w = (Normal (p a), w)) ->
  filterM f l w = (Normal (List.filter p l), w).
Proof.
  induction l as [|a l IH]; intros Hp; cbn [filterM List.filter]; [reflexivity|].
  unfold bind at 1. rewrite (Hp a) by now left.
  unfold bind at 1. rewrite IH by (intros; apply Hp; now right). reflexivity.
Qed.

Lemma filter_predicate_split (config : Filter.t) (item : Item.t) (w : World) :
  filter_predicate config item w
  = if passes config item then age_check config item w else (Normal false, w).
Proof.
  unfold filter_predicate, passes, rejected_by_category, rejected_by_region.
  fold (age_check config item).
  destruct (Filter.categories config) as [[|c0 cs]|],
           (Metadata.category (Item.metadata item)) as [c|];
    cbn [has_length elements andb negb];
    try destruct (existsb (NewsCategory_eqb c) (c0 :: cs)); cbn [negb andb];
    try reflexivity;
    (destruct (Filter.regions config) as [[|r0 rs]|],
             (Metadata.region (Item.metadata item)) as [r|];
     cbn [has_length elements andb negb];
     try destruct (Js.truthy r); cbn [negb andb];
     try destruct (existsb (String.eqb r) (r0 :: rs)); cbn [negb andb];
     try reflexivity;
     repeat match goal with
            | |- context [if ?b then _ else _] => destruct b; cbn [andb negb]; try reflexivity
            end).
Qed.

Lemma filter_predicate_ageless (config : Filter.t) (item : Item.t) (w : World) :
  Filter.max_age_ms config = None \/ Filter.max_age_ms config = Some 0 ->
  filter_predicate config item w = (Normal (passes config item), w).
Proof.
  intros Hage. rewrite filter_predicate_split. unfold age_check.
  destruct (passes config item); [|reflexivity].
  destruct Hage as [-> | ->]; reflexivity.
Qed.

(** X11.  [filterItems] never throws and returns records of its input in
    the order of the input.  Without an age limit ([max_age_ms] absent or
    0) it reads no clock, keeps exactly the records the other five tests
    pass, and filtering its result again changes nothing. *)
Theorem filterItems_keeps_order (items : list Item.t) (config : Filter.t) (w : World) :
  (exists out w', filterItems items config w = (Normal out, w') /\ sublist out items)
  /\ (Filter.max_age_ms config = None \/ Filter.max_age_ms config = Some 0 ->
      filterItems items config w = (Normal (List.filter (passes config) items), w)
      /\ filterItems (List.filter (passes config) items) config w
         = (Normal (List.filter (passes config) items), w)).
Proof.
  split.
  - destruct (total_filterM (filter_predicate config) items
                (fun item => total_filter_predicate config item) w) as (out & w' & Hrun).
    exists out, w'. split; [exact Hrun|]. unfold filterItems in Hrun.
    exact (filterM_sublist _ _ _ _ _ Hrun).
  - intros Hage. unfold filterItems.
    rewrite !(filterM_pure (filter_predicate config) (passes config))
      by (intros; now apply filter_predicate_ageless).
    split; [reflexivity|]. f_equal. f_equal.
    induction items as [|a l IH]; cbn [List.filter]; [reflexivity|].
    destruct (passes config a) eqn:Hp; cbn [List.filter]; [|exact IH].
    now rewrite Hp, IH.
Qed.

(** X12.  A configuration in which every list is absent or empty and
    [max_age_ms] is absent or 0 filters nothing out: [filterItems] returns
    its input and leaves the host as it is. *)
Theorem filterItems_inactive_config (items : list Item.t) (config : Filter.t) (w : World) :
  has_length (Filter.include_keywords config) = false ->
  has_length (Filter.exclude_keywords config) = false ->
  has_length (Filter.categories config) = false ->
  has_length (Filter.regions config) = false ->
  has_length (Filter.topics config) = false ->
  Filter.max_age_ms config = None \/ Filter.max_age_ms config = Some 0 ->
  filterItems items config w = (Normal items, w).
Proof.
  intros Hinc Hexc Hcat Hreg Htop Hage. unfold filterItems.
  rewrite (filterM_pure (filter_predicate config) (fun _ => true)).
  - f_equal. f_equal. induction items as [|a l IH]; cbn; [reflexivity | now rewrite IH].
  - intros item _. rewrite filter_predicate_ageless by exact Hage. do 2 f_equal.
    unfold passes, rejected_by_category, rejected_by_region. rewrite Hinc, Hexc, Htop.
    destruct (Filter.categories config) as [[|c0 cs]|]; try discriminate;
      destruct (Filter.regions config) as [[|r0 rs]|]; try discriminate; reflexivity.
Qed.

(** X13.  A record whose lower-cased title and summary hold an excluded
    keyword (compared in lower case) is rejected, whatever the include
    keywords and the age limit say, and the clock is not read for it. *)
Theorem filter_predicate_exclude_wins (config : Filter.t) (item : Item.t) (keyword : string)
    (excluded : list string) (w : World) :
  Filter.exclude_keywords config = Some excluded ->
  In keyword excluded ->
  Js.includes (Js.toLowerCase (Item.title item +:+ " " +:+ Item.summary item))
    (Js.toLowerCase keyword) = true ->
  filter_predicate config item w = (Normal false, w).
Proof.
  intros Hexc Hin Hinc. unfold filter_predicate. rewrite Hexc.
  assert (Hhas : has_length (Some excluded) = true) by (destruct excluded; [destruct Hin | reflexivity]).
  assert (Hcontains : contains_keyword
                        (Js.toLowerCase (Item.title item +:+ " " +:+ Item.summary item))
                        (elements (Some excluded)) = true).
  { apply existsb_exists. now exists keyword. }
  rewrite Hhas, Hcontains. cbn [andb].
  repeat match goal with
         | |- context [if ?b then _ else _] => destruct b; try reflexivity
         end.
Qed.

(** X14.  Under an age limit other than 0, a record the other tests
    reject is rejected without reading the clock; a record they pass costs
    one reading of the clock and is kept when its [published_at] does not
    parse, and otherwise exactly when its age is at most the limit. *)
Theorem filter_predicate_age (config : Filter.t) (max_age : Z) (item : Item.t) (w : World) :
  Filter.max_age_ms config = Some max_age -> max_age <> 0 ->
  filter_predicate config item w
  = if passes config item
    then (Normal match getTime item with
                 | Some published => fst (Date_now w) - published <=? max_age
                 | None => true
                 end, snd (Date_now w))
    else (Normal false, w).
Proof.
  intros Hage Hne. rewrite filter_predicate_split.
  destruct (passes config item); [|reflexivity].
  unfold age_check, getTime. rewrite Hage.
  destruct (Z.eqb_spec max_age 0); [contradiction|].
  unfold bind, now. destruct (Date_now w) as [t w']. cbn [fst snd].
  destruct (Date_parse (Item.published_at item)); [|reflexivity].
  unfold ret. do 2 f_equal. rewrite Z.gtb_ltb, Z.leb_antisym. reflexivity.
Qed.

End FilterMore.

(** ** More on the structured-API connector *)

Section ConnectorMore.

Context {host : Host}.

Lemma transformAll_run (articles : list Gdelt.Article) (category : NewsCategory)
    (index : nat) (w : World) :
  exists records w',
    transformAll articles category index w = (Normal records, w')
    /\ map Item.url records = map Gdelt.url articles
    /\ Forall (fun r => Metadata.category (Item.metadata r) = Some category
                        /\ Item.tickers r = [] /\ Item.summary r = ""
                        /\ Item.id r = generateId (Item.url r) ("gdelt-" +:+ category_name category))
         records.
Proof.
  revert index w. induction articles as [|article more IH]; intros index w; cbn [transformAll].
  - exists [], w. repeat split. constructor.
  - assert (Hone : exists r w2,
              transformArticle article category index w = (Normal r, w2)
              /\ Item.url r = Gdelt.url article
              /\ Metadata.category (Item.metadata r) = Some category
              /\ Item.tickers r = [] /\ Item.summary r = ""
              /\ Item.id r = generateId (Item.url r) ("gdelt-" +:+ category_name category)).
    { unfold transformArticle.
      destruct (total_parseGdeltDate (Gdelt.seendate article) w) as (p & w1 & Hp).
      destruct (total_nowISO w1) as (f & w2 & Hf).
      rewrite (bind_run _ _ _ _ _ Hp), (bind_run _ _ _ _ _ Hf).
      eexists _, w2. split; [reflexivity|]. repeat split. }
    destruct Hone as (r & w2 & Hr & Hurl & Hprops).
    destruct (IH (S index) w2) as (records & w3 & Hrest & Hurls & Hall).
    exists (r :: records), w3. split; [|split].
    + rewrite (bind_run _ _ _ _ _ Hr). now rewrite (bind_run _ _ _ _ _ Hrest).
    + cbn [map]. now rewrite Hurl, Hurls.
    + constructor; [exact Hprops | exact Hall].
Qed.

Ltac use_fetch Hfetch :=
  match goal with
  | H : fetch _ _ = _ |- _ =>
      rewrite Hfetch in H; first [discriminate H | injection H as <- <-]
  end.

(** X15.  For every category but [general], [fetchGdeltCategory] never
    throws.  It returns no record when the request throws, when the
    response is not ok, has no content type or one without
    "application/json", or when its body is not JSON or has no articles;
    otherwise it returns one record per article, in order, with the URL
    of the article and the category asked for. *)
Theorem fetchGdeltCategory_fail_soft (category : NewsCategory) (opts : GdeltConnectorOptions)
    (w : World) :
  category <> general ->
  exists request records w',
    buildGdeltUrl category opts = Normal request
    /\ fetchGdeltCategory category opts w = (Normal records, w')
    /\ (forall e w1, fetch request w = (Thrown e, w1) -> records = [] /\ w' = w1)
    /\ (forall response w1,
          fetch request w = (Normal response, w1) ->
          ok response = false
          \/ content_type response = None
          \/ (exists contentType, content_type response = Some contentType
                /\ Js.includes contentType "application/json" = false)
          \/ body response = InvalidJson
          \/ body response = Json ArticlesAbsent ->
          records = [] /\ w' = w1)
    /\ (forall response w1 contentType articles,
          fetch request w = (Normal response, w1) ->
          ok response = true ->
          content_type response = Some contentType ->
          Js.includes contentType "application/json" = true ->
          body response = Json (Articles articles) ->
          map Item.url records = map Gdelt.url articles
          /\ Forall (fun r => Metadata.category (Item.metadata r) = Some category) records).
Proof.
  intros Hcat.
  assert (Hquery : Js.truthy (GDELT_QUERIES category) = true) by now destruct category.
  unfold fetchGdeltCategory, buildGdeltUrl. rewrite Hquery. cbn [negb].
  set (request := mkGdeltRequest _ _ _ _ _ _ _).
  unfold bind at 1. unfold lift. unfold try_catch, bind.
  destruct (fetch request w) as [[response|e] w1] eqn:Hfetch.
  - destruct (ok response) eqn:Hok; cbn [negb];
      [destruct (content_type response) as [contentType|] eqn:Hct;
       [destruct (Js.includes contentType "application/json") eqn:Hjson;
        [destruct (body response) as [|[|articles]] eqn:Hbody|]|]|].
    3: { destruct (transformAll_run articles category 0 w1)
           as (records & w2 & Hrun & Hurls & Hall).
         exists request, records, w2. split; [reflexivity|].
         split; [now rewrite Hrun|]. split; [intros e w3 H; use_fetch Hfetch|]. split.
         - intros r w3 H [H1 | [H1 | [(ct & H1 & H2) | [H1 | H1]]]]; use_fetch Hfetch; congruence.
         - intros r w3 ct arts H _ _ _. use_fetch Hfetch. rewrite Hbody. intros [= <-].
           split; [exact Hurls|]. eapply Forall_impl; [exact Hall|]. cbn. tauto. }
    all: exists request, [], w1; split; [reflexivity|]; split; [reflexivity|];
      split; [intros e w3 H; use_fetch Hfetch|]; split;
      [ intros r w3 H _; use_fetch Hfetch; now split
      | intros r w3 ct arts H H1 H2 H3 H4; use_fetch Hfetch; congruence ].
  - exists request, [], w1. split; [reflexivity|]. split; [reflexivity|].
    split; [|split; [intros r w3 H; use_fetch Hfetch | intros r w3 ct arts H; use_fetch Hfetch]].
    intros e' w2 H. use_fetch Hfetch. now split.
Qed.

Lemma total_fetchGdeltCategory (category : NewsCategory) (opts : GdeltConnectorOptions) :
  category <> general -> total (fetchGdeltCategory category opts).
Proof.
  intros Hcat w.
  assert (Hquery : Js.truthy (GDELT_QUERIES category) = true) by now destruct category.
  unfold fetchGdeltCategory, buildGdeltUrl. rewrite Hquery. cbn [negb].
  unfold bind at 1. unfold lift. apply total_try_catch. intros e. apply total_ret.
Qed.

Lemma fetchGdeltCategory_general (opts : GdeltConnectorOptions) (w : World) :
  fetchGdeltCategory general opts w
  = (Thrown (mkError "Error" "Unknown category: general"), w).
Proof. reflexivity. Qed.

Lemma fetchAllGdelt_from_run (categories : list NewsCategory) (opts : GdeltConnectorOptions)
    (i : nat) (allItems : list Item.t) (w : World) :
  (In general categories ->
     exists w', fetchAllGdelt_from i categories opts allItems w
                = (Thrown (mkError "Error" "Unknown category: general"), w'))
  /\ (~ In general categories ->
      exists more w', fetchAllGdelt_from i categories opts allItems w
                      = (Normal (allItems ++ more)%list, w')).
Proof.
  revert i allItems w. induction categories as [|category more IH]; intros i allItems w;
    cbn [fetchAllGdelt_from].
  - split; [intros [] | intros _]. exists [], w. now rewrite app_nil_r.
  - set (pause := if (0 <? i)%nat then _ else _).
    assert (Hpause : exists w0, pause w = (Normal tt, w0)).
    { subst pause. destruct (0 <? i)%nat; eexists; reflexivity. }
    destruct Hpause as (w0 & Hpause). rewrite (bind_run _ _ _ _ _ Hpause). cbv beta.
    destruct category;
      try (match goal with
           | |- context [fetchGdeltCategory ?c _] =>
               destruct (total_fetchGdeltCategory c opts ltac:(discriminate) w0)
                 as (records & w1 & Hrun)
           end;
           rewrite (bind_run _ _ _ _ _ Hrun);
           destruct (IH (S i) (allItems ++ records)%list w1) as [Hthrow Hret];
           split;
           [ intros [Habs | Hin]; [discriminate | now apply Hthrow]
           | intros Hnot; destruct Hret as (rest & w2 & ->);
             [intros Hin; apply Hnot; now right|];
             exists (records ++ rest)%list, w2; now rewrite app_assoc ]).
    split.
    + intros _. exists w0. now rewrite (bind_thrown _ _ _ _ _ (fetchGdeltCategory_general opts w0)).
    + intros Hnot. exfalso. apply Hnot. now left.
Qed.

(** X16.  [fetchAllGdelt] throws "Unknown category: general" exactly when
    [general] is among the categories (the table has no query for it), and
    returns records otherwise.  In the pipeline, the whole GDELT family
    then contributes no record, only that error. *)
Theorem fetchAllGdelt_unknown_category (cats : list NewsCategory)
    (opts : GdeltConnectorOptions) (w : World) :
  (In general cats ->
     exists w', fetchAllGdelt cats opts w
                = (Thrown (mkError "Error" "Unknown category: general"), w'))
  /\ (~ In general cats ->
      exists records w', fetchAllGdelt cats opts w = (Normal records, w'))
  /\ (forall options acc,
        useGdelt options = true -> In general (categories options) ->
        exists timestamp w',
          gdelt_family options acc w
          = (Normal (fst acc,
                     (snd acc ++ [mkPipelineError stage_fetch (Some "GDELT")
                                    "Unknown category: general" timestamp])%list), w')).
Proof.
  assert (Hthrows : forall cs o w0, In general cs ->
            exists w', fetchAllGdelt cs o w0
                       = (Thrown (mkError "Error" "Unknown category: general"), w')).
  { intros cs o w0. unfold fetchAllGdelt.
    exact (proj1 (fetchAllGdelt_from_run cs o 0 [] w0)). }
  split; [apply Hthrows|]. split.
  - unfold fetchAllGdelt. intros Hnot.
    destruct (proj2 (fetchAllGdelt_from_run cats opts 0 [] w) Hnot) as (more & w' & ->).
    now exists more, w'.
  - intros options acc Hon Hin. unfold gdelt_family. rewrite Hon.
    destruct (Hthrows _ GDELT_DEFAULT_OPTIONS w Hin) as (w1 & Hthrown).
    exact (fetch_family_thrown "GDELT" _ acc _ _ _ Hthrown).
Qed.

End ConnectorMore.

(** ** More on the orchestrator *)

Section OrchestratorMore.

Context {host : Host}.

Lemma Forall_sublist {A : Type} (P : A -> Prop) (l k : list A) :
  Forall P k -> sublist l k -> Forall P l.
Proof.
  intros Hk Hsub. induction Hsub as [|x l k Hsub IH|x l k Hsub IH].
  - constructor.
  - inversion Hk; subst. constructor; [assumption | now apply IH].
  - inversion Hk; subst. now apply IH.
Qed.

Lemma mapM_Forall2 {A B : Type} (f : A -> M B) (R : A -> B -> Prop) (l : list A)
    (out : list B) (w w' : World) :
  (forall a w0 b w1, f a w0 = (Normal b, w1) -> R a b) ->
  mapM f l w = (Normal out, w') -> Forall2 R l out.
Proof.
  intros Hf. revert out w w'. induction l as [|a l IH]; intros out w w'; cbn [mapM].
  - intros [= <- _]. constructor.
  - unfold bind at 1. destruct (f a w) as [[b|e] w1] eqn:Hb; [|discriminate].
    unfold bind at 1. destruct (mapM f l w1) as [[bs|e] w2] eqn:Hbs; [|discriminate].
    intros [= <- _]. constructor; [now apply (Hf a w b w1) | now apply (IH bs w1 w2)].
Qed.

Lemma normalizeItem_enriched (item : Partial.t) (w w' : World) (out : Item.t) :
  normalizeItem item w = (Normal out, w') -> enriched out.
Proof.
  unfold normalizeItem.
  destruct (total_or_now (Partial.published_at item) w) as (p & w1 & Hp).
  destruct (total_or_now (Partial.fetched_at item) w1) as (f & w2 & Hf).
  rewrite (bind_run _ _ _ _ _ Hp), (bind_run _ _ _ _ _ Hf).
  intros [= <- _]. split; cbn [Item.metadata Metadata.is_alert Item.language].
  - discriminate.
  - unfold Js.or_else. destruct (Partial.language item) as [l|]; [|discriminate].
    destruct (Js.truthy l) eqn:Hl; [|discriminate].
    intros ->. discriminate.
Qed.

Lemma fetch_family_more (enabled : bool) (source : string) (fetchAll : M (list Item.t))
    (acc : list Item.t * list PipelineError) (w : World) :
  exists acc' w' more,
    fetch_family enabled source fetchAll acc w = (Normal acc', w')
    /\ snd acc' = (snd acc ++ more)%list
    /\ (length more <= 1)%nat
    /\ Forall (fun e => stage e = stage_fetch /\ error_source e = Some source) more
    /\ (more <> [] -> enabled = true /\ fst acc' = fst acc
                      /\ exists e w1, fetchAll w = (Thrown e, w1)).
Proof.
  destruct enabled.
  - destruct (fetchAll w) as [[fetchedItems|e] w1] eqn:Hf.
    + rewrite (fetch_family_returned _ _ _ _ _ _ Hf).
      eexists _, _, []. split; [reflexivity|]. cbn. rewrite app_nil_r.
      repeat split; try constructor; try lia; contradiction.
    + destruct (fetch_family_thrown source _ acc _ _ _ Hf) as (ts & w2 & ->).
      eexists _, _, _. split; [reflexivity|]. split; [reflexivity|]. cbn.
      repeat split; try lia; eauto.
  - exists acc, w, []. split; [reflexivity|]. cbn. rewrite app_nil_r.
    repeat split; try constructor; try lia; contradiction.
Qed.

(** What the run hands to the store stage. *)
Lemma before_store_stats (opts : ResolvedOptions) (w : World) :
  exists allItems stats0 errors0 w',
    before_store opts w = (Normal (allItems, stats0, errors0), w')
    /\ parsed stats0 = fetched stats0
    /\ 0 <= filtered stats0
    /\ 0 <= deduplicated stats0
    /\ Z.of_nat (length allItems) = fetched stats0 - filtered stats0 - deduplicated stats0
    /\ Forall enriched allItems
    /\ (length errors0 <= 3)%nat
    /\ Forall (fun e => stage e = stage_fetch) errors0.
Proof.
  unfold before_store, fetch_stage.
  destruct (fetch_family_more (useGdelt opts) "GDELT"
              (fetchAllGdelt (categories opts) GDELT_DEFAULT_OPTIONS) ([], []) w)
    as (accG & wG & moreG & HG & HeG & HlG & HsG & _).
  destruct (fetch_family_more (useRss opts) "RSS"
              (rss_fetchAll (corsProxies opts) (categories opts)) accG wG)
    as (accR & wR & moreR & HR & HeR & HlR & HsR & _).
  destruct (fetch_family_more (useIntel opts) "Intel"
              (rss_fetchIntel (corsProxies opts)) accR wR)
    as (accI & wI & moreI & HI & HeI & HlI & HsI & _).
  fold (gdelt_family opts) in HG. fold (rss_family opts) in HR. fold (intel_family opts) in HI.
  assert (Hfetch : bind (gdelt_family opts ([], []))
                     (fun s => bind (rss_family opts s) (fun s0 => intel_family opts s0)) w
                   = (Normal accI, wI)).
  { rewrite (bind_run _ _ _ _ _ HG). now rewrite (bind_run _ _ _ _ _ HR). }
  rewrite (bind_run _ _ _ _ _ Hfetch). cbv beta.
  destruct (total_mapM (fun item => normalizeItem (Partial.of_item item)) (fst accI)
              (fun item => total_normalizeItem (Partial.of_item item)) wI)
    as (normalized & w2 & Hn).
  pose proof (mapM_Forall2 _ (fun _ out => enriched out) _ _ _ _
                (fun a w0 b w1 H => normalizeItem_enriched _ _ _ _ H) Hn) as Henriched.
  assert (Hlen : length normalized = length (fst accI)).
  { symmetry. eapply Forall2_length. exact Henriched. }
  assert (Hall : Forall enriched normalized).
  { clear Hn Hlen. induction Henriched; constructor; assumption. }
  assert (Hparse : parse_stage (fst accI) (snd accI) wI
                   = (Normal (normalized, Z.of_nat (length normalized), snd accI), w2)).
  { unfold parse_stage, try_catch. now rewrite (bind_run _ _ _ _ _ Hn). }
  rewrite (bind_run _ _ _ _ _ Hparse). cbn [fst snd].
  assert (Hfilter : exists kept w3 filtered0,
             filter_stage opts normalized w2 = (Normal (kept, filtered0), w3)
             /\ sublist kept normalized
             /\ filtered0 = Z.of_nat (length normalized) - Z.of_nat (length kept)).
  { unfold filter_stage. destruct (0 <? Filter.keys (filter opts))%nat.
    - destruct (total_filterM (filter_predicate (filter opts)) normalized
                  (fun item => total_filter_predicate (filter opts) item) w2)
        as (kept & w3 & Hk).
      exists kept, w3. eexists. unfold filterItems. rewrite (bind_run _ _ _ _ _ Hk).
      split; [reflexivity|]. split; [|reflexivity].
      exact (filterM_sublist _ _ _ _ _ Hk).
    - exists normalized, w2, 0. split; [reflexivity|]. split; [reflexivity | lia]. }
  destruct Hfilter as (kept & w3 & filtered0 & Hfilter & Hsub & ->).
  rewrite (bind_run _ _ _ _ _ Hfilter). cbn [fst snd].
  eexists _, _, _, w3. split; [reflexivity|]. cbn [parsed fetched filtered deduplicated].
  pose proof (sublist_length _ _ Hsub) as Hkl.
  assert (Hdsub : sublist (deduplicateItems kept) kept).
  { rewrite deduplicateItems_spec.
    destruct (dedup_spec_sublist [] kept) as (more & -> & Hs). exact Hs. }
  pose proof (sublist_length _ _ Hdsub) as Hdl.
  pose proof (Permutation_length (array_sort_perm compare_dates (deduplicateItems kept))) as Hsl.
  fold (sortItems (deduplicateItems kept)) in Hsl.
  repeat split; try lia.
  - apply (Permutation_Forall (array_sort_perm compare_dates (deduplicateItems kept))).
    eapply Forall_sublist; [|exact Hdsub]. eapply Forall_sublist; [exact Hall | exact Hsub].
  - rewrite HeI, HeR, HeG. cbn [snd app]. rewrite !length_app. lia.
  - rewrite HeI, HeR, HeG. cbn [snd app]. rewrite !Forall_app. repeat split;
      (eapply Forall_impl; [eassumption|]; cbn; tauto).
Qed.

(** X17.  The counters of a run add up: [parsed] equals [fetched],
    [filtered] and [deduplicated] are not negative, and the number of
    records returned is [fetched - filtered - deduplicated].  Every record
    returned is enriched: its alert flag is set and its language is not
    empty. *)
Theorem runPipeline_accounting (options : PipelineOptions) (w : World) :
  exists result w',
    runPipeline options w = (Normal result, w')
    /\ parsed (stats result) = fetched (stats result)
    /\ 0 <= filtered (stats result)
    /\ 0 <= deduplicated (stats result)
    /\ Z.of_nat (length (items result))
       = fetched (stats result) - filtered (stats result) - deduplicated (stats result)
    /\ Forall enriched (items result).
Proof.
  unfold runPipeline.
  destruct (total_now w) as (startTime & w0 & Hstart). rewrite (bind_run _ _ _ _ _ Hstart).
  destruct (before_store_stats (with_defaults options) w0)
    as (allItems & stats0 & errors0 & w1 & Hbefore & Hparsed & Hf & Hd & Hlen & Hen & _).
  rewrite (bind_run _ _ _ _ _ Hbefore). cbn [fst snd].
  destruct (store_stage_run (with_defaults options) allItems errors0 w1)
    as (errors1 & w2 & more & Hstore & _).
  rewrite (bind_run _ _ _ _ _ Hstore).
  destruct (total_now w2) as (endTime & w3 & Hend). rewrite (bind_run _ _ _ _ _ Hend).
  eexists _, w3. split; [reflexivity|].
  cbn [stats items parsed fetched filtered deduplicated]. tauto.
Qed.

(** X18.  A run records at most four errors, each of stage "fetch" or
    "store" (the parse, filter and deduplication stages never add one);
    without a storage adapter every error is of stage "fetch". *)
Theorem runPipeline_error_stages (options : PipelineOptions) (w : World) :
  exists result w',
    runPipeline options w = (Normal result, w')
    /\ Forall (fun e => stage e = stage_fetch \/ stage e = stage_store) (errors result)
    /\ (length (errors result) <= 4)%nat
    /\ (opt_storage options = None ->
        Forall (fun e => stage e = stage_fetch) (errors result)).
Proof.
  unfold runPipeline.
  destruct (total_now w) as (startTime & w0 & Hstart). rewrite (bind_run _ _ _ _ _ Hstart).
  destruct (before_store_stats (with_defaults options) w0)
    as (allItems & stats0 & errors0 & w1 & Hbefore & _ & _ & _ & _ & _ & Hlen & Hstages).
  rewrite (bind_run _ _ _ _ _ Hbefore). cbn [fst snd].
  assert (Hstore : exists errors1 w2 more,
             store_stage (with_defaults options) allItems errors0 w1 = (Normal errors1, w2)
             /\ errors1 = (errors0 ++ more)%list
             /\ (length more <= 1)%nat
             /\ Forall (fun e => stage e = stage_store) more
             /\ (storage (with_defaults options) = None -> more = [])).
  { unfold store_stage. destruct (storage (with_defaults options)) as [adapter|].
    - unfold try_catch. destruct (save adapter allItems w1) as [[[]|e] w2] eqn:Hsave.
      + rewrite (bind_run _ _ _ _ _ Hsave). eexists _, _, []. split; [reflexivity|].
        rewrite app_nil_r. split; [reflexivity|]. split; [cbn; lia|].
        split; [constructor | intros [=]].
      + rewrite (bind_thrown _ _ _ _ _ Hsave).
        destruct (stage_error_run stage_store None e w2) as (ts & w3 & Hts).
        rewrite (bind_run _ _ _ _ _ Hts). eexists _, _, [_]. split; [reflexivity|].
        split; [reflexivity|]. split; [cbn; lia|].
        split; [now constructor | intros [=]].
    - exists errors0, w1, []. split; [reflexivity|]. rewrite app_nil_r.
      split; [reflexivity|]. split; [cbn; lia|]. split; [constructor | reflexivity]. }
  destruct Hstore as (errors1 & w2 & more & Hstore & -> & Hml & Hms & Hnone).
  rewrite (bind_run _ _ _ _ _ Hstore).
  destruct (total_now w2) as (endTime & w3 & Hend). rewrite (bind_run _ _ _ _ _ Hend).
  eexists _, w3. split; [reflexivity|]. cbn [errors]. split; [|split].
  - apply Forall_app. split; (eapply Forall_impl; [eassumption|]; cbn; tauto).
  - rewrite length_app. lia.
  - intros Hstorage. rewrite Hnone by exact Hstorage. now rewrite app_nil_r.
Qed.

End OrchestratorMore.

(** ** More on dates *)

Section DatesMore.

Context {host : Host}.

Lemma digit_class (c : ascii) : class_matches false [rng "0" "9"] c = Js.is_digit c.
Proof.
  unfold class_matches, in_ranges, rng. cbn [existsb fst snd andb].
  change (Js.code "0") with 48. change (Js.code "9") with 57.
  unfold Js.is_digit. now rewrite !orb_false_r.
Qed.

(** X19.  On a string of the compact form, four, two, two digits, "T",
    two, two, two digits and "Z", [parseGdeltDate] returns the same digits
    with dashes and colons put in, without reading the clock and without
    checking that they form a date. *)
Theorem parseGdeltDate_compact (y1 y2 y3 y4 mo1 mo2 d1 d2 h1 h2 mi1 mi2 s1 s2 : ascii)
    (w : World) :
  Forall (fun c => Js.is_digit c = true)
    [y1; y2; y3; y4; mo1; mo2; d1; d2; h1; h2; mi1; mi2; s1; s2] ->
  parseGdeltDate
    (string_of_list_ascii
       [y1; y2; y3; y4; mo1; mo2; d1; d2; "T"%char; h1; h2; mi1; mi2; s1; s2; "Z"%char]) w
  = (Normal
       (string_of_list_ascii
          [y1; y2; y3; y4; "-"%char; mo1; mo2; "-"%char; d1; d2; "T"%char;
           h1; h2; ":"%char; mi1; mi2; ":"%char; s1; s2; "Z"%char]), w).
Proof.
  intros Hd.
  repeat match goal with
         | H : Forall _ (_ :: _) |- _ => inversion H as [|? ? ? ?]; clear H; subst
         end.
  unfold parseGdeltDate. cbn [string_of_list_ascii].
  change (negb (Js.truthy (String y1 _))) with false. cbv iota.
  assert (Hexec : exists e,
    exec false gdelt_date_format
      (String y1 (String y2 (String y3 (String y4 (String mo1 (String mo2 (String d1
        (String d2 (String "T" (String h1 (String h2 (String mi1 (String mi2 (String s1
          (String s2 "Z")))))))))))))))
    = Some e
    /\ iso_of_groups (caps (snd e))
       = String y1 (String y2 (String y3 (String y4 (String "-" (String mo1 (String mo2
           (String "-" (String d1 (String d2 (String "T" (String h1 (String h2 (String ":"
             (String mi1 (String mi2 (String ":" (String s1 (String s2 "Z"))))))))))))))))))).
  { unfold exec, gdelt_date_format. cbn [exec_from].
    unfold match_at. cbn [m times digit step_if rest prev caps].
    rewrite !digit_class.
    repeat match goal with H : Js.is_digit _ = true |- _ => rewrite H; clear H end.
    cbn. eexists. split; reflexivity. }
  destruct Hexec as ([[sk mt] e] & -> & Hiso). cbn [snd] in Hiso. now rewrite Hiso.
Qed.

End DatesMore.

(** ** Truncation *)

Lemma take_units_length (n : nat) (s : string) :
  String.length (Js.take_units n s) = Nat.min n (String.length s).
Proof.
  revert s. induction n as [|n IH]; intros [|c s]; cbn; try reflexivity.
  now rewrite IH.
Qed.

(** X20.  [truncate] returns a text no longer than [maxLength] as it is;
    for [maxLength] of 3 or more the result is never longer than
    [maxLength], a longer text being cut to its first [maxLength - 3] units
    with an ellipsis; for [maxLength] from 0 to 2 the result of cutting a
    longer text is longer than [maxLength]. *)
Theorem truncate_length (text : string) (maxLength : Z) :
  (Js.len text <= maxLength -> truncate text maxLength = text)
  /\ (3 <= maxLength -> Js.len (truncate text maxLength) <= maxLength)
  /\ (3 <= maxLength < Js.len text ->
      truncate text maxLength
      = Js.take_units (Z.to_nat (maxLength - 3)) text +:+ "...")
  /\ (0 <= maxLength < 3 -> maxLength < Js.len text ->
      maxLength < Js.len (truncate text maxLength)).
Proof.
  unfold truncate, Js.len, Js.slice0.
  destruct (Js.truthy text) eqn:Htext; cbn [negb orb].
  - destruct (Z.leb_spec (Z.of_nat (String.length text)) maxLength) as [Hle|Hgt].
    + repeat split; intros; try lia; reflexivity.
    + split; [lia|].
      destruct (Z.ltb_spec (maxLength - 3) 0) as [Hneg|Hpos]; unfold Js.len;
        repeat split; intros; try lia;
        rewrite ?append_length, ?take_units_length; cbn [String.length]; try lia.
      f_equal. f_equal. lia.
  - unfold Js.truthy in Htext. apply negb_false_iff, String.eqb_eq in Htext. subst text.
    cbn. repeat split; intros; try lia; reflexivity.
Qed.

(** ** Feed dates *)

Section FeedDates.

Context {host : Host}.

(** X21.  [parseRssDate] never throws.  On a string the engine parses it
    returns the ISO form of that instant without reading the clock, and
    [parseDate] returns the same; on the empty string or one the engine
    cannot parse it returns the current time.  [parseGdeltDate] coincides
    with it on every string that is not of the compact form. *)
Theorem parseRssDate_fallback (dateStr : string) (w : World) :
  (exists iso w', parseRssDate dateStr w = (Normal iso, w'))
  /\ (forall t, dateStr <> "" -> Date_parse dateStr = Some t ->
        parseRssDate dateStr w = (Normal (JsDate.iso_string t), w)
        /\ parseDate (Some dateStr) w = parseRssDate dateStr w)
  /\ (dateStr = "" \/ Date_parse dateStr = None -> parseRssDate dateStr w = nowISO w)
  /\ (test false gdelt_date_format dateStr = false ->
        parseGdeltDate dateStr w = parseRssDate dateStr w).
Proof.
  unfold parseRssDate, parseGdeltDate.
  destruct (total_nowISO w) as (iso & w' & Hnow).
  split; [|split; [|split]].
  - destruct (negb (Js.truthy dateStr)); [eauto|].
    unfold try_catch, lift. destruct (Date_parse dateStr) as [t|]; cbn [toISOString]; eauto.
  - intros t Hne Hparse.
    assert (Htruthy : Js.truthy dateStr = true).
    { unfold Js.truthy. now destruct (String.eqb_spec dateStr ""). }
    cbn [parseDate]. rewrite Htruthy, Hparse. cbn. now split.
  - intros [-> | Hnone]; [reflexivity|].
    destruct (negb (Js.truthy dateStr)); [reflexivity|].
    unfold try_catch, lift. now rewrite Hnone.
  - intros Hno. destruct (negb (Js.truthy dateStr)); [reflexivity|].
    unfold test in Hno. now destruct (exec false gdelt_date_format dateStr).
Qed.

End FeedDates.

(** ** The JSONL adapter *)

Lemma append_assoc (a b c : string) : (a +:+ b) +:+ c = a +:+ (b +:+ c).
Proof.
  induction a as [|x a IH]; [reflexivity|]. rewrite !append_cons. now rewrite IH.
Qed.

Lemma rev_units_rev (s a b : string) :
  Js.rev_units (Js.rev_units s a) b = Js.rev_units a (s +:+ b).
Proof.
  revert a. induction s as [|c s IH]; intros a; [reflexivity|].
  cbn [Js.rev_units]. rewrite IH. reflexivity.
Qed.

Lemma rev_units_app (s t acc : string) :
  Js.rev_units (s +:+ t) acc = Js.rev_units t (Js.rev_units s acc).
Proof.
  revert acc. induction s as [|c s IH]; intros acc; [reflexivity|].
  rewrite append_cons. cbn [Js.rev_units]. apply IH.
Qed.

(** [trimEnd] looks at the last unit. *)
Lemma trimEnd_snoc (s : string) (c : ascii) :
  Js.trimEnd (s +:+ String c "")
  = if Js.is_space c then Js.trimEnd s else s +:+ String c "".
Proof.
  unfold Js.trimEnd. rewrite rev_units_app. cbn [Js.rev_units Js.trimStart].
  destruct (Js.is_space c); [reflexivity|].
  cbn [Js.rev_units]. rewrite rev_units_rev. reflexivity.
Qed.

Lemma last_unit_snoc (l : string) (b : ascii) :
  Jsonl.last_unit l = Some b -> exists l0, l = l0 +:+ String b "".
Proof.
  induction l as [|c l IH]; [discriminate|].
  destruct l as [|d l].
  - intros [= ->]. now exists "".
  - intros H. destruct (IH H) as (l0 & Hl0). exists (String c l0).
    rewrite append_cons. now rewrite <- Hl0.
Qed.

Lemma is_line_parts (l : string) :
  Jsonl.is_line l = true ->
  all_units (fun c => negb (Ascii.eqb c Jsonl.newline)) l = true
  /\ (exists a l', l = String a l' /\ Js.is_space a = false)
  /\ (exists l0 b, l = l0 +:+ String b "" /\ Js.is_space b = false).
Proof.
  unfold Jsonl.is_line. intros H. apply andb_true_iff in H as [Hnl Hends].
  split; [exact Hnl|].
  destruct (Jsonl.first_unit l) as [a|] eqn:Ha; [|discriminate].
  destruct (Jsonl.last_unit l) as [b|] eqn:Hb; [|discriminate].
  apply andb_true_iff in Hends as [Hsa Hsb]. apply negb_true_iff in Hsa, Hsb.
  split.
  - destruct l as [|a' l']; [discriminate|]. injection Ha as ->. now exists a, l'.
  - destruct (last_unit_snoc l b Hb) as (l0 & ->). now exists l0, b.
Qed.

Lemma is_line_truthy (l : string) : Jsonl.is_line l = true -> Js.truthy l = true.
Proof.
  intros H. destruct (is_line_parts l H) as (_ & (a & l' & -> & _) & _). reflexivity.
Qed.

Lemma unlines_app (xs ys : list string) :
  Jsonl.unlines (xs ++ ys) = Jsonl.unlines xs +:+ Jsonl.unlines ys.
Proof.
  induction xs as [|x xs IH]; [reflexivity|].
  cbn [app Jsonl.unlines]. rewrite IH, append_assoc, append_cons. reflexivity.
Qed.

Lemma join_unlines (lines : list string) :
  Jsonl.join (String Jsonl.newline "") lines +:+ String Jsonl.newline ""
  = Jsonl.unlines (match lines with [] => [""] | _ => lines end).
Proof.
  destruct lines as [|l more]; [reflexivity|].
  revert l. induction more as [|l' more IH]; intros l.
  - reflexivity.
  - change (Jsonl.join (String Jsonl.newline "") (l :: l' :: more))
      with (l +:+ String Jsonl.newline "" +:+ Jsonl.join (String Jsonl.newline "") (l' :: more)).
    rewrite !append_assoc, IH. reflexivity.
Qed.

Lemma trimStart_unlines (lines : list string) :
  Forall blank_or_line lines ->
  Js.trimStart (Jsonl.unlines lines) = Jsonl.unlines (drop_blank lines).
Proof.
  induction 1 as [|l more Hl Hmore IH]; [reflexivity|].
  destruct Hl as [-> | Hl].
  - cbn [Jsonl.unlines drop_blank Js.truthy]. exact IH.
  - cbn [drop_blank]. rewrite (is_line_truthy l Hl).
    destruct (is_line_parts l Hl) as (_ & (a & l' & -> & Ha) & _).
    cbn [Jsonl.unlines]. rewrite append_cons. cbn [Js.trimStart]. now rewrite Ha.
Qed.

Lemma drop_blank_Forall (P : string -> Prop) (lines : list string) :
  Forall P lines -> Forall P (drop_blank lines).
Proof.
  induction 1 as [|l more Hl Hmore IH]; [constructor|].
  cbn [drop_blank]. destruct (Js.truthy l); [now constructor | exact IH].
Qed.

Lemma drop_blank_filter (lines : list string) :
  List.filter Js.truthy (drop_blank lines) = List.filter Js.truthy lines.
Proof.
  induction lines as [|l more IH]; [reflexivity|].
  cbn [drop_blank List.filter]. destruct (Js.truthy l) eqn:Hl; [|exact IH].
  cbn [List.filter]. now rewrite Hl.
Qed.

Lemma join_cons (sep l : string) (more : list string) :
  more <> [] -> Jsonl.join sep (l :: more) = l +:+ sep +:+ Jsonl.join sep more.
Proof. destruct more; [contradiction | reflexivity]. Qed.

Lemma join_snoc (xs : list string) (x : string) :
  Jsonl.join (String Jsonl.newline "") (xs ++ [x]) = Jsonl.unlines xs +:+ x.
Proof.
  induction xs as [|y xs IH]; [reflexivity|].
  cbn [app Jsonl.unlines]. rewrite join_cons by now destruct xs.
  rewrite IH, append_assoc, append_cons. reflexivity.
Qed.

Lemma trimEnd_unlines (lines : list string) :
  Forall blank_or_line lines ->
  Js.trimEnd (Jsonl.unlines lines)
  = Jsonl.join (String Jsonl.newline "") (strip_end lines).
Proof.
  unfold strip_end. induction lines as [|x xs IH] using rev_ind; intros Hall; [reflexivity|].
  apply Forall_app in Hall as [Hxs Hx]. inversion Hx as [|? ? Hx' _]; subst.
  rewrite unlines_app. cbn [Jsonl.unlines].
  rewrite <- append_assoc, trimEnd_snoc.
  change (Js.is_space Jsonl.newline) with true. cbv iota.
  rewrite rev_app_distr. cbn [rev app drop_blank].
  destruct Hx' as [-> | Hline].
  - rewrite append_nil_r. cbn [Js.truthy String.eqb negb]. now apply IH.
  - rewrite (is_line_truthy x Hline). cbn [rev]. rewrite rev_involutive, join_snoc.
    destruct (is_line_parts x Hline) as (_ & _ & (x0 & b & -> & Hb)).
    rewrite <- append_assoc, trimEnd_snoc, Hb. reflexivity.
Qed.

Lemma split_line (l rest : string) :
  all_units (fun c => negb (Ascii.eqb c Jsonl.newline)) l = true ->
  Jsonl.split Jsonl.newline (l +:+ String Jsonl.newline rest)
  = l :: Jsonl.split Jsonl.newline rest.
Proof.
  induction l as [|c l IH]; intros Hl.
  - rewrite append_nil. cbn [Jsonl.split]. now rewrite Ascii.eqb_refl.
  - cbn [all_units] in Hl. apply andb_true_iff in Hl as [Hc Hl].
    rewrite append_cons. cbn [Jsonl.split]. apply negb_true_iff in Hc. rewrite Hc.
    now rewrite IH.
Qed.

Lemma split_one (l : string) :
  all_units (fun c => negb (Ascii.eqb c Jsonl.newline)) l = true ->
  Jsonl.split Jsonl.newline l = [l].
Proof.
  induction l as [|c l IH]; intros Hl; [reflexivity|].
  cbn [all_units] in Hl. apply andb_true_iff in Hl as [Hc Hl].
  cbn [Jsonl.split]. apply negb_true_iff in Hc. rewrite Hc. now rewrite IH.
Qed.

Lemma blank_or_line_no_newline (l : string) :
  blank_or_line l -> all_units (fun c => negb (Ascii.eqb c Jsonl.newline)) l = true.
Proof.
  intros [-> | Hl]; [reflexivity|]. now destruct (is_line_parts l Hl).
Qed.

Lemma split_join (lines : list string) :
  Forall blank_or_line lines -> lines <> [] ->
  Jsonl.split Jsonl.newline (Jsonl.join (String Jsonl.newline "") lines) = lines.
Proof.
  induction 1 as [|l more Hl Hmore IH]; intros Hne; [contradiction|].
  destruct more as [|l' more].
  - cbn [Jsonl.join]. now apply split_one, blank_or_line_no_newline.
  - change (Jsonl.join (String Jsonl.newline "") (l :: l' :: more))
      with (l +:+ String Jsonl.newline "" +:+ Jsonl.join (String Jsonl.newline "") (l' :: more)).
    rewrite append_cons, append_nil.
    rewrite split_line by now apply blank_or_line_no_newline.
    rewrite IH by discriminate. reflexivity.
Qed.

Lemma strip_end_Forall (P : string -> Prop) (lines : list string) :
  Forall P lines -> Forall P (strip_end lines).
Proof.
  intros H. unfold strip_end. apply Forall_rev, drop_blank_Forall, Forall_rev, H.
Qed.

Lemma filter_rev {A : Type} (p : A -> bool) (l : list A) :
  List.filter p (rev l) = rev (List.filter p l).
Proof.
  induction l as [|a l IH]; [reflexivity|].
  cbn [rev List.filter]. rewrite List.filter_app, IH. cbn [List.filter].
  destruct (p a); cbn [rev]; [reflexivity | now rewrite app_nil_r].
Qed.

Lemma strip_end_filter (lines : list string) :
  List.filter Js.truthy (strip_end lines) = List.filter Js.truthy lines.
Proof.
  unfold strip_end. rewrite filter_rev, drop_blank_filter, filter_rev. apply rev_involutive.
Qed.

(** What [load] makes of a text: its lines that are not blank. *)
Lemma lines_of_unlines (lines : list string) :
  Forall blank_or_line lines ->
  List.filter Js.truthy (Jsonl.split Jsonl.newline (Js.trim (Jsonl.unlines lines)))
  = List.filter Js.truthy lines.
Proof.
  intros Hall. unfold Js.trim.
  rewrite trimStart_unlines by exact Hall.
  rewrite trimEnd_unlines by now apply drop_blank_Forall.
  rewrite <- (drop_blank_filter lines), <- (strip_end_filter (drop_blank lines)).
  destruct (strip_end (drop_blank lines)) as [|l more] eqn:Hs; [reflexivity|].
  rewrite split_join; [reflexivity| |discriminate].
  rewrite <- Hs. now apply strip_end_Forall, drop_blank_Forall.
Qed.

Section JsonlFacts.

Variable Value : Type.
Variable stringify : Item.t -> string.
Variable stringify_pretty : Item.t -> string.
Variable parse : string -> option Value.


(** X22.  [load] on a file whose lines are blank or lines of text returns
    what [JSON.parse] makes of the lines that are not blank, in order,
    leaving out those it rejects, so never more values than lines; a file
    that does not exist loads as the empty list. *)
Theorem load_tolerates (lines : list string) :
  Forall blank_or_line lines ->
  Jsonl.load Value parse (Some (Jsonl.unlines lines))
  = Jsonl.parse_lines Value parse (List.filter Js.truthy lines)
  /\ (length (Jsonl.load Value parse (Some (Jsonl.unlines lines))) <= length lines)%nat
  /\ Jsonl.load Value parse None = [].
Proof.
  intros Hall. unfold Jsonl.load. rewrite lines_of_unlines by exact Hall.
  split; [reflexivity|]. split; [|reflexivity].
  induction lines as [|l more IH]; [cbn; lia|].
  inversion Hall; subst. cbn [List.filter]. destruct (Js.truthy l); cbn [Jsonl.parse_lines length].
  - destruct (parse l); cbn [length]; specialize (IH ltac:(assumption)); lia.
  - specialize (IH ltac:(assumption)). lia.
Qed.

Lemma parse_lines_stringify (value_of : Item.t -> Value) (items : list Item.t) :
  (forall item, In item items -> parse (stringify item) = Some (value_of item)) ->
  Jsonl.parse_lines Value parse (map stringify items) = map value_of items.
Proof.
  induction items as [|item more IH]; intros Hround; [reflexivity|].
  cbn [map Jsonl.parse_lines]. rewrite (Hround item) by now left.
  rewrite IH; [reflexivity|]. intros i Hi. apply Hround. now right.
Qed.

Lemma filter_lines (lines : list string) :
  Forall (fun l => Jsonl.is_line l = true) lines -> List.filter Js.truthy lines = lines.
Proof.
  induction 1 as [|l more Hl Hmore IH]; [reflexivity|].
  cbn [List.filter]. now rewrite (is_line_truthy l Hl), IH.
Qed.

Lemma saved_text (items : list Item.t) :
  Jsonl.join (String Jsonl.newline "") (map stringify items) +:+ String Jsonl.newline ""
  = Jsonl.unlines (match items with [] => [""] | _ => map stringify items end).
Proof. rewrite join_unlines. now destruct items. Qed.

Lemma saved_lines (items : list Item.t) :
  (forall item, In item items -> Jsonl.is_line (stringify item) = true) ->
  Forall blank_or_line (match items with [] => [""] | _ => map stringify items end)
  /\ List.filter Js.truthy (match items with [] => [""] | _ => map stringify items end)
     = map stringify items.
Proof.
  intros Hline.
  assert (Hall : Forall (fun l => Jsonl.is_line l = true) (map stringify items)).
  { apply List.Forall_forall. intros l Hl. apply in_map_iff in Hl as (i & <- & Hi). now apply Hline. }
  destruct items as [|i more].
  - split; [constructor; [now left | constructor] | reflexivity].
  - split; [|now apply filter_lines].
    eapply Forall_impl; [exact Hall|]. intros l Hl. now right.
Qed.

(** X23.  With the defaults (overwrite, not pretty), [load] after [save]
    returns the records saved, in order, whatever the file held before,
    provided [JSON.stringify] writes each record as one line of text that
    [JSON.parse] reads back; after [clear] nothing is loaded. *)
Theorem save_load_round_trip (value_of : Item.t -> Value) (items : list Item.t)
    (file : Jsonl.File) :
  (forall item, In item items ->
     Jsonl.is_line (stringify item) = true
     /\ parse (stringify item) = Some (value_of item)) ->
  Jsonl.load Value parse (Jsonl.save stringify stringify_pretty (Jsonl.mkOptions false false) items file) = map value_of items
  /\ Jsonl.load Value parse (Jsonl.clear (Jsonl.save stringify stringify_pretty (Jsonl.mkOptions false false) items file)) = [].
Proof.
  intros Hcodec. split; [|reflexivity].
  unfold Jsonl.save. cbn [Jsonl.append Jsonl.pretty]. rewrite saved_text.
  destruct (saved_lines items (fun i Hi => proj1 (Hcodec i Hi))) as [Hall Hfilter].
  unfold Jsonl.load. rewrite lines_of_unlines by exact Hall. rewrite Hfilter.
  apply parse_lines_stringify. intros i Hi. now apply Hcodec.
Qed.

(** X24.  In append mode a second [save] adds to the file: [load] then
    returns the records of the first save followed by those of the second;
    appending to a file that does not exist creates it. *)
Theorem save_append_accumulates (value_of : Item.t -> Value) (first second : list Item.t)
    (file : Jsonl.File) :
  (forall item, In item (first ++ second) ->
     Jsonl.is_line (stringify item) = true
     /\ parse (stringify item) = Some (value_of item)) ->
  Jsonl.load Value parse (Jsonl.save stringify stringify_pretty (Jsonl.mkOptions true false) second
          (Jsonl.save stringify stringify_pretty (Jsonl.mkOptions false false) first file))
  = map value_of (first ++ second)
  /\ Jsonl.load Value parse (Jsonl.save stringify stringify_pretty (Jsonl.mkOptions true false) second None) = map value_of second.
Proof.
  intros Hcodec.
  assert (H1 : forall item, In item first -> Jsonl.is_line (stringify item) = true).
  { intros i Hi. apply Hcodec, in_app_iff. now left. }
  assert (H2 : forall item, In item second -> Jsonl.is_line (stringify item) = true).
  { intros i Hi. apply Hcodec, in_app_iff. now right. }
  destruct (saved_lines first H1) as [Hall1 Hfilter1].
  destruct (saved_lines second H2) as [Hall2 Hfilter2].
  unfold Jsonl.save. cbn [Jsonl.append Jsonl.pretty]. rewrite !saved_text. split.
  - rewrite <- unlines_app. unfold Jsonl.load.
    rewrite lines_of_unlines by (apply Forall_app; now split).
    rewrite List.filter_app, Hfilter1, Hfilter2, <- map_app.
    apply parse_lines_stringify. intros i Hi. now apply Hcodec.
  - unfold Jsonl.load. rewrite lines_of_unlines by exact Hall2. rewrite Hfilter2.
    apply parse_lines_stringify. intros i Hi. apply Hcodec, in_app_iff. now right.
Qed.

End JsonlFacts.

(** ** White space after cleaning *)

Lemma trimStart_no_space (s : string) : starts_with_space (Js.trimStart s) = false.
Proof.
  induction s as [|c s IH]; [reflexivity|]. cbn [Js.trimStart].
  destruct (Js.is_space c) eqn:Hc; [exact IH|]. cbn. exact Hc.
Qed.

Lemma trimStart_suffix (s : string) :
  exists sp, s = sp +:+ Js.trimStart s /\ all_units Js.is_space sp = true.
Proof.
  induction s as [|c s (sp & Hs & Hsp)]; [now exists ""|]. cbn [Js.trimStart].
  destruct (Js.is_space c) eqn:Hc.
  - exists (String c sp). rewrite append_cons, <- Hs. cbn [all_units]. now rewrite Hc, Hsp.
  - now exists "".
Qed.

Lemma rev_units_append (a b : string) :
  Js.rev_units (a +:+ b) "" = Js.rev_units b "" +:+ Js.rev_units a "".
Proof.
  rewrite rev_units_app.
  assert (H : forall s acc, Js.rev_units s acc = Js.rev_units s "" +:+ acc).
  { induction s as [|c s IH]; intros acc; [reflexivity|].
    cbn [Js.rev_units]. rewrite (IH (String c acc)), (IH (String c "")).
    rewrite append_assoc. reflexivity. }
  apply H.
Qed.

Lemma rev_units_involutive (s : string) : Js.rev_units (Js.rev_units s "") "" = s.
Proof. rewrite rev_units_rev. cbn. apply append_nil_r. Qed.

Lemma all_units_rev (p : ascii -> bool) (s : string) :
  all_units p (Js.rev_units s "") = all_units p s.
Proof.
  assert (H : forall s acc, all_units p (Js.rev_units s acc) = all_units p s && all_units p acc).
  { induction s0 as [|c s0 IH]; intros acc; [reflexivity|].
    cbn [Js.rev_units all_units]. rewrite IH. cbn [all_units].
    destruct (p c), (all_units p s0); reflexivity. }
  rewrite H. cbn. apply andb_true_r.
Qed.

(** [trimEnd] cuts white space off the end, and only that. *)
Lemma trimEnd_prefix (s : string) :
  exists sp, s = Js.trimEnd s +:+ sp /\ all_units Js.is_space sp = true.
Proof.
  unfold Js.trimEnd.
  destruct (trimStart_suffix (Js.rev_units s "")) as (sp & Hs & Hsp).
  exists (Js.rev_units sp ""). split; [|now rewrite all_units_rev].
  rewrite <- rev_units_append, <- Hs. symmetry. apply rev_units_involutive.
Qed.

Lemma last_unit_cons (c : ascii) (s : string) : Jsonl.last_unit (String c s) <> None.
Proof.
  revert c. induction s as [|d s IH]; intros c; [discriminate|].
  change (Jsonl.last_unit (String c (String d s))) with (Jsonl.last_unit (String d s)).
  apply IH.
Qed.

Lemma last_unit_rev (s : string) :
  Jsonl.last_unit s = Jsonl.first_unit (Js.rev_units s "").
Proof.
  assert (H : forall s acc, Jsonl.first_unit (Js.rev_units s acc)
                            = match Jsonl.last_unit s with
                              | Some c => Some c
                              | None => Jsonl.first_unit acc
                              end).
  { induction s0 as [|c s0 IH]; intros acc; [reflexivity|].
    cbn [Js.rev_units]. rewrite IH. destruct s0 as [|d s0]; [reflexivity|].
    change (Jsonl.last_unit (String c (String d s0))) with (Jsonl.last_unit (String d s0)).
    pose proof (last_unit_cons d s0) as Hne.
    now destruct (Jsonl.last_unit (String d s0)). }
  rewrite H. now destruct (Jsonl.last_unit s).
Qed.

Lemma trimEnd_no_space (s : string) : ends_with_space (Js.trimEnd s) = false.
Proof.
  unfold ends_with_space, Js.trimEnd. rewrite last_unit_rev, rev_units_involutive.
  pose proof (trimStart_no_space (Js.rev_units s "")) as H.
  now destruct (Js.trimStart (Js.rev_units s "")).
Qed.

Lemma single_spaced_tail (c : ascii) (s : string) :
  single_spaced (String c s) = true -> single_spaced s = true.
Proof. cbn [single_spaced]. intros H. now apply andb_true_iff in H. Qed.

Lemma single_spaced_suffix (a b : string) :
  single_spaced (a +:+ b) = true -> single_spaced b = true.
Proof.
  induction a as [|c a IH]; [trivial|]. rewrite append_cons. intros H.
  apply IH. exact (single_spaced_tail _ _ H).
Qed.

Lemma starts_with_space_append (a b : string) :
  starts_with_space a = true -> starts_with_space (a +:+ b) = true.
Proof. destruct a; [discriminate | trivial]. Qed.

Lemma single_spaced_prefix (a b : string) :
  single_spaced (a +:+ b) = true -> single_spaced a = true.
Proof.
  induction a as [|c a IH]; [reflexivity|]. rewrite append_cons. cbn [single_spaced].
  intros H. apply andb_true_iff in H as [Hc Hrest]. rewrite (IH Hrest), andb_true_r.
  destruct (Js.is_space c); [|reflexivity].
  apply andb_true_iff in Hc as [Heq Hnext]. rewrite Heq. cbn [andb].
  apply negb_true_iff in Hnext. apply negb_true_iff.
  destruct (starts_with_space a) eqn:Ha; [|reflexivity].
  now rewrite (starts_with_space_append a b Ha) in Hnext.
Qed.

Lemma starts_with_space_prefix (a b : string) :
  starts_with_space (a +:+ b) = false -> starts_with_space a = false.
Proof.
  intros H. destruct (starts_with_space a) eqn:Ha; [|reflexivity].
  now rewrite (starts_with_space_append a b Ha) in H.
Qed.

(** [trim] keeps single spacing and leaves no white space at the ends. *)
Lemma trim_normalised (s : string) :
  single_spaced s = true -> normalised (Js.trim s) = true.
Proof.
  intros Hs. unfold normalised, Js.trim.
  destruct (trimStart_suffix s) as (sp & Hsuffix & _).
  destruct (trimEnd_prefix (Js.trimStart s)) as (sp' & Hprefix & _).
  assert (Hmid : single_spaced (Js.trimStart s) = true).
  { apply (single_spaced_suffix sp). now rewrite <- Hsuffix. }
  rewrite Hprefix in Hmid. rewrite (single_spaced_prefix _ _ Hmid).
  rewrite trimEnd_no_space.
  pose proof (trimStart_no_space s) as Hstart. rewrite Hprefix in Hstart.
  now rewrite (starts_with_space_prefix _ _ Hstart).
Qed.

Lemma space_class (c : ascii) :
  class_matches false [(9, 13); (32, 32); (160, 160)] c = Js.is_space c.
Proof.
  unfold class_matches, in_ranges, Js.is_space, Js.in_range. cbn [existsb fst snd andb].
  rewrite !orb_false_r.
  destruct (Z.leb_spec 32 (Js.code c)), (Z.leb_spec (Js.code c) 32),
           (Z.leb_spec 160 (Js.code c)), (Z.leb_spec (Js.code c) 160),
           (Z.eqb_spec (Js.code c) 32), (Z.eqb_spec (Js.code c) 160);
    cbn [andb orb]; try reflexivity; try lia; now rewrite ?orb_true_r, ?orb_false_r.
Qed.

(** The greedy [\s*] stops at the first unit that is not white space. *)
Lemma star_space_run (fuel : nat) (p : option ascii) (t : string) (cs : list (nat * string)) :
  (String.length t <= fuel)%nat ->
  exists p', space_loop fuel (mkSt p t cs) = Some (mkSt p' (Js.trimStart t) cs).
Proof.
  revert p t. induction fuel as [|fuel IH]; intros p t Hfuel.
  - destruct t; [|cbn in Hfuel; lia]. now exists p.
  - destruct t as [|c t]; [now exists p|].
    change (space_loop (S fuel) (mkSt p (String c t) cs))
      with (match (if class_matches false [(9, 13); (32, 32); (160, 160)] c
                   then (if progressed (mkSt p (String c t) cs) (mkSt (Some c) t cs)
                         then space_loop fuel (mkSt (Some c) t cs) else None)
                   else None) with
            | Some e => Some e
            | None => Some (mkSt p (String c t) cs)
            end).
    rewrite space_class. cbn [Js.trimStart]. destruct (Js.is_space c); [|now exists p].
    unfold progressed. cbn [rest String.length].
    replace (String.length t <? S (String.length t))%nat with true
      by (symmetry; apply Nat.ltb_lt; lia).
    destruct (IH (Some c) t ltac:(cbn in Hfuel; lia)) as (p' & ->). now exists p'.
Qed.

Lemma match_at_spaces (p : option ascii) (t : string) :
  match t with
  | String c t' =>
      if Js.is_space c
      then exists mt p', match_at false (plus space) p t
                         = Some (mt, mkSt p' (Js.trimStart t') [])
      else match_at false (plus space) p t = None
  | EmptyString => match_at false (plus space) p t = None
  end.
Proof.
  destruct t as [|c t']; [reflexivity|].
  change (match_at false (plus space) p (String c t'))
    with (match (if class_matches false [(9, 13); (32, 32); (160, 160)] c
                 then space_loop (String.length t') (mkSt (Some c) t' [])
                 else None) with
          | Some e => Some (consumed (mkSt p (String c t') []) e, e)
          | None => None
          end).
  rewrite space_class.
  destruct (Js.is_space c); [|reflexivity].
  destruct (star_space_run (String.length t') (Some c) t' [] (Nat.le_refl _)) as (p' & ->).
  eauto.
Qed.

(** The first run of white space of a text. *)
Lemma exec_from_spaces (t : string) (p : option ascii) :
  (exec_from false (plus space) p t = None
   /\ all_units (fun c => negb (Js.is_space c)) t = true)
  \/ (exists sk c t' mt p',
        exec_from false (plus space) p t = Some (sk, mt, mkSt p' (Js.trimStart t') [])
        /\ t = sk +:+ String c t'
        /\ all_units (fun c => negb (Js.is_space c)) sk = true
        /\ Js.is_space c = true).
Proof.
  revert p. induction t as [|c t IH]; intros p.
  - left. now split.
  - pose proof (match_at_spaces p (String c t)) as Hm. cbv beta iota in Hm.
    cbn [exec_from]. destruct (Js.is_space c) eqn:Hc.
    + destruct Hm as (mt & p' & ->). right. exists "", c, t, mt, p'. repeat split. exact Hc.
    + rewrite Hm. destruct (IH (Some c)) as [[-> Hall] | (sk & d & t' & mt & p' & -> & -> & Hsk & Hd)].
      * left. split; [reflexivity|]. cbn [all_units]. now rewrite Hc, Hall.
      * right. exists (String c sk), d, t', mt, p'. rewrite append_cons.
        repeat split; [|exact Hd]. cbn [all_units]. now rewrite Hc, Hsk.
Qed.

Lemma single_spaced_words (sk rest : string) :
  all_units (fun c => negb (Js.is_space c)) sk = true ->
  single_spaced (sk +:+ rest) = single_spaced rest.
Proof.
  induction sk as [|c sk IH]; [reflexivity|]. cbn [all_units]. intros H.
  apply andb_true_iff in H as [Hc Hsk]. apply negb_true_iff in Hc.
  rewrite append_cons. cbn [single_spaced]. rewrite Hc. now apply IH.
Qed.

Lemma trimStart_length (s : string) : (String.length (Js.trimStart s) <= String.length s)%nat.
Proof.
  induction s as [|c s IH]; [reflexivity|]. cbn [Js.trimStart].
  destruct (Js.is_space c); cbn [String.length]; lia.
Qed.

(** Collapsing the runs of white space. *)
Lemma collapse_spaces (fuel : nat) (p : option ascii) (t : string) :
  (String.length t < fuel)%nat ->
  single_spaced (replace_from false fuel (plus space) " " p t) = true
  /\ (starts_with_space t = false ->
      starts_with_space (replace_from false fuel (plus space) " " p t) = false).
Proof.
  revert p t. induction fuel as [|fuel IH]; intros p t Hfuel; [lia|].
  cbn [replace_from].
  destruct (exec_from_spaces t p)
    as [[-> Hall] | (sk & c & t' & mt & p' & -> & -> & Hsk & Hc)].
  - split; [|trivial]. rewrite <- (append_nil_r t). rewrite single_spaced_words by exact Hall.
    reflexivity.
  - rewrite drop_units_append. unfold progressed. cbn [rest String.length].
    pose proof (trimStart_length t') as Hlen.
    replace (String.length (Js.trimStart t') <? S (String.length t'))%nat with true
      by (symmetry; apply Nat.ltb_lt; lia).
    cbn [prev rest].
    rewrite append_length in Hfuel. cbn [String.length] in Hfuel.
    destruct (IH p' (Js.trimStart t') ltac:(lia)) as [Hsingle Hstart].
    specialize (Hstart (trimStart_no_space t')).
    split.
    + rewrite single_spaced_words by exact Hsk. rewrite append_cons, append_nil.
      cbn [single_spaced]. change (Js.is_space " ") with true. cbv iota.
      now rewrite Ascii.eqb_refl, Hstart, Hsingle.
    + intros Ht. destruct sk as [|d sk]; [|exact Ht].
      rewrite append_nil in Ht. cbn in Ht. congruence.
Qed.

Lemma replace_spaces_single (s : string) :
  single_spaced (replace_all false (plus space) " " s) = true.
Proof. unfold replace_all. apply collapse_spaces. lia. Qed.

Lemma normalised_ends (s : string) :
  normalised s = true -> starts_with_space s = false /\ ends_with_space s = false.
Proof.
  unfold normalised. intros H. apply andb_true_iff in H as [H Hend].
  apply andb_true_iff in H as [_ Hstart]. apply negb_true_iff in Hstart, Hend. now split.
Qed.

Lemma cleanText_single_spaced (text : string) :
  normalised (stripHtml text) = true /\ normalised (cleanText text) = true.
Proof.
  unfold stripHtml, cleanText.
  destruct (negb (Js.truthy text)); [split; reflexivity|].
  split; apply trim_normalised, replace_spaces_single.
Qed.

Lemma cleanText_ends (text : string) :
  starts_with_space (cleanText text) = false /\ ends_with_space (cleanText text) = false.
Proof. apply normalised_ends, cleanText_single_spaced. Qed.

(** X25.  The white space of [stripHtml] and [cleanText] is normalised:
    the result has no white space at either end, and every white-space
    unit in it is a single space between two other units.  So are the
    title and the content text of every record [normalizeItem] returns. *)
Theorem cleanText_normalised {host : Host} (text : string) :
  normalised (stripHtml text) = true
  /\ normalised (cleanText text) = true
  /\ forall item w out w',
       normalizeItem item w = (Normal out, w') ->
       normalised (Item.title out) = true /\ normalised (Item.content_text out) = true.
Proof.
  split; [apply cleanText_single_spaced|]. split; [apply cleanText_single_spaced|].
  intros item w out w'. unfold normalizeItem.
  destruct (total_or_now (Partial.published_at item) w) as (p & w1 & Hp).
  destruct (total_or_now (Partial.fetched_at item) w1) as (f & w2 & Hf).
  rewrite (bind_run _ _ _ _ _ Hp), (bind_run _ _ _ _ _ Hf).
  intros [= <- _]. cbn [Item.title Item.content_text].
  split; [apply cleanText_single_spaced|].
  unfold clean_if_set. destruct (Partial.content_text item) as [c|]; [|reflexivity].
  destruct (Js.truthy c); [apply cleanText_single_spaced | reflexivity].
Qed.

(** ** The length of a summary *)

Lemma lastIndexOf_from_range (c : ascii) (s : string) (i found : Z) :
  -1 <= found < i ->
  -1 <= Js.lastIndexOf_from i c s found < i + Z.of_nat (String.length s).
Proof.
  revert i found. induction s as [|d s IH]; intros i found Hf; cbn [Js.lastIndexOf_from String.length].
  - lia.
  - specialize (IH (i + 1) (if Ascii.eqb c d then i else found)).
    destruct (Ascii.eqb c d); lia.
Qed.

Lemma lastIndexOf_range (s : string) (c : ascii) : -1 <= Js.lastIndexOf s c < Js.len s.
Proof.
  unfold Js.lastIndexOf, Js.len. pose proof (lastIndexOf_from_range c s 0 (-1)). lia.
Qed.

Lemma nonneg_float (x : float) :
  PrimFloat.leb 0 x = true ->
  match Prim2SF x with
  | S754_zero _ => True
  | S754_infinity s => s = false
  | S754_nan => False
  | S754_finite s _ _ => s = false
  end.
Proof.
  rewrite FloatAxioms.leb_spec. change (Prim2SF 0) with (S754_zero false).
  destruct (Prim2SF x) as [s|s| |s mant e]; cbn; try destruct s; intros H;
    try discriminate; reflexivity.
Qed.

(** The product of a non-negative number with 0.7 is not below -1. *)
Lemma scaled_not_below (x : float) :
  PrimFloat.leb 0 x = true -> gt (Js.num (-1)) (mul x Js.lit_0_7) = false.
Proof.
  intros Hx. apply nonneg_float in Hx. unfold gt, mul.
  rewrite FloatAxioms.ltb_spec, FloatAxioms.mul_spec.
  change (Prim2SF (Js.num (-1))) with (S754_finite true 4503599627370496 (-52)).
  change (Prim2SF Js.lit_0_7) with (S754_finite false 6305039478318694 (-53)).
  destruct (Prim2SF x) as [s|s| |s mant e]; try contradiction.
  - now destruct s.
  - now subst s.
  - subst s. unfold SF64mul, SFmul, binary_round_aux. cbn [xorb].
    destruct (shr_fexp _ _ _ _ _) as [mrs' e'].
    destruct (shr_fexp _ _ _ _ _) as [mrs'' e''].
    destruct (shr_m mrs'') as [|mz|mz]; [reflexivity| |reflexivity].
    now destruct (e'' <=? _).
Qed.

Lemma toInteger_nonneg (x : float) (n : Z) :
  PrimFloat.leb 0 x = true -> Js.toIntegerOrInfinity x = Js.Int n -> 0 <= n.
Proof.
  intros Hx. apply nonneg_float in Hx. unfold Js.toIntegerOrInfinity.
  destruct (Prim2SF x) as [s|s| |s mant e]; try contradiction.
  - intros [= <-]. lia.
  - subst s. discriminate.
  - subst s. intros [= <-]. destruct (0 <=? e).
    + apply Z.shiftl_nonneg. lia.
    + apply Z.shiftr_nonneg. lia.
Qed.

Lemma slice0_take (s : string) (e : Js.integer_or_inf) :
  exists k, Js.slice0 s e = Js.take_units k s.
Proof. unfold Js.slice0. eauto. Qed.

Lemma slice0_length (s : string) (e : Z) :
  0 <= e -> Js.len (Js.slice0 s (Js.Int e)) <= e.
Proof.
  intros He. unfold Js.slice0, Js.len. rewrite take_units_length.
  destruct (Z.ltb_spec e 0); lia.
Qed.

(** X26.  A summary is a prefix of the cleaned text, possibly followed by
    an ellipsis.  For a [maxLength] that is not negative and truncates to
    the integer [n], the summary is the cleaned text itself or has at most
    [n + 3] units. *)
Theorem extractSummary_bounded (content : string) (maxLength : float) :
  (exists k, extractSummary content maxLength = Js.take_units k (cleanText content)
             \/ extractSummary content maxLength
                = Js.take_units k (cleanText content) +:+ "...")
  /\ (forall n, PrimFloat.leb 0 maxLength = true ->
        Js.toIntegerOrInfinity maxLength = Js.Int n ->
        extractSummary content maxLength = cleanText content
        \/ Js.len (extractSummary content maxLength) <= n + 3).
Proof.
  unfold extractSummary.
  destruct (Js.truthy content) eqn:Htruthy; cbn [negb].
  2: { unfold Js.truthy in Htruthy. apply negb_false_iff, String.eqb_eq in Htruthy. subst.
       split; [exists 0%nat; now left | intros; now left]. }
  set (clean := cleanText content).
  destruct (le (Js.num (Js.len clean)) maxLength).
  { split; [|intros; now left]. exists (String.length clean). left.
    clear. induction clean as [|c s IH]; [reflexivity|]. cbn. now rewrite <- IH. }
  set (truncated := Js.slice0 clean (Js.toIntegerOrInfinity maxLength)).
  set (boundary := Z.max (Z.max (Js.lastIndexOf truncated ".") (Js.lastIndexOf truncated "?"))
                     (Js.lastIndexOf truncated "!")).
  assert (Hboundary : -1 <= boundary < Js.len truncated).
  { subst boundary. pose proof (lastIndexOf_range truncated ".").
    pose proof (lastIndexOf_range truncated "?"). pose proof (lastIndexOf_range truncated "!").
    lia. }
  pose proof (lastIndexOf_range truncated " ") as Hspace.
  assert (Htruncated : forall n, PrimFloat.leb 0 maxLength = true ->
                                 Js.toIntegerOrInfinity maxLength = Js.Int n ->
                                 Js.len truncated <= n).
  { intros n Hpos Hn. subst truncated. rewrite Hn. apply slice0_length.
    exact (toInteger_nonneg _ _ Hpos Hn). }
  destruct (gt (Js.num boundary) (mul maxLength Js.lit_0_5)).
  { split.
    - destruct (slice0_take clean (Js.Int (boundary + 1))) as (k & ->). exists k. now left.
    - intros n Hpos Hn. right. specialize (Htruncated n Hpos Hn).
      pose proof (slice0_length clean (boundary + 1) ltac:(lia)). lia. }
  destruct (gt (Js.num (Js.lastIndexOf truncated " ")) (mul maxLength Js.lit_0_7)) eqn:Hgt.
  { split.
    - destruct (slice0_take clean (Js.Int (Js.lastIndexOf truncated " "))) as (k & ->).
      exists k. now right.
    - intros n Hpos Hn. right. specialize (Htruncated n Hpos Hn).
      assert (Hfound : 0 <= Js.lastIndexOf truncated " ").
      { destruct (Z.eq_dec (Js.lastIndexOf truncated " ") (-1)) as [Heq|]; [|lia].
        rewrite Heq, (scaled_not_below _ Hpos) in Hgt. discriminate. }
      pose proof (slice0_length clean _ Hfound) as Hlen.
      unfold Js.len in *. rewrite append_length. cbn [String.length]. lia. }
  split.
  - destruct (slice0_take clean (Js.toIntegerOrInfinity maxLength)) as (k & Hk).
    exists k. right. subst truncated. now rewrite Hk.
  - intros n Hpos Hn. right. specialize (Htruncated n Hpos Hn).
    unfold Js.len in *. rewrite append_length. cbn [String.length]. lia.
Qed.

(** ** Authors *)

Lemma trim_ends (s : string) :
  starts_with_space (Js.trim s) = false /\ ends_with_space (Js.trim s) = false.
Proof.
  unfold Js.trim. split; [|apply trimEnd_no_space].
  destruct (trimEnd_prefix (Js.trimStart s)) as (sp & Hprefix & _).
  pose proof (trimStart_no_space s) as Hstart. rewrite Hprefix in Hstart.
  exact (starts_with_space_prefix _ _ Hstart).
Qed.

(** X27.  No name [parseAuthors] returns is empty or has white space at
    either end.  An absent field, the empty string and the empty array give
    no name; an array gives its cleaned entries that are not empty. *)
Theorem parseAuthors_names (authorField : option AuthorField) :
  Forall (fun name => name <> "" /\ starts_with_space name = false
                      /\ ends_with_space name = false)
    (parseAuthors authorField)
  /\ (authorField = None \/ authorField = Some (AuthorString "")
      \/ authorField = Some (AuthorArray []) -> parseAuthors authorField = [])
  /\ (forall names, authorField = Some (AuthorArray names) ->
        parseAuthors authorField = List.filter Js.truthy (map cleanText names)
        /\ (length (parseAuthors authorField) <= length names)%nat).
Proof.
  split; [|split].
  - destruct authorField as [[s|names]|]; cbn [parseAuthors]; [| |constructor].
    + destruct (negb (Js.truthy s)); [constructor|].
      apply List.Forall_forall. intros name Hin. apply filter_In in Hin as [Hin Htruthy].
      apply in_map_iff in Hin as (piece & <- & _).
      split; [intros Heq; rewrite Heq in Htruthy; discriminate | apply trim_ends].
    + apply List.Forall_forall. intros name Hin. apply filter_In in Hin as [Hin Htruthy].
      apply in_map_iff in Hin as (raw & <- & _).
      split; [intros Heq; rewrite Heq in Htruthy; discriminate|].
      destruct (cleanText_ends raw) as [H1 H2]. now split.
  - intros [-> | [-> | ->]]; reflexivity.
  - intros names ->. cbn [parseAuthors]. split; [reflexivity|].
    etransitivity; [apply List.filter_length_le|]. now rewrite length_map.
Qed.

(** ** Fetching a feed through the proxies *)

Section FeedFacts.

Context {host : Host} {network : FeedNetwork host}.

Lemma try_proxy_run (url proxy : string) (w : World) :
  exists found w',
    try_proxy url proxy w = (Normal found, w')
    /\ (forall text, found = Some text ->
          exists response, feed_fetch proxy url w = (Normal response, w')
                           /\ usable response text)
    /\ (forall response w1 text, feed_fetch proxy url w = (Normal response, w1) ->
          usable response text -> found = Some text /\ w' = w1).
Proof.
  unfold try_proxy, try_catch, bind, lift, usable.
  destruct (feed_fetch proxy url w) as [[response|e] w1] eqn:Hfetch.
  - destruct (feed_ok response) eqn:Hok; cbn [negb].
    + destruct (feed_text response) as [text|e] eqn:Htext.
      * destruct (Js.includes text "<") eqn:Hlt; cbn [negb orb].
        -- destruct (Js.includes text "<!DOCTYPE html>") eqn:Hdoc.
           ++ exists None, w1. split; [reflexivity|]. split; [discriminate|].
              intros r w2 t [= <- <-] (_ & Ht & _ & Hd). congruence.
           ++ exists (Some text), w1. split; [reflexivity|]. split.
              ** intros t [= <-]. now exists response.
              ** intros r w2 t [= <- <-] (_ & Ht & _). split; congruence.
        -- exists None, w1. split; [reflexivity|]. split; [discriminate|].
           intros r w2 t [= <- <-] (_ & Ht & Hl & _). congruence.
      * exists None, w1. split; [reflexivity|]. split; [discriminate|].
        intros r w2 t [= <- <-] (_ & Ht & _). congruence.
    + exists None, w1. split; [reflexivity|]. split; [discriminate|].
      intros r w2 t [= <- <-] (Ho & _). congruence.
  - exists None, w1. split; [reflexivity|]. split; [discriminate|].
    intros r w2 t [=].
Qed.

Lemma try_proxies_run (url : string) (proxies : list string) (w : World) :
  exists found w',
    try_proxies url proxies w = (Normal found, w')
    /\ (forall text, found = Some text ->
          Js.includes text "<" = true /\ Js.includes text "<!DOCTYPE html>" = false)
    /\ (forall proxy more response w1 text,
          proxies = proxy :: more ->
          feed_fetch proxy url w = (Normal response, w1) -> usable response text ->
          found = Some text /\ w' = w1).
Proof.
  revert w. induction proxies as [|proxy more IH]; intros w; cbn [try_proxies].
  - exists None, w. split; [reflexivity|]. split; [discriminate|]. discriminate.
  - destruct (try_proxy_run url proxy w) as (found & w1 & Hrun & Hsome & Hfirst).
    rewrite (bind_run _ _ _ _ _ Hrun). destruct found as [text|].
    + exists (Some text), w1. split; [reflexivity|]. split.
      * intros t [= <-]. destruct (Hsome text eq_refl) as (r & _ & _ & _ & Hl & Hd). now split.
      * intros p m r w2 t [= <- <-] Hfetch Husable. exact (Hfirst r w2 t Hfetch Husable).
    + destruct (IH w1) as (found & w2 & Hrest & Hgood & _).
      exists found, w2. split; [exact Hrest|]. split; [exact Hgood|].
      intros p m r w3 t [= <- <-] Hfetch Husable.
      destruct (Hfirst r w3 t Hfetch Husable) as [Habs _]. discriminate.
Qed.

(** X28.  [fetchWithProxy] never throws.  A text it returns contains "<"
    and does not contain "<!DOCTYPE html>".  When the first proxy answers
    with a usable response, that text is returned and no other proxy is
    asked; with no proxy configured one direct request is made. *)
Theorem fetchWithProxy_first_usable (url : string) (corsProxies : list string) (w : World) :
  exists found w',
    fetchWithProxy url corsProxies w = (Normal found, w')
    /\ (forall text, found = Some text ->
          Js.includes text "<" = true /\ Js.includes text "<!DOCTYPE html>" = false)
    /\ (forall proxy more response w1 text,
          corsProxies = proxy :: more ->
          feed_fetch proxy url w = (Normal response, w1) -> usable response text ->
          found = Some text /\ w' = w1)
    /\ (corsProxies = [] -> fetchWithProxy url corsProxies w = try_proxy url "" w).
Proof.
  unfold fetchWithProxy.
  destruct corsProxies as [|proxy more]; cbn [length Nat.ltb Nat.leb].
  - destruct (try_proxies_run url [""] w) as (found & w' & Hrun & Hgood & _).
    exists found, w'. split; [exact Hrun|]. split; [exact Hgood|].
    split; [discriminate|]. intros _. cbn [try_proxies]. unfold bind.
    destruct (try_proxy url "" w) as [[[text|]|e] w1]; reflexivity.
  - destruct (try_proxies_run url (proxy :: more) w) as (found & w' & Hrun & Hgood & Hfirst).
    exists found, w'. split; [exact Hrun|]. split; [exact Hgood|].
    split; [exact Hfirst | discriminate].
Qed.

End FeedFacts.

(** ** Timestamps read back *)

Ltac div_lia := Z.to_euclidean_division_equations; lia.

(** Every day number has a date of the calendar, whose day number it is. *)
Lemma civil_valid (days : Z) :
  let '(y, m, d) := JsDate.civil_from_days days in
  1 <= m <= 12 /\ 1 <= d <= JsDate.days_in_month y m
  /\ JsDate.days_from_civil y m d = days.
Proof.
  unfold JsDate.civil_from_days. cbv zeta.
  set (z := days + 719468). set (era := z / 146097). set (doe := z - era * 146097).
  assert (Hdoe : 0 <= doe < 146097) by (subst doe era; div_lia).
  set (yoe := (doe - doe / 1460 + doe / 36524 - doe / 146096) / 365).
  set (doy := doe - (365 * yoe + yoe / 4 - yoe / 100)).
  assert (Hy : 0 <= yoe < 400 /\ 0 <= doy <= 365) by (subst doy yoe; div_lia).
  assert (Hleap : doy = 365 -> JsDate.is_leap (yoe + era * 400 + 1) = true).
  { intros H365. unfold JsDate.is_leap.
    assert ((yoe + 1) mod 4 = 0 /\ ((yoe + 1) mod 100 <> 0 \/ (yoe + 1) mod 400 = 0))
      as [H4 H100] by (subst doy yoe; div_lia).
    replace ((yoe + era * 400 + 1) mod 4) with ((yoe + 1) mod 4) by div_lia.
    replace ((yoe + era * 400 + 1) mod 100) with ((yoe + 1) mod 100) by div_lia.
    replace ((yoe + era * 400 + 1) mod 400) with ((yoe + 1) mod 400) by div_lia.
    rewrite H4. cbn [Z.eqb andb]. destruct H100 as [H | H].
    - destruct (Z.eqb_spec ((yoe + 1) mod 100) 0); [contradiction | reflexivity].
    - rewrite H. cbn [Z.eqb]. apply orb_true_r. }
  set (mp := (5 * doy + 2) / 153).
  assert (Hmp : 0 <= mp <= 11) by (subst mp; div_lia).
  set (d := doy - (153 * mp + 2) / 5 + 1).
  destruct (Z.ltb_spec mp 10) as [Hlt | Hge].
  - destruct (Z.leb_spec (mp + 3) 2); [lia|].
    split; [lia|]. split.
    + unfold JsDate.days_in_month.
      destruct (Z.eqb_spec (mp + 3) 2); [lia|].
      destruct (Z.eqb_spec (mp + 3) 4), (Z.eqb_spec (mp + 3) 6), (Z.eqb_spec (mp + 3) 9),
               (Z.eqb_spec (mp + 3) 11); cbn [orb]; subst d mp; div_lia.
    + unfold JsDate.days_from_civil. destruct (Z.leb_spec (mp + 3) 2); [lia|].
      replace ((mp + 3 + 9) mod 12) with mp by div_lia.
      replace ((yoe + era * 400) / 400) with era by div_lia.
      subst d doy doe z. div_lia.
  - destruct (Z.leb_spec (mp - 9) 2); [|lia].
    split; [lia|]. split.
    + unfold JsDate.days_in_month.
      destruct (Z.eqb_spec (mp - 9) 2) as [H2|H2].
      * assert (mp = 11) by lia.
        destruct (Z.eq_dec doy 365) as [H365|H365].
        -- rewrite (Hleap H365). subst d mp. div_lia.
        -- destruct (JsDate.is_leap _); subst d mp; div_lia.
      * destruct (Z.eqb_spec (mp - 9) 4), (Z.eqb_spec (mp - 9) 6), (Z.eqb_spec (mp - 9) 9),
                 (Z.eqb_spec (mp - 9) 11); cbn [orb]; subst d mp; div_lia.
    + unfold JsDate.days_from_civil. destruct (Z.leb_spec (mp - 9) 2); [|lia].
      replace ((mp - 9 + 9) mod 12) with mp by div_lia.
      replace ((yoe + era * 400 + 1 - 1) / 400) with era by div_lia.
      subst d doy doe z. div_lia.
Qed.

(** The years of the day numbers from 1970 to the end of 9999. *)
Lemma civil_year_range (y m d : Z) :
  1 <= m <= 12 -> 1 <= d <= 31 ->
  0 <= JsDate.days_from_civil y m d < 2932897 -> 0 <= y <= 9999.
Proof.
  unfold JsDate.days_from_civil. intros Hm Hd.
  destruct (Z.leb_spec m 2); intros Hdays; div_lia.
Qed.

Lemma days_in_month_max (y m : Z) : JsDate.days_in_month y m <= 31.
Proof.
  unfold JsDate.days_in_month.
  destruct (m =? 2); [destruct (JsDate.is_leap y); lia|].
  destruct ((m =? 4) || (m =? 6) || (m =? 9) || (m =? 11)); lia.
Qed.

Lemma digit10_is_digit (n : Z) : Js.is_digit (Js.digit10 n) = true.
Proof.
  unfold Js.is_digit, Js.in_range, Js.digit10. fold (Js.unit_of (48 + n mod 10)).
  rewrite code_unit_of by div_lia.
  apply andb_true_iff. split; apply Z.leb_le; div_lia.
Qed.

Lemma code_digit10 (n : Z) : Js.code (Js.digit10 n) - 48 = n mod 10.
Proof.
  unfold Js.digit10. fold (Js.unit_of (48 + n mod 10)).
  rewrite code_unit_of by div_lia. lia.
Qed.

Lemma digits_value_pad10 (width : nat) (n acc : Z) (s : string) :
  JsDate.digits_value acc (Js.pad10 width n s)
  = JsDate.digits_value (acc * 10 ^ Z.of_nat width + n mod 10 ^ Z.of_nat width) s.
Proof.
  revert n acc s. induction width as [|width IH]; intros n acc s.
  - cbn [Js.pad10]. f_equal. change (10 ^ Z.of_nat 0) with 1. rewrite Z.mod_1_r. lia.
  - cbn [Js.pad10]. rewrite IH. cbn [JsDate.digits_value]. f_equal.
    rewrite code_digit10, Nat2Z.inj_succ, Z.pow_succ_r by lia.
    rewrite (Z.rem_mul_r n 10 (10 ^ Z.of_nat width)) by lia. lia.
Qed.

Lemma pad10_value (width : nat) (n : Z) :
  0 <= n < 10 ^ Z.of_nat width -> JsDate.digits_value 0 (Js.pad10 width n "") = n.
Proof.
  intros Hn. rewrite digits_value_pad10. cbn [JsDate.digits_value].
  rewrite Z.mod_small by exact Hn. lia.
Qed.

(** The equations of the matcher. *)
Lemma m_Seq (icase : bool) (r1 r2 : re) (s : st) (k : st -> option st) :
  m icase (r1 # r2) s k = m icase r1 s (fun s' => m icase r2 s' k).
Proof. reflexivity. Qed.

Lemma m_Group (icase : bool) (n : nat) (r : re) (s : st) (k : st -> option st) :
  m icase (Group n r) s k
  = m icase r s (fun s' => k (mkSt (prev s') (rest s') ((n, consumed s s') :: caps s'))).
Proof. reflexivity. Qed.

Lemma m_Eps (icase : bool) (s : st) (k : st -> option st) : m icase Eps s k = k s.
Proof. reflexivity. Qed.

Lemma m_Bol (icase : bool) (t : string) (cs : list (nat * string)) (k : st -> option st) :
  m icase Bol (mkSt None t cs) k = k (mkSt None t cs).
Proof. reflexivity. Qed.

Lemma m_Eol (icase : bool) (p : option ascii) (cs : list (nat * string))
    (k : st -> option st) :
  m icase Eol (mkSt p "" cs) k = k (mkSt p "" cs).
Proof. reflexivity. Qed.

Lemma m_Opt (icase : bool) (r : re) (s : st) (k : st -> option st) :
  m icase (Opt r) s k
  = match m icase r s (fun s' => if progressed s s' then k s' else None) with
    | Some e => Some e
    | None => k s
    end.
Proof. reflexivity. Qed.

Lemma m_Chr (c : ascii) (p : option ascii) (t : string) (cs : list (nat * string))
    (k : st -> option st) :
  m false (Chr c) (mkSt p (String c t) cs) k = k (mkSt (Some c) t cs).
Proof. cbn [m]. unfold step_if, unit_matches. cbn [rest caps]. now rewrite Ascii.eqb_refl. Qed.

Lemma m_digit (d : ascii) (p : option ascii) (t : string) (cs : list (nat * string))
    (k : st -> option st) :
  Js.is_digit d = true -> m false digit (mkSt p (String d t) cs) k = k (mkSt (Some d) t cs).
Proof.
  intros H. unfold digit. cbn [m]. unfold step_if. cbn [rest caps].
  now rewrite digit_class, H.
Qed.

Lemma m_digits2 (n : nat) (a b : ascii) (p : option ascii) (t : string)
    (cs : list (nat * string)) (k : st -> option st) :
  Js.is_digit a = true -> Js.is_digit b = true ->
  m false (Group n (times 2 digit)) (mkSt p (String a (String b t)) cs) k
  = k (mkSt (Some b) t ((n, String a (String b "")) :: cs)).
Proof.
  intros Ha Hb. cbn [times]. rewrite m_Group.
  repeat (first [rewrite m_Seq | rewrite m_Eps | rewrite m_digit by assumption]; cbv beta).
  unfold consumed. cbn [rest prev caps String.length].
  replace (S (S (String.length t)) - String.length t)%nat with 2%nat by lia. reflexivity.
Qed.

Lemma m_digits3 (n : nat) (a b c : ascii) (p : option ascii) (t : string)
    (cs : list (nat * string)) (k : st -> option st) :
  Js.is_digit a = true -> Js.is_digit b = true -> Js.is_digit c = true ->
  m false (Group n (times 3 digit)) (mkSt p (String a (String b (String c t))) cs) k
  = k (mkSt (Some c) t ((n, String a (String b (String c ""))) :: cs)).
Proof.
  intros Ha Hb Hc. cbn [times]. rewrite m_Group.
  repeat (first [rewrite m_Seq | rewrite m_Eps | rewrite m_digit by assumption]; cbv beta).
  unfold consumed. cbn [rest prev caps String.length].
  replace (S (S (S (String.length t))) - String.length t)%nat with 3%nat by lia. reflexivity.
Qed.

Lemma m_digits4 (n : nat) (a b c d : ascii) (p : option ascii) (t : string)
    (cs : list (nat * string)) (k : st -> option st) :
  Js.is_digit a = true -> Js.is_digit b = true -> Js.is_digit c = true ->
  Js.is_digit d = true ->
  m false (Group n (times 4 digit)) (mkSt p (String a (String b (String c (String d t)))) cs) k
  = k (mkSt (Some d) t ((n, String a (String b (String c (String d "")))) :: cs)).
Proof.
  intros Ha Hb Hc Hd. cbn [times]. rewrite m_Group.
  repeat (first [rewrite m_Seq | rewrite m_Eps | rewrite m_digit by assumption]; cbv beta).
  unfold consumed. cbn [rest prev caps String.length].
  replace (S (S (S (S (String.length t)))) - String.length t)%nat with 4%nat by lia.
  reflexivity.
Qed.

Lemma progressed_shorter (p p' : option ascii) (t t' : string) (cs cs' : list (nat * string)) :
  (String.length t' < String.length t)%nat ->
  progressed (mkSt p t cs) (mkSt p' t' cs') = true.
Proof. intros H. unfold progressed. cbn [rest]. now apply Nat.ltb_lt. Qed.

(** The date-time form with every field a run of digits. *)
Lemma utc_format_digits (y1 y2 y3 y4 mo1 mo2 d1 d2 h1 h2 mi1 mi2 s1 s2 f1 f2 f3 : ascii) :
  Forall (fun c => Js.is_digit c = true)
    [y1; y2; y3; y4; mo1; mo2; d1; d2; h1; h2; mi1; mi2; s1; s2; f1; f2; f3] ->
  m false JsDate.utc_format
    (mkSt None
       (string_of_list_ascii
          [y1; y2; y3; y4; "-"%char; mo1; mo2; "-"%char; d1; d2; "T"%char; h1; h2;
           ":"%char; mi1; mi2; ":"%char; s1; s2; "."%char; f1; f2; f3; "Z"%char]) [])
    Some
  = Some (mkSt (Some "Z"%char) ""
            [(7%nat, string_of_list_ascii [f1; f2; f3]);
             (6%nat, string_of_list_ascii [s1; s2]);
             (5%nat, string_of_list_ascii [mi1; mi2]);
             (4%nat, string_of_list_ascii [h1; h2]);
             (3%nat, string_of_list_ascii [d1; d2]);
             (2%nat, string_of_list_ascii [mo1; mo2]);
             (1%nat, string_of_list_ascii [y1; y2; y3; y4])]).
Proof.
  intros Hd.
  repeat match goal with
         | H : Forall _ (_ :: _) |- _ => inversion H as [|? ? ? ?]; clear H; subst
         end.
  cbn [string_of_list_ascii]. unfold JsDate.utc_format.
  rewrite m_Seq, m_Bol; cbv beta. rewrite m_Seq, m_digits4 by assumption; cbv beta.
  rewrite m_Seq, m_Chr; cbv beta. rewrite m_Seq, m_digits2 by assumption; cbv beta.
  rewrite m_Seq, m_Chr; cbv beta. rewrite m_Seq, m_digits2 by assumption; cbv beta.
  rewrite m_Seq, m_Opt; cbv beta.
  rewrite m_Seq, m_Chr; cbv beta. rewrite m_Seq, m_digits2 by assumption; cbv beta.
  rewrite m_Seq, m_Chr; cbv beta. rewrite m_Seq, m_digits2 by assumption; cbv beta.
  rewrite m_Seq, m_Chr; cbv beta. rewrite m_Seq, m_digits2 by assumption; cbv beta.
  rewrite m_Seq, m_Opt; cbv beta. rewrite m_Seq, m_Chr; cbv beta.
  rewrite m_digits3 by assumption; cbv beta.
  rewrite progressed_shorter by (cbn [String.length]; lia).
  rewrite m_Chr; cbv beta. rewrite progressed_shorter by (cbn [String.length]; lia).
  rewrite m_Eol. reflexivity.
Qed.

Lemma parse_utc_digits (y1 y2 y3 y4 mo1 mo2 d1 d2 h1 h2 mi1 mi2 s1 s2 f1 f2 f3 : ascii) :
  Forall (fun c => Js.is_digit c = true)
    [y1; y2; y3; y4; mo1; mo2; d1; d2; h1; h2; mi1; mi2; s1; s2; f1; f2; f3] ->
  JsDate.parse_utc
    (string_of_list_ascii
       [y1; y2; y3; y4; "-"%char; mo1; mo2; "-"%char; d1; d2; "T"%char; h1; h2; ":"%char;
        mi1; mi2; ":"%char; s1; s2; "."%char; f1; f2; f3; "Z"%char])
  = JsDate.make_time
      (JsDate.digits_value 0 (string_of_list_ascii [y1; y2; y3; y4]))
      (JsDate.digits_value 0 (string_of_list_ascii [mo1; mo2]))
      (JsDate.digits_value 0 (string_of_list_ascii [d1; d2]))
      (JsDate.digits_value 0 (string_of_list_ascii [h1; h2]))
      (JsDate.digits_value 0 (string_of_list_ascii [mi1; mi2]))
      (JsDate.digits_value 0 (string_of_list_ascii [s1; s2]))
      (JsDate.digits_value 0 (string_of_list_ascii [f1; f2; f3])).
Proof.
  intros Hd.
  pose proof (utc_format_digits _ _ _ _ _ _ _ _ _ _ _ _ _ _ _ _ _ Hd) as Hm.
  cbn [string_of_list_ascii] in *.
  unfold JsDate.parse_utc, exec. cbn [exec_from]. unfold match_at. rewrite Hm.
  reflexivity.
Qed.

Lemma iso_string_parses (t : Z) :
  0 <= t < year_10000 -> JsDate.parse_utc (JsDate.iso_string t) = Some t.
Proof.
  unfold year_10000. intros Ht. unfold JsDate.iso_string, JsDate.msPerDay.
  set (days := t / 86400000). set (ms := t mod 86400000).
  pose proof (civil_valid days) as Hcivil.
  destruct (JsDate.civil_from_days days) as [[y mo] d].
  destruct Hcivil as (Hmo & Hd & Hdays).
  pose proof (days_in_month_max y mo) as Hmax.
  assert (Hy : 0 <= y <= 9999).
  { apply (civil_year_range y mo d); [lia | lia |]. rewrite Hdays. subst days. div_lia. }
  unfold JsDate.year_string.
  replace ((0 <=? y) && (y <=? 9999)) with true
    by (symmetry; apply andb_true_iff; split; apply Z.leb_le; lia).
  set (h := ms / 3600000). set (mi := ms / 60000 mod 60). set (s := ms / 1000 mod 60).
  set (f := ms mod 1000).
  assert (Hparts : 0 <= h <= 23 /\ 0 <= mi <= 59 /\ 0 <= s <= 59 /\ 0 <= f <= 999
                   /\ (((days * 24 + h) * 60 + mi) * 60 + s) * 1000 + f = t).
  { subst h mi s f ms days. div_lia. }
  destruct Hparts as (Hh & Hmi & Hs & Hf & Htime).
  change (Js.pad10 4 y "" +:+ "-" +:+ Js.pad10 2 mo "" +:+ "-" +:+ Js.pad10 2 d "" +:+ "T"
          +:+ Js.pad10 2 h "" +:+ ":" +:+ Js.pad10 2 mi "" +:+ ":" +:+ Js.pad10 2 s ""
          +:+ "." +:+ Js.pad10 3 f "" +:+ "Z")
    with (string_of_list_ascii
            [Js.digit10 (y / 10 / 10 / 10); Js.digit10 (y / 10 / 10); Js.digit10 (y / 10);
             Js.digit10 y; "-"%char; Js.digit10 (mo / 10); Js.digit10 mo; "-"%char;
             Js.digit10 (d / 10); Js.digit10 d; "T"%char; Js.digit10 (h / 10); Js.digit10 h;
             ":"%char; Js.digit10 (mi / 10); Js.digit10 mi; ":"%char;
             Js.digit10 (s / 10); Js.digit10 s; "."%char;
             Js.digit10 (f / 10 / 10); Js.digit10 (f / 10); Js.digit10 f; "Z"%char]).
  rewrite parse_utc_digits by (repeat constructor; apply digit10_is_digit).
  change (string_of_list_ascii [Js.digit10 (y / 10 / 10 / 10); Js.digit10 (y / 10 / 10);
                                Js.digit10 (y / 10); Js.digit10 y])
    with (Js.pad10 4 y "").
  change (string_of_list_ascii [Js.digit10 (mo / 10); Js.digit10 mo]) with (Js.pad10 2 mo "").
  change (string_of_list_ascii [Js.digit10 (d / 10); Js.digit10 d]) with (Js.pad10 2 d "").
  change (string_of_list_ascii [Js.digit10 (h / 10); Js.digit10 h]) with (Js.pad10 2 h "").
  change (string_of_list_ascii [Js.digit10 (mi / 10); Js.digit10 mi]) with (Js.pad10 2 mi "").
  change (string_of_list_ascii [Js.digit10 (s / 10); Js.digit10 s]) with (Js.pad10 2 s "").
  change (string_of_list_ascii [Js.digit10 (f / 10 / 10); Js.digit10 (f / 10); Js.digit10 f])
    with (Js.pad10 3 f "").
  rewrite !pad10_value
    by (first [change (10 ^ Z.of_nat 4) with 10000 | change (10 ^ Z.of_nat 3) with 1000
              | change (10 ^ Z.of_nat 2) with 100]; lia).
  unfold JsDate.make_time.
  replace ((1 <=? mo) && (mo <=? 12) && (1 <=? d) && (d <=? JsDate.days_in_month y mo)
           && (h <=? 23) && (mi <=? 59) && (s <=? 59)) with true.
  - rewrite Hdays. now rewrite Htime.
  - symmetry. rewrite !andb_true_iff. repeat split; apply Z.leb_le; lia.
Qed.

Lemma truthy_append (a b : string) (c : ascii) : Js.truthy (a +:+ String c b) = true.
Proof. now destruct a. Qed.

Lemma iso_string_truthy (t : Z) : Js.truthy (JsDate.iso_string t) = true.
Proof.
  unfold JsDate.iso_string. destruct (JsDate.civil_from_days _) as [[y mo] d].
  apply truthy_append.
Qed.

(** X29.  The ISO string of an instant from 1970 to the end of the year
    9999 reads back as that instant on every host.  So [parseDate] and
    [parseRssDate] return such a string unchanged, without reading the
    clock, and a record published at such a string has a time value. *)
Theorem iso_string_round_trip {host : Host} (t : Z) (w : World) :
  0 <= t < year_10000 ->
  Date_parse (JsDate.iso_string t) = Some t
  /\ parseDate (Some (JsDate.iso_string t)) w = (Normal (JsDate.iso_string t), w)
  /\ parseRssDate (JsDate.iso_string t) w = (Normal (JsDate.iso_string t), w)
  /\ forall item, Item.published_at item = JsDate.iso_string t -> getTime item = Some t.
Proof.
  intros Ht.
  assert (Hparse : Date_parse (JsDate.iso_string t) = Some t).
  { unfold Date_parse. now rewrite iso_string_parses. }
  split; [exact Hparse|]. split; [|split].
  - cbn [parseDate]. now rewrite iso_string_truthy, Hparse.
  - unfold parseRssDate. now rewrite iso_string_truthy, Hparse.
  - intros item Hitem. unfold getTime. now rewrite Hitem.
Qed.

(** ** Enrichment of a whole record *)

Section WholeRecord.

Context {host : Host}.

Lemma truthy_nonempty (s : string) : s <> "" -> Js.truthy s = true.
Proof. intros H. unfold Js.truthy. now destruct (String.eqb_spec s ""). Qed.

Lemma or_else_same (s : string) : Js.or_else (Some s) "" = s.
Proof.
  unfold Js.or_else, Js.truthy. destruct (String.eqb_spec s "") as [->|]; reflexivity.
Qed.

(** X30.  [normalizeItem] on a whole record, as the parse stage of the
    pipeline applies it to what the connectors return, never changes the
    id, the URL, the authors, or the category, domain, image and raw data
    of the metadata; a source and a language that are not empty are kept;
    and when both timestamps are present they are kept and the clock is
    not read. *)
Theorem normalizeItem_whole_record (r : Item.t) (w : World) :
  exists out w',
    normalizeItem (Partial.of_item r) w = (Normal out, w')
    /\ Item.id out = Item.id r
    /\ Item.url out = Item.url r
    /\ Item.authors out = Item.authors r
    /\ Metadata.category (Item.metadata out) = Metadata.category (Item.metadata r)
    /\ Metadata.domain (Item.metadata out) = Metadata.domain (Item.metadata r)
    /\ Metadata.image_url (Item.metadata out) = Metadata.image_url (Item.metadata r)
    /\ Metadata.raw (Item.metadata out) = Metadata.raw (Item.metadata r)
    /\ (Item.source r <> "" -> Item.source out = Item.source r)
    /\ (Item.language r <> "" -> Item.language out = Item.language r)
    /\ (Item.published_at r <> "" -> Item.fetched_at r <> "" ->
        Item.published_at out = Item.published_at r
        /\ Item.fetched_at out = Item.fetched_at r /\ w' = w).
Proof.
  unfold normalizeItem.
  destruct (total_or_now (Partial.published_at (Partial.of_item r)) w) as (p & w1 & Hp).
  destruct (total_or_now (Partial.fetched_at (Partial.of_item r)) w1) as (f & w2 & Hf).
  rewrite (bind_run _ _ _ _ _ Hp), (bind_run _ _ _ _ _ Hf).
  eexists _, w2. split; [reflexivity|].
  cbn [Partial.of_item Partial.id Partial.url Partial.authors Partial.metadata Partial.source
       Partial.language Partial.published_at Partial.fetched_at
       Item.id Item.url Item.authors Item.metadata Item.source Item.language
       Item.published_at Item.fetched_at
       Metadata.category Metadata.domain Metadata.image_url Metadata.raw] in *.
  rewrite !or_else_same.
  do 7 (split; [reflexivity|]).
  split; [intros Hs; now rewrite (truthy_nonempty _ Hs)|].
  split; [intros Hl; unfold Js.or_else; now rewrite (truthy_nonempty _ Hl)|].
  intros Hpub Hfet. cbn [or_now] in Hp, Hf.
  rewrite (truthy_nonempty _ Hpub) in Hp. rewrite (truthy_nonempty _ Hfet) in Hf.
  injection Hp as <- <-. injection Hf as <- <-. repeat split.
Qed.

End WholeRecord.

(* ================================================================== *)
(** * The further properties at concrete inputs *)
(* ================================================================== *)

Lemma generateId_unambiguous_witness :
  hashCode "feed" = hashCode "feed"
  /\ hashCode "https://a.example/Aa" = hashCode "https://a.example/BB".
Proof.
  apply (generateId_unambiguous "https://a.example/Aa" "feed" "https://a.example/BB" "feed").
  vm_compute. reflexivity.
Defined.

Lemma filterItems_inactive_config_witness :
  @filterItems Sample.offline
    [ Sample.record "1" "First" "2024-01-01"; Sample.record "2" "Second" "not a date" ]
    (Filter.mk (Some []) None None None (Some []) (Some 0)) Sample.start
  = (Normal [ Sample.record "1" "First" "2024-01-01";
              Sample.record "2" "Second" "not a date" ], Sample.start).
Proof.
  apply (@filterItems_inactive_config Sample.offline); try reflexivity.
  right. reflexivity.
Defined.

Lemma filter_predicate_exclude_wins_witness :
  @filter_predicate Sample.offline
    (Filter.mk (Some ["market"]) (Some ["Rumor"]) None None None (Some 1000))
    (Sample.record "1" "Market rumor spreads" "2024-01-01") Sample.start
  = (Normal false, Sample.start).
Proof.
  apply (@filter_predicate_exclude_wins Sample.offline _ _ "Rumor" ["Rumor"]).
  - reflexivity.
  - now left.
  - vm_compute. reflexivity.
Defined.

Lemma filter_predicate_age_witness :
  @filter_predicate Sample.offline
    (Filter.mk None None None None None (Some 1000))
    (Sample.record "1" "Undated" "not a date") Sample.start
  = (Normal true, Sample.start + 1)
  /\ @filter_predicate Sample.offline
       (Filter.mk None None None None None (Some 1000))
       (Sample.record "2" "Old" "2023-11-14T22:13:18Z") Sample.start
     = (Normal false, Sample.start + 1).
Proof.
  split.
  - rewrite (@filter_predicate_age Sample.offline _ 1000); [|reflexivity|discriminate].
    vm_compute. reflexivity.
  - rewrite (@filter_predicate_age Sample.offline _ 1000); [|reflexivity|discriminate].
    vm_compute. reflexivity.
Defined.

Lemma fetchGdeltCategory_fail_soft_witness :
  exists w', @fetchGdeltCategory Sample.offline intel GDELT_DEFAULT_OPTIONS Sample.start
             = (Normal [], w').
Proof.
  destruct (@fetchGdeltCategory_fail_soft Sample.offline intel GDELT_DEFAULT_OPTIONS
              Sample.start ltac:(discriminate))
    as (request & records & w' & Hurl & Hrun & Hthrown & _).
  exists w'. rewrite Hrun.
  destruct (Hthrown (mkError "TypeError" "fetch failed") Sample.start eq_refl) as [-> _].
  reflexivity.
Defined.

Lemma parseGdeltDate_compact_witness :
  @parseGdeltDate Sample.offline "20241399T256199Z" Sample.start
  = (Normal "2024-13-99T25:61:99Z", Sample.start).
Proof.
  apply (@parseGdeltDate_compact Sample.offline "2" "0" "2" "4" "1" "3" "9" "9"
           "2" "5" "6" "1" "9" "9" Sample.start).
  repeat constructor.
Defined.

Lemma load_tolerates_witness :
  Jsonl.load string SampleStore.parse
    (Some (Jsonl.unlines ["{a}"; ""; "oops"; "{b}"; ""]))
  = ["{a}"; "{b}"].
Proof.
  rewrite (proj1 (load_tolerates string SampleStore.parse ["{a}"; ""; "oops"; "{b}"; ""]
                    ltac:(repeat constructor; first [now left | now right]))).
  reflexivity.
Defined.

Lemma save_load_round_trip_witness :
  Jsonl.load string SampleStore.parse
    (Jsonl.save SampleStore.stringify SampleStore.stringify (Jsonl.mkOptions false false)
       [ Sample.record "a" "First" "2024-01-01"; Sample.record "b" "Second" "2024-01-02" ]
       (Some "what was there before"))
  = ["{a}"; "{b}"].
Proof.
  apply (proj1 (save_load_round_trip string SampleStore.stringify SampleStore.stringify
                  SampleStore.parse SampleStore.stringify
                  [ Sample.record "a" "First" "2024-01-01";
                    Sample.record "b" "Second" "2024-01-02" ]
                  (Some "what was there before")
                  ltac:(intros item [<- | [<- | []]]; split; reflexivity))).
Defined.

Lemma save_append_accumulates_witness :
  Jsonl.load string SampleStore.parse
    (Jsonl.save SampleStore.stringify SampleStore.stringify (Jsonl.mkOptions true false)
       [ Sample.record "b" "Second" "2024-01-02" ]
       (Jsonl.save SampleStore.stringify SampleStore.stringify (Jsonl.mkOptions false false)
          [ Sample.record "a" "First" "2024-01-01" ] None))
  = ["{a}"; "{b}"].
Proof.
  apply (proj1 (save_append_accumulates string SampleStore.stringify SampleStore.stringify
                  SampleStore.parse SampleStore.stringify
                  [ Sample.record "a" "First" "2024-01-01" ]
                  [ Sample.record "b" "Second" "2024-01-02" ] None
                  ltac:(intros item [<- | [<- | []]]; split; reflexivity))).
Defined.

Lemma iso_string_round_trip_witness :
  @Date_parse Sample.offline (JsDate.iso_string 1705320000000) = Some 1705320000000
  /\ JsDate.iso_string 1705320000000 = "2024-01-15T12:00:00.000Z".
Proof.
  split; [|vm_compute; reflexivity].
  exact (proj1 (@iso_string_round_trip Sample.offline 1705320000000 Sample.start
                  ltac:(unfold year_10000; lia))).
Defined.

(** The proxies are asked in order: the first is down, the second answers. *)
Example fetchWithProxy_second_proxy :
  @fetchWithProxy Sample.offline SampleStore.network "https://feed.example/rss"
    ["https://down.example/?"; "https://up.example/?"] Sample.start
  = (Normal (Some SampleStore.feed), Sample.start).
Proof. vm_compute. reflexivity. Qed.

(** The examples of the test suite. *)
Example parseAuthors_examples :
  parseAuthors (Some (AuthorString "By John Doe")) = ["John Doe"]
  /\ parseAuthors (Some (AuthorString "John Doe and Jane Smith")) = ["John Doe"; "Jane Smith"]
  /\ parseAuthors (Some (AuthorString "John Doe, Jane Smith")) = ["John Doe"; "Jane Smith"]
  /\ parseAuthors (Some (AuthorArray ["John Doe"; "Jane Smith"])) = ["John Doe"; "Jane Smith"].
Proof. vm_compute. repeat split. Qed.
